(** * Code-With-Us opportunities: the database access layer

    A shallow embedding of [back-end/lib/db/opportunity/code-with-us]
    (the versioned opportunity store with its status/event history) and of
    the [UserType] declarations of [shared/lib/resources/user].

    Tables are lists of rows in insertion order, a query is a list
    comprehension over them (joins are nested loops, [first()] is the head
    of the result), timestamps are integers (milliseconds), and ids and
    enum values are the strings the database stores.

    The last part embeds the form component of one phase of a
    Sprint-With-Us opportunity (module [Phase]). *)

From Stdlib Require Import ZArith String List Lia.
From stdpp Require Import base decidable option list sorting strings pretty.

Local Open Scope string_scope.
Local Open Scope list_scope.
Local Open Scope Z_scope.

(** ** Shared types *)

Definition Id := string.
Definition Date := Z.
Definition CWUOpportunityStatus := string.
Definition CWUOpportunityEvent := string.
Definition CWUProposalStatus := string.

(** [shared/lib/resources/user] *)
Inductive UserType := Vendor | Government | Admin.

Inductive UserStatus := Active | InactiveByUser | InactiveByAdmin.

Record User := {
  user_id : Id;
  user_type : UserType;
  user_status : UserStatus;
  user_name : string;
  user_email : option string;
  user_avatarImageUrl : option string;
  user_notificationsOn : bool;
  user_acceptedTerms : bool;
  user_idpUsername : string
}.

#[global] Instance UserType_eq_dec : EqDecision UserType.
Proof. solve_decision. Defined.

(** [Session] and [AuthenticatedSession]: the access layer only reads
    [session.user], which an authenticated session always has. *)
Record Session := { session_user : option User }.

Record AuthenticatedSession := { auth_user : User }.

Definition toSession (s : AuthenticatedSession) : Session :=
  {| session_user := Some (auth_user s) |}.

(** Records resolved through other access modules; this module reads only
    the id of a file record and passes user records through untouched. *)
Record UserSlim := { userSlim_id : Id; userSlim_name : string }.

Record FileRecord := { file_id : Id; file_name : string }.

(** [Validation]: [tryDb] reports every failure as [invalid(null)]. *)
Inductive Validation (A : Type) :=
| valid (a : A)
| invalid.
Arguments valid {A} a.
Arguments invalid {A}.

Definition getValidValue {A} (v : Validation A) (fallback : A) : A :=
  match v with valid a => a | invalid => fallback end.

(** [getValidValue(v, null)] where the valid value is never null itself. *)
Definition getValidValueOrNull {A} (v : Validation A) : option A :=
  match v with valid a => Some a | invalid => None end.

(** JavaScript truthiness of a string: only the empty string is falsy. *)
Definition truthy (s : string) : bool :=
  match s with EmptyString => false | String _ _ => true end.

Definition truthyOpt (o : option string) : bool :=
  match o with Some s => truthy s | None => false end.

(** ** Rows of the tables *)

(** [RootOpportunityRecord], table [cwuOpportunities]. *)
Record RootOpportunityRecord := {
  root_id : Id;
  root_createdAt : Date;
  root_createdBy : Id
}.

(** The editable columns of a version, which the code always moves
    together ([...restOfOpportunity], the [version.*] select list). *)
Record VersionContent := {
  title : string;
  teaser : string;
  remoteOk : bool;
  remoteDesc : string;
  location : string;
  reward : Z;
  skills : list string;
  description : string;
  proposalDeadline : Date;
  assignmentDate : Date;
  startDate : Date;
  completionDate : Date;
  submissionInfo : string;
  acceptanceCriteria : string;
  evaluationCriteria : string
}.

(** [OpportunityVersionRecord], table [cwuOpportunityVersions]. *)
Record OpportunityVersionRecord := {
  version_id : Id;
  version_opportunity : Id;
  version_createdAt : Date;
  version_createdBy : Id;
  version_content : VersionContent
}.

(** [RawCWUOpportunityHistoryRecord & { opportunity }], table
    [cwuOpportunityStatuses]: a row carries a status or an event. *)
Record RawCWUOpportunityHistoryRecord := {
  hist_id : Id;
  hist_opportunity : Id;
  hist_createdAt : Date;
  hist_createdBy : option Id;
  hist_status : option CWUOpportunityStatus;
  hist_event : option CWUOpportunityEvent;
  hist_note : string
}.

#[global] Instance RawCWUOpportunityHistoryRecord_eq_dec :
  EqDecision RawCWUOpportunityHistoryRecord.
Proof. solve_decision. Defined.

(** Table [cwuOpportunityAttachments]. *)
Record AttachmentRow := {
  att_opportunityVersion : Id;
  att_file : Id
}.

(** [RawCWUOpportunityAddendum & { opportunity }], table
    [cwuOpportunityAddenda]. *)
Record RawCWUOpportunityAddendum := {
  add_id : Id;
  add_opportunity : Id;
  add_description : string;
  add_createdBy : option Id;
  add_createdAt : Date
}.

(** [RawCWUOpportunitySubscriber], table [cwuOpportunitySubscribers]. *)
Record RawCWUOpportunitySubscriber := {
  sub_opportunity : Id;
  sub_user : Id
}.

(** Table [viewCounters]. *)
Record ViewCounter := { counter_name : string; counter_count : Z }.

(** Tables [cwuProposals] and [cwuProposalStatuses], with the columns
    the sweep reads and writes. *)
Record ProposalRow := { prop_id : Id; prop_opportunity : Id }.

Record ProposalStatusRow := {
  pstat_id : Id;
  pstat_createdAt : Date;
  pstat_proposal : Id;
  pstat_status : option CWUProposalStatus;
  pstat_note : string
}.

(** The database behind a [Connection]. *)
Record DB := {
  cwuOpportunities : list RootOpportunityRecord;
  cwuOpportunityVersions : list OpportunityVersionRecord;
  cwuOpportunityStatuses : list RawCWUOpportunityHistoryRecord;
  cwuOpportunityAttachments : list AttachmentRow;
  cwuOpportunityAddenda : list RawCWUOpportunityAddendum;
  cwuOpportunitySubscribers : list RawCWUOpportunitySubscriber;
  viewCounters : list ViewCounter;
  cwuProposals : list ProposalRow;
  cwuProposalStatuses : list ProposalStatusRow
}.

Definition emptyDB : DB :=
  {| cwuOpportunities := []; cwuOpportunityVersions := [];
     cwuOpportunityStatuses := []; cwuOpportunityAttachments := [];
     cwuOpportunityAddenda := []; cwuOpportunitySubscribers := [];
     viewCounters := []; cwuProposals := []; cwuProposalStatuses := [] |}.

(** ** Resources returned to callers *)

Inductive HistoryType :=
| adt_status (s : CWUOpportunityStatus)
| adt_event (e : CWUOpportunityEvent).

Record CWUOpportunityHistoryRecord := {
  h_id : Id;
  h_opportunity : Id;
  h_createdAt : Date;
  h_createdBy : option UserSlim;
  h_type : HistoryType;
  h_note : string
}.

Record Addendum := {
  addendum_id : Id;
  addendum_opportunity : Id;
  addendum_description : string;
  addendum_createdBy : option UserSlim;
  addendum_createdAt : Date
}.

Record Reporting := { numViews : Z; numWatchers : Z; numProposals : Z }.

(** [RawCWUOpportunity]: the selected row and the fields the read adds to
    it.  [status] is the [stat.status] column, which is nullable. *)
Record RawCWUOpportunity := {
  raw_id : Id;
  raw_createdAt : Date;
  raw_createdBy : option Id;
  raw_versionId : Id;
  raw_updatedAt : Date;
  raw_updatedBy : option Id;
  raw_content : VersionContent;
  raw_status : option CWUOpportunityStatus;
  raw_attachments : list Id;
  raw_addenda : list Id;
  raw_publishedAt : option Date;
  raw_successfulProponent : option bool;
  raw_subscribed : option bool;
  raw_history : option (list CWUOpportunityHistoryRecord);
  raw_reporting : option Reporting
}.

Record CWUOpportunity := {
  opp_id : Id;
  opp_createdAt : Date;
  opp_createdBy : option UserSlim;
  opp_updatedAt : Date;
  opp_updatedBy : option UserSlim;
  opp_content : VersionContent;
  opp_status : option CWUOpportunityStatus;
  opp_attachments : list FileRecord;
  opp_addenda : list Addendum;
  opp_publishedAt : option Date;
  opp_successfulProponent : option bool;
  opp_subscribed : option bool;
  opp_history : option (list CWUOpportunityHistoryRecord);
  opp_reporting : option Reporting
}.

Record RawCWUOpportunitySlim := {
  rslim_id : Id;
  rslim_title : string;
  rslim_createdBy : option Id;
  rslim_createdAt : Date;
  rslim_updatedAt : Date;
  rslim_updatedBy : option Id;
  rslim_proposalDeadline : Date;
  rslim_status : option CWUOpportunityStatus
}.

Record CWUOpportunitySlim := {
  slim_id : Id;
  slim_title : string;
  slim_createdBy : option UserSlim;
  slim_createdAt : Date;
  slim_updatedAt : Date;
  slim_updatedBy : option UserSlim;
  slim_proposalDeadline : Date;
  slim_status : option CWUOpportunityStatus
}.

(** ** Thrown exceptions *)

Inductive Result (A : Type) :=
| Ok (a : A)
| Throw (msg : string).
Arguments Ok {A} a.
Arguments Throw {A} msg.

#[global] Instance Result_ret : MRet Result := fun _ a => Ok a.

#[global] Instance Result_bind : MBind Result := fun _ _ f r =>
  match r with Ok a => f a | Throw msg => Throw msg end.

(** [Promise.all(xs.map(async x => ...))]: the first rejection rejects
    the whole. *)
Fixpoint promiseAll {A B} (f : A → Result B) (xs : list A) : Result (list B) :=
  match xs with
  | [] => Ok []
  | x :: xs' => y ← f x; ys ← promiseAll f xs'; Ok (y :: ys)
  end.

(** [tryDb] around a read: a thrown exception becomes [invalid]. *)
Definition tryDb {A} (r : Result (Validation A)) : Validation A :=
  match r with Ok v => v | Throw _ => invalid end.

(** ** What the module imports from outside this source tree

    The enum values and status tables of
    [shared/lib/resources/opportunity/code-with-us] and
    [shared/lib/resources/proposal/code-with-us], the readers of the user,
    file and proposal access modules, the view-counter name and the uuid
    generator ([generateUuid_nth n] is the n-th uuid generated). *)
Class Imports := {
  publicOpportunityStatuses : list CWUOpportunityStatus;
  privateOpportunitiesStatuses : list CWUOpportunityStatus;
  Published : CWUOpportunityStatus;
  Evaluation : CWUOpportunityStatus;
  Awarded : CWUOpportunityStatus;
  Edited : CWUOpportunityEvent;
  AddendumAdded : CWUOpportunityEvent;
  Submitted : CWUProposalStatus;
  UnderReview : CWUProposalStatus;
  readOneUserSlim : Id → Validation (option UserSlim);
  readOneFileById : Id → Validation (option FileRecord);
  readSubmittedCWUProposalCount : DB → Id → Validation Z;
  getCWUOpportunityViewsCounterName : Id → string;
  generateUuid_nth : nat → Id
}.

(** Records that carry the two author columns ([T extends
    RawCWUOpportunity | RawCWUOpportunitySlim]). *)
Class Authored (T : Type) := {
  createdByOf : T → option Id;
  updatedByOf : T → option Id;
  deleteAuthors : T → T
}.

#[global] Instance RawCWUOpportunity_authored : Authored RawCWUOpportunity := {|
  createdByOf := raw_createdBy;
  updatedByOf := raw_updatedBy;
  deleteAuthors r :=
    {| raw_id := raw_id r; raw_createdAt := raw_createdAt r;
       raw_createdBy := None; raw_versionId := raw_versionId r;
       raw_updatedAt := raw_updatedAt r; raw_updatedBy := None;
       raw_content := raw_content r; raw_status := raw_status r;
       raw_attachments := raw_attachments r; raw_addenda := raw_addenda r;
       raw_publishedAt := raw_publishedAt r;
       raw_successfulProponent := raw_successfulProponent r;
       raw_subscribed := raw_subscribed r; raw_history := raw_history r;
       raw_reporting := raw_reporting r |}
|}.

#[global] Instance RawCWUOpportunitySlim_authored : Authored RawCWUOpportunitySlim := {|
  createdByOf := rslim_createdBy;
  updatedByOf := rslim_updatedBy;
  deleteAuthors r :=
    {| rslim_id := rslim_id r; rslim_title := rslim_title r;
       rslim_createdBy := None; rslim_createdAt := rslim_createdAt r;
       rslim_updatedAt := rslim_updatedAt r; rslim_updatedBy := None;
       rslim_proposalDeadline := rslim_proposalDeadline r;
       rslim_status := rslim_status r |}
|}.

(** The guard of [processForRole]: no user, or a user who is neither an
    admin nor one of the two authors. *)
Definition hidesAuthors (session : Session) (createdBy updatedBy : option Id) : bool :=
  match session_user session with
  | None => true
  | Some u =>
      negb (bool_decide (user_type u = Admin))
      && negb (bool_decide (Some (user_id u) = createdBy))
      && negb (bool_decide (Some (user_id u) = updatedBy))
  end.

Definition processForRole {T} `{Authored T} (result : T) (session : Session) : T :=
  if hidesAuthors session (createdByOf result) (updatedByOf result)
  then deleteAuthors result
  else result.

(** [max("createdAt")] and its dual; [None] is SQL's NULL on no rows. *)
Definition maxCreatedAt (ds : list Date) : option Date :=
  foldr (λ d acc, Some (match acc with Some m => Z.max d m | None => d end)) None ds.

Definition minCreatedAt (ds : list Date) : option Date :=
  foldr (λ d acc, Some (match acc with Some m => Z.min d m | None => d end)) None ds.

(** [col in (...)]: never true of NULL. *)
Definition whereIn (col : option CWUOpportunityStatus)
    (values : list CWUOpportunityStatus) : bool :=
  match col with
  | Some s => bool_decide (s ∈ values)
  | None => false
  end.

(** The correlated subqueries of the joins. *)
Definition latestStatusTypedAt (db : DB) (oppId : Id) : option Date :=
  maxCreatedAt (hist_createdAt <$>
    filter (λ s, hist_opportunity s = oppId ∧ is_Some (hist_status s))
           (cwuOpportunityStatuses db)).

Definition latestHistoryAt (db : DB) (oppId : Id) : option Date :=
  maxCreatedAt (hist_createdAt <$>
    filter (λ s, hist_opportunity s = oppId) (cwuOpportunityStatuses db)).

Definition latestVersionAt (db : DB) (oppId : Id) : option Date :=
  maxCreatedAt (version_createdAt <$>
    filter (λ v, version_opportunity v = oppId) (cwuOpportunityVersions db)).

(** [orderBy('createdAt', 'desc')] on history rows. *)
Definition newerFirst (a b : RawCWUOpportunityHistoryRecord) : Prop :=
  hist_createdAt b ≤ hist_createdAt a.

#[global] Instance newerFirst_dec : RelDecision newerFirst.
Proof. intros a b. unfold newerFirst. apply _. Defined.

(** A row of [opp join stat join version]. *)
Definition JoinRow : Type :=
  RootOpportunityRecord * RawCWUOpportunityHistoryRecord * OpportunityVersionRecord.

(** The two joins every query starts from; [statAt] is the subquery the
    status side is compared with. *)
Definition joinLatest (statAt : DB → Id → option Date) (db : DB) : list JoinRow :=
  opp ← cwuOpportunities db;
  stat ← filter (λ s, hist_opportunity s = root_id opp
                      ∧ Some (hist_createdAt s) = statAt db (root_id opp))
                (cwuOpportunityStatuses db);
  version ← filter (λ v, version_opportunity v = root_id opp
                         ∧ Some (version_createdAt v) = latestVersionAt db (root_id opp))
                   (cwuOpportunityVersions db);
  [(opp, stat, version)].

Section ReadPath.
Context `{Imports}.

(** [id ? getValidValue(await readOneUserSlim(connection, id), undefined)
    : undefined], followed by [|| undefined]. *)
Definition userOf (authorId : option Id) : option UserSlim :=
  match authorId with
  | Some i => if truthy i then getValidValue (readOneUserSlim i) None else None
  | None => None
  end.

Definition rawCWUOpportunityAddendumToCWUOpportunityAddendum
    (raw : RawCWUOpportunityAddendum) : Addendum :=
  {| addendum_id := add_id raw;
     addendum_opportunity := add_opportunity raw;
     addendum_description := add_description raw;
     addendum_createdBy := userOf (add_createdBy raw);
     addendum_createdAt := add_createdAt raw |}.

Definition readOneCWUOpportunityAddendum (db : DB) (id : Id) : Validation Addendum :=
  tryDb (
    match head (filter (λ a, add_id a = id) (cwuOpportunityAddenda db)) with
    | None => Throw "unable to read addendum"
    | Some result => Ok (valid (rawCWUOpportunityAddendumToCWUOpportunityAddendum result))
    end).

Definition rawCWUOpportunityToCWUOpportunity (db : DB) (raw : RawCWUOpportunity)
    : Result CWUOpportunity :=
  let createdBy := userOf (raw_createdBy raw) in
  let updatedBy := userOf (raw_updatedBy raw) in
  attachments ← promiseAll (λ id,
    match getValidValue (readOneFileById id) None with
    | None => Throw "unable to process opportunity"
    | Some result => Ok result
    end) (raw_attachments raw);
  addenda ← promiseAll (λ id,
    match getValidValueOrNull (readOneCWUOpportunityAddendum db id) with
    | None => Throw "unable to retrieve addenda"
    | Some result => Ok result
    end) (raw_addenda raw);
  Ok {| opp_id := raw_id raw; opp_createdAt := raw_createdAt raw;
        opp_createdBy := createdBy;
        opp_updatedAt := raw_updatedAt raw; opp_updatedBy := updatedBy;
        opp_content := raw_content raw; opp_status := raw_status raw;
        opp_attachments := attachments; opp_addenda := addenda;
        opp_publishedAt := raw_publishedAt raw;
        opp_successfulProponent := raw_successfulProponent raw;
        opp_subscribed := raw_subscribed raw;
        opp_history := raw_history raw;
        opp_reporting := raw_reporting raw |}.

Definition rawCWUOpportunitySlimToCWUOpportunitySlim (raw : RawCWUOpportunitySlim)
    : CWUOpportunitySlim :=
  {| slim_id := rslim_id raw; slim_title := rslim_title raw;
     slim_createdBy := userOf (rslim_createdBy raw);
     slim_createdAt := rslim_createdAt raw;
     slim_updatedAt := rslim_updatedAt raw;
     slim_updatedBy := userOf (rslim_updatedBy raw);
     slim_proposalDeadline := rslim_proposalDeadline raw;
     slim_status := rslim_status raw |}.

Definition rawCWUOpportunityHistoryRecordToCWUOpportunityHistoryRecord
    (raw : RawCWUOpportunityHistoryRecord) : Result CWUOpportunityHistoryRecord :=
  let createdBy := userOf (hist_createdBy raw) in
  if negb (truthyOpt (hist_status raw)) && negb (truthyOpt (hist_event raw))
  then Throw "unable to process opportunity status record"
  else Ok {| h_id := hist_id raw; h_opportunity := hist_opportunity raw;
             h_createdAt := hist_createdAt raw; h_createdBy := createdBy;
             h_type := if truthyOpt (hist_status raw)
                       then adt_status (default EmptyString (hist_status raw))
                       else adt_event (default EmptyString (hist_event raw));
             h_note := hist_note raw |}.

(** [session.user?.id] and [session.user?.type === t]. *)
Definition sessionUserId (session : Session) : option Id :=
  user_id <$> session_user session.

Definition sessionUserIs (session : Session) (t : UserType) : bool :=
  match session_user session with
  | Some u => bool_decide (user_type u = t)
  | None => false
  end.

(** The role-dependent [where] clause of [readOneCWUOpportunity]. *)
Definition readOneVisible (session : Session) (r : JoinRow) : bool :=
  let '(opp, stat, _) := r in
  if negb (bool_decide (is_Some (session_user session))) || sessionUserIs session Vendor
  then whereIn (hist_status stat) publicOpportunityStatuses
  else if sessionUserIs session Government
  then whereIn (hist_status stat) publicOpportunityStatuses
       || (whereIn (hist_status stat) privateOpportunitiesStatuses
           && bool_decide (Some (root_createdBy opp) = sessionUserId session))
  else whereIn (hist_status stat)
               (publicOpportunityStatuses ++ privateOpportunitiesStatuses).

(** The [select] list of [readOneCWUOpportunity]. *)
Definition selectRaw (r : JoinRow) : RawCWUOpportunity :=
  let '(opp, stat, version) := r in
  {| raw_id := root_id opp; raw_createdAt := root_createdAt opp;
     raw_createdBy := Some (root_createdBy opp);
     raw_versionId := version_id version;
     raw_updatedAt := version_createdAt version;
     raw_updatedBy := Some (version_createdBy version);
     raw_content := version_content version;
     raw_status := hist_status stat;
     raw_attachments := []; raw_addenda := [];
     raw_publishedAt := None; raw_successfulProponent := None;
     raw_subscribed := None; raw_history := None; raw_reporting := None |}.

(** The rows of the query of [readOneCWUOpportunity], and [query.first()]. *)
Definition readOneRows (db : DB) (id : Id) (session : Session) : list JoinRow :=
  filter (λ r, readOneVisible session r)
    (filter (λ r : JoinRow, root_id r.1.1 = id) (joinLatest latestStatusTypedAt db)).

Definition readOneFirst (db : DB) (id : Id) (session : Session) : option JoinRow :=
  head (readOneRows db id session).

(** What the read adds to the selected row before it is converted. *)
Definition readOneDecorate (db : DB) (id : Id) (session : Session)
    (selected : RawCWUOpportunity) : Result RawCWUOpportunity :=
  let result := processForRole selected session in
  let attachments :=
    att_file <$> filter (λ a, att_opportunityVersion a = raw_versionId result)
                        (cwuOpportunityAttachments db) in
  let addenda :=
    add_id <$> filter (λ a, add_opportunity a = id) (cwuOpportunityAddenda db) in
  (* Get published date if applicable *)
  let publishedAt :=
    minCreatedAt (hist_createdAt <$>
      filter (λ s, hist_opportunity s = raw_id result ∧ hist_status s = Some Published)
             (cwuOpportunityStatuses db)) in
  (* Set awarded proponent flag if applicable *)
  let successfulProponent :=
    if bool_decide (raw_status result = Some Awarded) then Some true else None in
  (* Add on subscription flag, if authenticated user *)
  let subscribed :=
    match session_user session with
    | Some u =>
        Some (bool_decide (is_Some (head
          (filter (λ s, sub_opportunity s = raw_id result ∧ sub_user s = user_id u)
                  (cwuOpportunitySubscribers db)))))
    | None => None
    end in
  (* If admin/owner, add on list of change records and reporting metrics if public *)
  '(history, reporting) ←
    (if sessionUserIs session Admin
        || bool_decide (raw_createdBy result = sessionUserId session)
     then
       let rawStatusArray :=
         merge_sort newerFirst
           (filter (λ s, hist_opportunity s = raw_id result) (cwuOpportunityStatuses db)) in
       history ← promiseAll
         rawCWUOpportunityHistoryRecordToCWUOpportunityHistoryRecord rawStatusArray;
       Ok (Some history,
           if whereIn (raw_status result) publicOpportunityStatuses
           then
             let numViews :=
               default 0 (counter_count <$> head
                 (filter (λ c, counter_name c = getCWUOpportunityViewsCounterName (raw_id result))
                         (viewCounters db))) in
             let numWatchers :=
               Z.of_nat (length
                 (filter (λ s, sub_opportunity s = raw_id result)
                         (cwuOpportunitySubscribers db))) in
             let numProposals :=
               getValidValue (readSubmittedCWUProposalCount db (raw_id result)) 0 in
             Some {| numViews := numViews; numWatchers := numWatchers;
                     numProposals := numProposals |}
           else None)
     else Ok (None, None));
  Ok {| raw_id := raw_id result; raw_createdAt := raw_createdAt result;
        raw_createdBy := raw_createdBy result;
        raw_versionId := raw_versionId result;
        raw_updatedAt := raw_updatedAt result;
        raw_updatedBy := raw_updatedBy result;
        raw_content := raw_content result; raw_status := raw_status result;
        raw_attachments := attachments; raw_addenda := addenda;
        raw_publishedAt := publishedAt;
        raw_successfulProponent := successfulProponent;
        raw_subscribed := subscribed;
        raw_history := history; raw_reporting := reporting |}.

Definition readOneCWUOpportunity (db : DB) (id : Id) (session : Session)
    : Validation (option CWUOpportunity) :=
  tryDb (
    match readOneFirst db id session with
    | Some row =>
        result ← readOneDecorate db id session (selectRaw row);
        opportunity ← rawCWUOpportunityToCWUOpportunity db result;
        Ok (valid (Some opportunity))
    | None => Ok (valid None)
    end).

Definition readOneCWUOpportunitySlim (db : DB) (oppId : Id) (session : Session)
    : Validation (option CWUOpportunitySlim) :=
  tryDb (
    match readOneCWUOpportunity db oppId session with
    | valid (Some fullOpportunity) =>
        Ok (valid (Some
          {| slim_id := opp_id fullOpportunity;
             slim_title := title (opp_content fullOpportunity);
             slim_createdBy := opp_createdBy fullOpportunity;
             slim_createdAt := opp_createdAt fullOpportunity;
             slim_updatedAt := opp_updatedAt fullOpportunity;
             slim_updatedBy := opp_updatedBy fullOpportunity;
             slim_proposalDeadline := proposalDeadline (opp_content fullOpportunity);
             slim_status := opp_status fullOpportunity |}))
    | _ => Throw "unable to read opportunity"
    end).

(** The role-dependent [where] clause of [readManyCWUOpportunities];
    admins get no filter at all. *)
Definition readManyVisible (session : Session) (r : JoinRow) : bool :=
  let '(opp, stat, _) := r in
  if negb (bool_decide (is_Some (session_user session))) || sessionUserIs session Vendor
  then whereIn (hist_status stat) publicOpportunityStatuses
  else if sessionUserIs session Government
  then whereIn (hist_status stat) publicOpportunityStatuses
       || (whereIn (hist_status stat) privateOpportunitiesStatuses
           && bool_decide (Some (root_createdBy opp) = sessionUserId session))
  else true.

Definition selectRawSlim (r : JoinRow) : RawCWUOpportunitySlim :=
  let '(opp, stat, version) := r in
  {| rslim_id := root_id opp;
     rslim_title := title (version_content version);
     rslim_createdBy := Some (root_createdBy opp);
     rslim_createdAt := root_createdAt opp;
     rslim_updatedAt := version_createdAt version;
     rslim_updatedBy := Some (version_createdBy version);
     rslim_proposalDeadline := proposalDeadline (version_content version);
     rslim_status := hist_status stat |}.

(** The rows of the query of [readManyCWUOpportunities]: its status
    subquery has no [status is not null]. *)
Definition readManyRows (db : DB) (session : Session) : list JoinRow :=
  filter (λ r, readManyVisible session r) (joinLatest latestHistoryAt db).

Definition readManyCWUOpportunities (db : DB) (session : Session)
    : Validation (list CWUOpportunitySlim) :=
  let results :=
    (λ r, processForRole (selectRawSlim r) session) <$> readManyRows db session in
  valid (rawCWUOpportunitySlimToCWUOpportunitySlim <$> results).
End ReadPath.

(** ** The write path

    A write runs against a [World]: the committed database, the rows an
    open transaction has inserted but not yet committed, the uuid
    generator, and the inserts and commits the database rejects.  Inserts
    and commits are each numbered in the order they are issued; the ones
    listed in [failingInserts] and [failingCommits] throw. *)
Record World := {
  db : DB;
  pending : DB;
  nextUuid : nat;
  inserts : nat;
  commits : nat;
  failingInserts : list nat;
  failingCommits : list nat
}.

Definition setDb (d : DB) (w : World) : World :=
  {| db := d; pending := pending w; nextUuid := nextUuid w;
     inserts := inserts w; commits := commits w;
     failingInserts := failingInserts w; failingCommits := failingCommits w |}.

Definition setPending (p : DB) (w : World) : World :=
  {| db := db w; pending := p; nextUuid := nextUuid w;
     inserts := inserts w; commits := commits w;
     failingInserts := failingInserts w; failingCommits := failingCommits w |}.

Definition countUuid (w : World) : World :=
  {| db := db w; pending := pending w; nextUuid := S (nextUuid w);
     inserts := inserts w; commits := commits w;
     failingInserts := failingInserts w; failingCommits := failingCommits w |}.

Definition countInsert (w : World) : World :=
  {| db := db w; pending := pending w; nextUuid := nextUuid w;
     inserts := S (inserts w); commits := commits w;
     failingInserts := failingInserts w; failingCommits := failingCommits w |}.

Definition countCommit (w : World) : World :=
  {| db := db w; pending := pending w; nextUuid := nextUuid w;
     inserts := inserts w; commits := S (commits w);
     failingInserts := failingInserts w; failingCommits := failingCommits w |}.

Definition M (A : Type) : Type := World → Result A * World.

Definition retM {A} (a : A) : M A := λ w, (Ok a, w).

Definition bindM {A B} (m : M A) (f : A → M B) : M B := λ w,
  match m w with
  | (Ok a, w') => f a w'
  | (Throw msg, w') => (Throw msg, w')
  end.

Definition throwM {A} (msg : string) : M A := λ w, (Throw msg, w).

Declare Scope db_scope.
Delimit Scope db_scope with db.
Notation "x <- m ;; k" := (bindM m (λ x, k))
  (at level 100, m at next level, right associativity) : db_scope.
Notation "m ;;; k" := (bindM m (λ _, k))
  (at level 100, right associativity) : db_scope.

(** Table-wise append: the committed rows followed by the new ones. *)
Definition mergeDB (a b : DB) : DB :=
  {| cwuOpportunities := cwuOpportunities a ++ cwuOpportunities b;
     cwuOpportunityVersions := cwuOpportunityVersions a ++ cwuOpportunityVersions b;
     cwuOpportunityStatuses := cwuOpportunityStatuses a ++ cwuOpportunityStatuses b;
     cwuOpportunityAttachments := cwuOpportunityAttachments a ++ cwuOpportunityAttachments b;
     cwuOpportunityAddenda := cwuOpportunityAddenda a ++ cwuOpportunityAddenda b;
     cwuOpportunitySubscribers := cwuOpportunitySubscribers a ++ cwuOpportunitySubscribers b;
     viewCounters := viewCounters a ++ viewCounters b;
     cwuProposals := cwuProposals a ++ cwuProposals b;
     cwuProposalStatuses := cwuProposalStatuses a ++ cwuProposalStatuses b |}.

(** Rows of a single table, as a database to merge. *)
Definition versionRows (rs : list OpportunityVersionRecord) : DB :=
  {| cwuOpportunities := []; cwuOpportunityVersions := rs;
     cwuOpportunityStatuses := []; cwuOpportunityAttachments := [];
     cwuOpportunityAddenda := []; cwuOpportunitySubscribers := [];
     viewCounters := []; cwuProposals := []; cwuProposalStatuses := [] |}.

Definition statusRows (rs : list RawCWUOpportunityHistoryRecord) : DB :=
  {| cwuOpportunities := []; cwuOpportunityVersions := [];
     cwuOpportunityStatuses := rs; cwuOpportunityAttachments := [];
     cwuOpportunityAddenda := []; cwuOpportunitySubscribers := [];
     viewCounters := []; cwuProposals := []; cwuProposalStatuses := [] |}.

Definition attachmentRows (rs : list AttachmentRow) : DB :=
  {| cwuOpportunities := []; cwuOpportunityVersions := [];
     cwuOpportunityStatuses := []; cwuOpportunityAttachments := rs;
     cwuOpportunityAddenda := []; cwuOpportunitySubscribers := [];
     viewCounters := []; cwuProposals := []; cwuProposalStatuses := [] |}.

Definition addendumRows (rs : list RawCWUOpportunityAddendum) : DB :=
  {| cwuOpportunities := []; cwuOpportunityVersions := [];
     cwuOpportunityStatuses := []; cwuOpportunityAttachments := [];
     cwuOpportunityAddenda := rs; cwuOpportunitySubscribers := [];
     viewCounters := []; cwuProposals := []; cwuProposalStatuses := [] |}.

Definition proposalStatusRows (rs : list ProposalStatusRow) : DB :=
  {| cwuOpportunities := []; cwuOpportunityVersions := [];
     cwuOpportunityStatuses := []; cwuOpportunityAttachments := [];
     cwuOpportunityAddenda := []; cwuOpportunitySubscribers := [];
     viewCounters := []; cwuProposals := []; cwuProposalStatuses := rs |}.

Definition versionRow (r : OpportunityVersionRecord) : DB := versionRows [r].

Definition statusRow (r : RawCWUOpportunityHistoryRecord) : DB := statusRows [r].

Definition attachmentRow (r : AttachmentRow) : DB := attachmentRows [r].

Definition addendumRow (r : RawCWUOpportunityAddendum) : DB := addendumRows [r].

Definition proposalStatusRow (r : ProposalStatusRow) : DB := proposalStatusRows [r].

(** What a query [transacting(trx)] sees: committed and pending rows. *)
Definition view (w : World) : DB := mergeDB (db w) (pending w).

Definition rejectsInsert (w : World) : bool :=
  bool_decide (inserts w ∈ failingInserts w).

Definition rejectsCommit (w : World) : bool :=
  bool_decide (commits w ∈ failingCommits w).

(** An insert of [row] (given as a database to merge): through the
    transaction when [transacting], otherwise committed at once.  It
    returns its argument, as [insert(..., '*')] returns the row. *)
Definition insert {R} (transacting : bool) (asDB : R → DB) (row : R) : M (list R) := λ w,
  if rejectsInsert w
  then (Throw "insert failed", countInsert w)
  else if transacting
  then (Ok [row], countInsert (setPending (mergeDB (pending w) (asDB row)) w))
  else (Ok [row], countInsert (setDb (mergeDB (db w) (asDB row)) w)).

(** [connection.transaction(async trx => body)]: the body's transacted
    inserts are committed together when the body returns and the commit
    is accepted, and dropped together otherwise. *)
Definition transaction {A} (body : M A) : M A := λ w,
  match body (setPending emptyDB w) with
  | (Ok a, w') =>
      if rejectsCommit w'
      then (Throw "commit failed", countCommit (setPending emptyDB w'))
      else (Ok a, countCommit (setPending emptyDB (setDb (mergeDB (db w') (pending w')) w')))
  | (Throw msg, w') => (Throw msg, setPending emptyDB w')
  end.

(** [tryDb] around a write. *)
Definition tryDbM {A} (m : M (Validation A)) : World → Validation A * World := λ w,
  match m w with
  | (Ok v, w') => (v, w')
  | (Throw _, w') => (invalid, w')
  end.

(** [for (const x of xs) { await f(x) }] *)
Fixpoint forEach {A} (f : A → M unit) (xs : list A) : M unit :=
  match xs with
  | [] => retM tt
  | x :: xs' => bindM (f x) (λ _, forEach f xs')
  end.

(** [UpdateCWUOpportunityParams]: the id of the opportunity, the editable
    columns, and the attachments when they are given. *)
Record UpdateCWUOpportunityParams := {
  upd_id : Id;
  upd_content : VersionContent;
  upd_attachments : option (list FileRecord)
}.

Section WritePath.
Context `{Imports}.
Local Open Scope db_scope.

Definition generateUuid : M Id := λ w,
  (Ok (generateUuid_nth (nextUuid w)), countUuid w).

(** A read outside any transaction, and one [transacting(trx)]. *)
Definition readCommitted {A} (q : DB → A) : M A := λ w, (Ok (q (db w)), w).

Definition readTransacting {A} (q : DB → A) : M A := λ w, (Ok (q (view w)), w).

Definition createCWUOpportunityAttachments (oppVersionId : Id)
    (attachments : list FileRecord) : M unit :=
  forEach (λ attachment,
    rows <- insert true attachmentRow
              {| att_opportunityVersion := oppVersionId;
                 att_file := file_id attachment |};;
    match head rows with
    | None => throwM "Unable to create opportunity attachment"
    | Some _ => retM tt
    end) attachments.

(** The read-back that ends every write. *)
Definition readBack (id : Id) (session : AuthenticatedSession) (msg : string)
    : M (Validation CWUOpportunity) :=
  dbResult <- readCommitted (λ d, readOneCWUOpportunity d id (toSession session));;
  match dbResult with
  | valid (Some value) => retM (valid value)
  | _ => throwM msg
  end.

Definition updateCWUOpportunityVersion (now : Date)
    (opportunity : UpdateCWUOpportunityParams) (session : AuthenticatedSession)
    : World → Validation CWUOpportunity * World :=
  tryDbM (
    oppVersion <- transaction (
      versionId <- generateUuid;;
      rows <- insert true versionRow
                {| version_id := versionId;
                   version_opportunity := upd_id opportunity;
                   version_createdAt := now;
                   version_createdBy := user_id (auth_user session);
                   version_content := upd_content opportunity |};;
      match head rows with
      | None => throwM "unable to update opportunity"
      | Some oppVersion =>
          createCWUOpportunityAttachments (version_id oppVersion)
            (default [] (upd_attachments opportunity));;;
          (* Add an 'edit' change record: this insert is not transacting *)
          historyId <- generateUuid;;
          insert false statusRow
            {| hist_id := historyId;
               hist_opportunity := upd_id opportunity;
               hist_createdAt := now;
               hist_createdBy := Some (user_id (auth_user session));
               hist_status := None;
               hist_event := Some Edited;
               hist_note := EmptyString |};;;
          retM oppVersion
      end);;
    readBack (version_opportunity oppVersion) session "unable to update opportunity").

Definition updateCWUOpportunityStatus (now : Date) (id : Id)
    (status : CWUOpportunityStatus) (note : string) (session : AuthenticatedSession)
    : World → Validation CWUOpportunity * World :=
  tryDbM (
    historyId <- generateUuid;;
    rows <- insert false statusRow
              {| hist_id := historyId;
                 hist_opportunity := id;
                 hist_createdAt := now;
                 hist_createdBy := Some (user_id (auth_user session));
                 hist_status := Some status;
                 hist_event := None;
                 hist_note := note |};;
    match head rows with
    | None => throwM "unable to update opportunity"
    | Some _ => readBack id session "unable to update opportunity"
    end).

Definition addCWUOpportunityAddendum (now : Date) (id : Id)
    (addendumText : string) (session : AuthenticatedSession)
    : World → Validation CWUOpportunity * World :=
  tryDbM (
    transaction (
      addendumId <- generateUuid;;
      rows <- insert true addendumRow
                {| add_id := addendumId;
                   add_opportunity := id;
                   add_description := addendumText;
                   add_createdBy := Some (user_id (auth_user session));
                   add_createdAt := now |};;
      match head rows with
      | None => throwM "unable to add addendum"
      | Some _ =>
          (* Add a history record for the addendum addition *)
          historyId <- generateUuid;;
          insert true statusRow
            {| hist_id := historyId;
               hist_opportunity := id;
               hist_createdAt := now;
               hist_createdBy := Some (user_id (auth_user session));
               hist_status := None;
               hist_event := Some AddendumAdded;
               hist_note := EmptyString |};;;
          retM tt
      end);;;
    readBack id session "unable to add addendum").

(** The correlated subquery of the proposal join. *)
Definition latestProposalStatusAt (d : DB) (proposalId : Id) : option Date :=
  maxCreatedAt (pstat_createdAt <$>
    filter (λ s, pstat_proposal s = proposalId ∧ is_Some (pstat_status s))
           (cwuProposalStatuses d)).

(** Published opportunities whose latest version's deadline has passed. *)
Definition lapsedOpportunitiesIds (now : Date) (d : DB) : list Id :=
  (λ r : JoinRow, root_id r.1.1) <$>
    filter (λ r : JoinRow,
              hist_status r.1.2 = Some Published
              ∧ proposalDeadline (version_content r.2) ≤ now)
           (joinLatest latestStatusTypedAt d).

(** The SUBMITTED proposals of an opportunity. *)
Definition submittedProposalIds (lapsedOpportunityId : Id) (d : DB) : list Id :=
  (λ r : ProposalRow * ProposalStatusRow, prop_id r.1) <$>
    filter (λ r : ProposalRow * ProposalStatusRow,
              prop_opportunity r.1 = lapsedOpportunityId
              ∧ pstat_status r.2 = Some Submitted)
           (proposal ← cwuProposals d;
            status ← filter (λ s, pstat_proposal s = prop_id proposal
                                  ∧ is_Some (pstat_status s)
                                  ∧ Some (pstat_createdAt s)
                                    = latestProposalStatusAt d (prop_id proposal))
                            (cwuProposalStatuses d);
            [(proposal, status)]).

(** The body of the loop over the lapsed opportunities. *)
Definition closeOne (now : Date) (lapsedOpportunityId : Id) : M unit :=
  (* Set the opportunity to EVALUATION status *)
  historyId <- generateUuid;;
  insert true statusRow
    {| hist_id := historyId;
       hist_opportunity := lapsedOpportunityId;
       hist_createdAt := now;
       hist_createdBy := None;
       hist_status := Some Evaluation;
       hist_event := None;
       hist_note := "This opportunity has closed." |};;;
  (* Get a list of SUBMITTED proposals for this opportunity *)
  proposalIds <- readTransacting (submittedProposalIds lapsedOpportunityId);;
  forEach (λ proposalId,
    (* Set the proposal to UNDER_REVIEW status *)
    statusId <- generateUuid;;
    insert true proposalStatusRow
      {| pstat_id := statusId;
         pstat_createdAt := now;
         pstat_proposal := proposalId;
         pstat_status := Some UnderReview;
         pstat_note := EmptyString |};;;
    retM tt) proposalIds.

Definition closeCWUOpportunities (now : Date) : World → Validation Z * World :=
  tryDbM (
    count <- transaction (
      lapsedOpportunitiesIds <- readTransacting (lapsedOpportunitiesIds now);;
      forEach (closeOne now) lapsedOpportunitiesIds;;;
      retM (Z.of_nat (length lapsedOpportunitiesIds)));;
    retM (valid count)).
End WritePath.

(** The sweep as the specification words it: one transaction for each
    lapsed opportunity, around its transition and its proposals'. *)
Definition closeCWUOpportunities_perOpportunity `{Imports} (now : Date)
    : World → Validation Z * World :=
  tryDbM (
    bindM (readCommitted (lapsedOpportunitiesIds now)) (λ lapsed,
    bindM (forEach (λ id, transaction (closeOne now id)) lapsed) (λ _,
    retM (valid (Z.of_nat (length lapsed)))))).

(** ** Sample data *)

Definition sampleImports : Imports := {|
  publicOpportunityStatuses := ["PUBLISHED"; "EVALUATION"; "AWARDED"];
  privateOpportunitiesStatuses := ["DRAFT"; "SUSPENDED"; "CANCELED"];
  Published := "PUBLISHED";
  Evaluation := "EVALUATION";
  Awarded := "AWARDED";
  Edited := "EDITED";
  AddendumAdded := "ADDENDUM_ADDED";
  Submitted := "SUBMITTED";
  UnderReview := "UNDER_REVIEW";
  readOneUserSlim := λ id, valid (Some {| userSlim_id := id; userSlim_name := id |});
  readOneFileById := λ id,
    if bool_decide (id = "file-gone") then valid None
    else valid (Some {| file_id := id; file_name := id |});
  readSubmittedCWUProposalCount := λ _ _, valid 0;
  getCWUOpportunityViewsCounterName := λ id, "opportunity.cwu." +:+ id +:+ ".views";
  generateUuid_nth := λ n, "uuid-" +:+ pretty (N.of_nat n)
|}.

Definition sampleUser (id : Id) (type : UserType) : User :=
  {| user_id := id; user_type := type; user_status := Active;
     user_name := id; user_email := None; user_avatarImageUrl := None;
     user_notificationsOn := false; user_acceptedTerms := true;
     user_idpUsername := id |}.

Definition anonymous : Session := {| session_user := None |}.

Definition asUser (id : Id) (type : UserType) : Session :=
  {| session_user := Some (sampleUser id type) |}.

Definition authenticated (id : Id) (type : UserType) : AuthenticatedSession :=
  {| auth_user := sampleUser id type |}.

Definition sampleContent (heading : string) (deadline : Date) : VersionContent :=
  {| title := heading; teaser := "teaser"; remoteOk := true;
     remoteDesc := "anywhere"; location := "Victoria"; reward := 70000;
     skills := ["typescript"]; description := "description";
     proposalDeadline := deadline; assignmentDate := deadline + 10;
     startDate := deadline + 20; completionDate := deadline + 30;
     submissionInfo := "github"; acceptanceCriteria := "accepted";
     evaluationCriteria := "evaluated" |}.

Definition sampleStatus (id opportunity : Id) (at_ : Date)
    (status : CWUOpportunityStatus) : RawCWUOpportunityHistoryRecord :=
  {| hist_id := id; hist_opportunity := opportunity; hist_createdAt := at_;
     hist_createdBy := Some "gov-1"; hist_status := Some status;
     hist_event := None; hist_note := EmptyString |}.

Definition sampleVersion (id opportunity : Id) (at_ : Date) (deadline : Date)
    : OpportunityVersionRecord :=
  {| version_id := id; version_opportunity := opportunity;
     version_createdAt := at_; version_createdBy := "gov-1";
     version_content := sampleContent "Fix the parser" deadline |}.

Definition sampleRoot (id : Id) : RootOpportunityRecord :=
  {| root_id := id; root_createdAt := 10; root_createdBy := "gov-1" |}.

(** One published opportunity with one attached file. *)
Definition publishedDB : DB :=
  {| cwuOpportunities := [sampleRoot "opp-1"];
     cwuOpportunityVersions := [sampleVersion "ver-1" "opp-1" 10 100];
     cwuOpportunityStatuses := [sampleStatus "st-1" "opp-1" 10 "PUBLISHED"];
     cwuOpportunityAttachments :=
       [{| att_opportunityVersion := "ver-1"; att_file := "file-1" |}];
     cwuOpportunityAddenda := []; cwuOpportunitySubscribers := [];
     viewCounters := []; cwuProposals := []; cwuProposalStatuses := [] |}.

(** The same opportunity whose attachment points at a file that is gone. *)
Definition danglingDB : DB :=
  {| cwuOpportunities := [sampleRoot "opp-1"];
     cwuOpportunityVersions := [sampleVersion "ver-1" "opp-1" 10 100];
     cwuOpportunityStatuses := [sampleStatus "st-1" "opp-1" 10 "PUBLISHED"];
     cwuOpportunityAttachments :=
       [{| att_opportunityVersion := "ver-1"; att_file := "file-gone" |}];
     cwuOpportunityAddenda := []; cwuOpportunitySubscribers := [];
     viewCounters := []; cwuProposals := []; cwuProposalStatuses := [] |}.

(** Two published opportunities past their deadline at time 200, the
    first with one submitted proposal. *)
Definition lapsedDB : DB :=
  {| cwuOpportunities := [sampleRoot "opp-1"; sampleRoot "opp-2"];
     cwuOpportunityVersions :=
       [sampleVersion "ver-1" "opp-1" 10 100; sampleVersion "ver-2" "opp-2" 10 150];
     cwuOpportunityStatuses :=
       [sampleStatus "st-1" "opp-1" 10 "PUBLISHED";
        sampleStatus "st-2" "opp-2" 10 "PUBLISHED"];
     cwuOpportunityAttachments := []; cwuOpportunityAddenda := [];
     cwuOpportunitySubscribers := []; viewCounters := [];
     cwuProposals := [{| prop_id := "prop-1"; prop_opportunity := "opp-1" |}];
     cwuProposalStatuses :=
       [{| pstat_id := "ps-1"; pstat_createdAt := 50; pstat_proposal := "prop-1";
           pstat_status := Some "SUBMITTED"; pstat_note := EmptyString |}] |}.

(** A world over a database, rejecting the listed inserts and commits. *)
Definition worldOf (d : DB) (failingInserts failingCommits : list nat) : World :=
  {| db := d; pending := emptyDB; nextUuid := 0; inserts := 0; commits := 0;
     failingInserts := failingInserts; failingCommits := failingCommits |}.

Definition sampleEdit : UpdateCWUOpportunityParams :=
  {| upd_id := "opp-1";
     upd_content := sampleContent "Fix the parser, again" 100;
     upd_attachments := Some [{| file_id := "file-1"; file_name := "file-1" |}] |}.

(** [publishedDB] after its owner edited the opportunity at time 20. *)
Definition editedDB : DB :=
  db (updateCWUOpportunityVersion (H := sampleImports) 20 sampleEdit
        (authenticated "gov-1" Government) (worldOf publishedDB [] [])).2.

(** ** Vocabulary of the specification *)

(** [v] is a version row of opportunity [id] with maximum createdAt. *)
Definition isLatestVersion (d : DB) (id : Id) (v : OpportunityVersionRecord) : Prop :=
  v ∈ cwuOpportunityVersions d ∧ version_opportunity v = id ∧
  ∀ v', v' ∈ cwuOpportunityVersions d → version_opportunity v' = id →
        version_createdAt v' ≤ version_createdAt v.

(** [s] is a status-typed history row of opportunity [id], carrying
    [status], with maximum createdAt among the status-typed rows. *)
Definition isLatestStatus (d : DB) (id : Id) (s : RawCWUOpportunityHistoryRecord)
    (status : CWUOpportunityStatus) : Prop :=
  s ∈ cwuOpportunityStatuses d ∧ hist_opportunity s = id ∧
  hist_status s = Some status ∧
  ∀ s', s' ∈ cwuOpportunityStatuses d → hist_opportunity s' = id →
        is_Some (hist_status s') → hist_createdAt s' ≤ hist_createdAt s.

Definition currentStatus (d : DB) (id : Id) (status : CWUOpportunityStatus) : Prop :=
  ∃ s, isLatestStatus d id s status.

(** The visibility rule: public for anonymous users and vendors, public
    or own private for government users, everything for admins. *)
Definition visibleTo `{Imports} (d : DB) (session : Session)
    (root : RootOpportunityRecord) : Prop :=
  match session_user session with
  | None =>
      ∃ status, currentStatus d (root_id root) status
                ∧ status ∈ publicOpportunityStatuses
  | Some u =>
      match user_type u with
      | Vendor =>
          ∃ status, currentStatus d (root_id root) status
                    ∧ status ∈ publicOpportunityStatuses
      | Government =>
          ∃ status, currentStatus d (root_id root) status
                    ∧ (status ∈ publicOpportunityStatuses
                       ∨ (status ∈ privateOpportunitiesStatuses
                          ∧ root_createdBy root = user_id u))
      | Admin => True
      end
  end.

(** One of the two reads returns the opportunity [id] to [session]. *)
Definition returnsOpportunity `{Imports} (d : DB) (session : Session) (id : Id) : Prop :=
  (∃ opp, readOneCWUOpportunity d id session = valid (Some opp))
  ∨ (∃ slims slim, readManyCWUOpportunities d session = valid slims
                   ∧ slim ∈ slims ∧ slim_id slim = id).

(** The session has no user, or a user who is neither an admin nor the
    creator of the joined root row or version row. *)
Definition notAuthorNorAdmin (session : Session) (r : JoinRow) : Prop :=
  match session_user session with
  | None => True
  | Some u =>
      user_type u ≠ Admin ∧ user_id u ≠ root_createdBy r.1.1
      ∧ user_id u ≠ version_createdBy r.2
  end.

Definition opportunityMissing (d : DB) (id : Id) : Prop :=
  ∀ root, root ∈ cwuOpportunities d → root_id root ≠ id.

Definition opportunityNotVisible `{Imports} (d : DB) (id : Id) (session : Session) : Prop :=
  ∀ root, root ∈ cwuOpportunities d → root_id root = id → ¬ visibleTo d session root.

(** What a vendor reads of the opportunity of [publishedDB]. *)
Definition publishedForVendor : CWUOpportunity :=
  {| opp_id := "opp-1"; opp_createdAt := 10; opp_createdBy := None;
     opp_updatedAt := 10; opp_updatedBy := None;
     opp_content := sampleContent "Fix the parser" 100;
     opp_status := Some "PUBLISHED";
     opp_attachments := [{| file_id := "file-1"; file_name := "file-1" |}];
     opp_addenda := []; opp_publishedAt := Some 10;
     opp_successfulProponent := None; opp_subscribed := Some false;
     opp_history := None; opp_reporting := None |}.

(** No insert and no commit is rejected. *)
Definition quiet (w : World) : Prop :=
  failingInserts w = [] ∧ failingCommits w = [].

(** A computation only appends rows, to the committed database and to the
    open transaction, and none to the root table. *)
Definition appendsRows {A} (m : M A) : Prop :=
  ∀ w, ∃ dc dp,
    db (m w).2 = mergeDB (db w) dc ∧ pending (m w).2 = mergeDB (pending w) dp
    ∧ cwuOpportunities dc = [] ∧ cwuOpportunities dp = [].

(** The same of a computation that leaves no transaction open. *)
Definition appendsCommitted {R} (m : World → R * World) : Prop :=
  ∀ w, ∃ dc, db (m w).2 = mergeDB (db w) dc ∧ cwuOpportunities dc = [].

(** The rows [updateCWUOpportunityVersion] appends when nothing fails:
    one version, one attachment link for each given file, one Edited
    event; [n] is the number of uuids generated before. *)
Definition editRows `{Imports} (now : Date) (opportunity : UpdateCWUOpportunityParams)
    (session : AuthenticatedSession) (n : nat) : DB :=
  {| cwuOpportunities := [];
     cwuOpportunityVersions :=
       [{| version_id := generateUuid_nth n;
           version_opportunity := upd_id opportunity;
           version_createdAt := now;
           version_createdBy := user_id (auth_user session);
           version_content := upd_content opportunity |}];
     cwuOpportunityStatuses :=
       [{| hist_id := generateUuid_nth (S n);
           hist_opportunity := upd_id opportunity;
           hist_createdAt := now;
           hist_createdBy := Some (user_id (auth_user session));
           hist_status := None;
           hist_event := Some Edited;
           hist_note := EmptyString |}];
     cwuOpportunityAttachments :=
       (λ attachment, {| att_opportunityVersion := generateUuid_nth n;
                         att_file := file_id attachment |})
         <$> default [] (upd_attachments opportunity);
     cwuOpportunityAddenda := []; cwuOpportunitySubscribers := [];
     viewCounters := []; cwuProposals := []; cwuProposalStatuses := [] |}.

(** The row [updateCWUOpportunityStatus] appends. *)
Definition statusChangeRows `{Imports} (now : Date) (id : Id)
    (status : CWUOpportunityStatus) (note : string)
    (session : AuthenticatedSession) (n : nat) : DB :=
  statusRows
    [{| hist_id := generateUuid_nth n;
        hist_opportunity := id;
        hist_createdAt := now;
        hist_createdBy := Some (user_id (auth_user session));
        hist_status := Some status;
        hist_event := None;
        hist_note := note |}].

(** The rows [addCWUOpportunityAddendum] appends: one addendum, one
    AddendumAdded event. *)
Definition addendumAddedRows `{Imports} (now : Date) (id : Id) (addendumText : string)
    (session : AuthenticatedSession) (n : nat) : DB :=
  {| cwuOpportunities := []; cwuOpportunityVersions := [];
     cwuOpportunityStatuses :=
       [{| hist_id := generateUuid_nth (S n);
           hist_opportunity := id;
           hist_createdAt := now;
           hist_createdBy := Some (user_id (auth_user session));
           hist_status := None;
           hist_event := Some AddendumAdded;
           hist_note := EmptyString |}];
     cwuOpportunityAttachments := [];
     cwuOpportunityAddenda :=
       [{| add_id := generateUuid_nth n;
           add_opportunity := id;
           add_description := addendumText;
           add_createdBy := Some (user_id (auth_user session));
           add_createdAt := now |}];
     cwuOpportunitySubscribers := [];
     viewCounters := []; cwuProposals := []; cwuProposalStatuses := [] |}.

(** The opportunity [id] has lapsed at [now]: a latest status-typed row
    of it is Published and a latest version's deadline is at or before
    [now]. *)
Definition lapsed `{Imports} (now : Date) (d : DB) (id : Id) : Prop :=
  ∃ root stat version,
    root ∈ cwuOpportunities d ∧ root_id root = id
    ∧ isLatestStatus d id stat Published
    ∧ isLatestVersion d id version
    ∧ proposalDeadline (version_content version) ≤ now.

(** A latest status-typed row of the proposal is Submitted. *)
Definition latestSubmitted `{Imports} (d : DB) (proposalId : Id) : Prop :=
  ∃ s, s ∈ cwuProposalStatuses d ∧ pstat_proposal s = proposalId
       ∧ pstat_status s = Some Submitted
       ∧ ∀ s', s' ∈ cwuProposalStatuses d → pstat_proposal s' = proposalId →
               is_Some (pstat_status s') → pstat_createdAt s' ≤ pstat_createdAt s.

(** The state of a sweep that started on the committed database [d0] and
    has transitioned the opportunities [ids]: nothing is committed yet,
    and the open transaction holds one Evaluation row for each of [ids]
    and UnderReview rows for exactly their submitted proposals. *)
Definition sweeping `{Imports} (now : Date) (d0 : DB) (ids : list Id) (w : World) : Prop :=
  db w = d0
  ∧ ∃ statuses proposalStatuses,
      pending w = mergeDB (statusRows statuses) (proposalStatusRows proposalStatuses)
      ∧ hist_opportunity <$> statuses = ids
      ∧ (∀ s, s ∈ statuses →
              hist_status s = Some Evaluation ∧ hist_createdAt s = now)
      ∧ (∀ s, s ∈ proposalStatuses →
              pstat_status s = Some UnderReview ∧ pstat_createdAt s = now
              ∧ ∃ p, p ∈ cwuProposals d0 ∧ prop_id p = pstat_proposal s
                     ∧ prop_opportunity p ∈ ids ∧ latestSubmitted d0 (prop_id p))
      ∧ (∀ p, p ∈ cwuProposals d0 → prop_opportunity p ∈ ids →
              latestSubmitted d0 (prop_id p) →
              ∃ s, s ∈ proposalStatuses ∧ pstat_proposal s = prop_id p).

(** Keys are unique and "latest" is unambiguous: root ids are distinct,
    no row is stored twice, and no two status-typed rows, nor two
    versions, of one opportunity carry the same createdAt. *)
Definition uniqueRows (d : DB) : Prop :=
  NoDup (root_id <$> cwuOpportunities d)
  ∧ NoDup (cwuOpportunityStatuses d)
  ∧ NoDup (cwuOpportunityVersions d)
  ∧ (∀ s1 s2, s1 ∈ cwuOpportunityStatuses d → s2 ∈ cwuOpportunityStatuses d →
              hist_opportunity s1 = hist_opportunity s2 →
              is_Some (hist_status s1) → is_Some (hist_status s2) →
              hist_createdAt s1 = hist_createdAt s2 → s1 = s2)
  ∧ (∀ v1 v2, v1 ∈ cwuOpportunityVersions d → v2 ∈ cwuOpportunityVersions d →
              version_opportunity v1 = version_opportunity v2 →
              version_createdAt v1 = version_createdAt v2 → v1 = v2).

(** ** Creation and authorship *)

Definition rootRows (rs : list RootOpportunityRecord) : DB :=
  {| cwuOpportunities := rs; cwuOpportunityVersions := [];
     cwuOpportunityStatuses := []; cwuOpportunityAttachments := [];
     cwuOpportunityAddenda := []; cwuOpportunitySubscribers := [];
     viewCounters := []; cwuProposals := []; cwuProposalStatuses := [] |}.

Definition rootRow (r : RootOpportunityRecord) : DB := rootRows [r].

(** [CreateCWUOpportunityParams]: the editable columns, the attachments
    and the initial status. *)
Record CreateCWUOpportunityParams := {
  new_content : VersionContent;
  new_attachments : list FileRecord;
  new_status : CWUOpportunityStatus
}.

Section Creation.
Context `{Imports}.
Local Open Scope db_scope.

Definition createCWUOpportunity (now : Date) (opportunity : CreateCWUOpportunityParams)
    (session : AuthenticatedSession) : World → Validation CWUOpportunity * World :=
  tryDbM (
    opportunityId <- transaction (
      (* Create root opportunity record *)
      rootId <- generateUuid;;
      roots <- insert true rootRow
                 {| root_id := rootId;
                    root_createdAt := now;
                    root_createdBy := user_id (auth_user session) |};;
      match head roots with
      | None => throwM "unable to create opportunity root record"
      | Some rootOppRecord =>
          (* Create initial opportunity version *)
          versionId <- generateUuid;;
          versions <- insert true versionRow
                        {| version_id := versionId;
                           version_opportunity := root_id rootOppRecord;
                           version_createdAt := now;
                           version_createdBy := user_id (auth_user session);
                           version_content := new_content opportunity |};;
          match head versions with
          | None => throwM "unable to create opportunity version"
          | Some oppVersionRecord =>
              (* Create initial opportunity status record *)
              statusId <- generateUuid;;
              insert true statusRow
                {| hist_id := statusId;
                   hist_opportunity := root_id rootOppRecord;
                   hist_createdAt := now;
                   hist_createdBy := Some (user_id (auth_user session));
                   hist_status := Some (new_status opportunity);
                   hist_event := None;
                   hist_note := EmptyString |};;;
              (* Create attachment records *)
              createCWUOpportunityAttachments (version_id oppVersionRecord)
                (new_attachments opportunity);;;
              retM (root_id rootOppRecord)
          end
      end);;
    readBack opportunityId session "unable to create opportunity").

(** [isCWUOpportunityAuthor]: some root row has the id and the user as
    creator. *)
Definition isCWUOpportunityAuthor (d : DB) (user : User) (id : Id) : bool :=
  bool_decide (0 < length (filter (λ o, root_id o = id ∧ root_createdBy o = user_id user)
                                  (cwuOpportunities d)))%nat.

(** The rows [createCWUOpportunity] commits: one root, one version, one
    status row and one attachment link for each file; [n] is the number
    of uuids generated before. *)
Definition createRows (now : Date) (opportunity : CreateCWUOpportunityParams)
    (session : AuthenticatedSession) (n : nat) : DB :=
  {| cwuOpportunities :=
       [{| root_id := generateUuid_nth n;
           root_createdAt := now;
           root_createdBy := user_id (auth_user session) |}];
     cwuOpportunityVersions :=
       [{| version_id := generateUuid_nth (S n);
           version_opportunity := generateUuid_nth n;
           version_createdAt := now;
           version_createdBy := user_id (auth_user session);
           version_content := new_content opportunity |}];
     cwuOpportunityStatuses :=
       [{| hist_id := generateUuid_nth (S (S n));
           hist_opportunity := generateUuid_nth n;
           hist_createdAt := now;
           hist_createdBy := Some (user_id (auth_user session));
           hist_status := Some (new_status opportunity);
           hist_event := None;
           hist_note := EmptyString |}];
     cwuOpportunityAttachments :=
       (λ attachment, {| att_opportunityVersion := generateUuid_nth (S n);
                         att_file := file_id attachment |})
         <$> new_attachments opportunity;
     cwuOpportunityAddenda := []; cwuOpportunitySubscribers := [];
     viewCounters := []; cwuProposals := []; cwuProposalStatuses := [] |}.
End Creation.

(** The same user with another role. *)
Definition withType (u : User) (type : UserType) : User :=
  {| user_id := user_id u; user_type := type; user_status := user_status u;
     user_name := user_name u; user_email := user_email u;
     user_avatarImageUrl := user_avatarImageUrl u;
     user_notificationsOn := user_notificationsOn u;
     user_acceptedTerms := user_acceptedTerms u;
     user_idpUsername := user_idpUsername u |}.

(** Who gets the history of an opportunity attached by
    [readOneCWUOpportunity]: sessions without a user, admins, and the
    creator of the root row. *)
Definition historyShown (session : Session) (root : RootOpportunityRecord) : Prop :=
  match session_user session with
  | None => True
  | Some u => user_type u = Admin ∨ user_id u = root_createdBy root
  end.

(** What the caller gets from a write that ends in a read-back of the
    opportunity [id] from the database [d]. *)
Definition readBackResult `{Imports} (d : DB) (id : Id) (session : AuthenticatedSession)
    : Validation CWUOpportunity :=
  match readOneCWUOpportunity d id (toSession session) with
  | valid (Some value) => valid value
  | _ => invalid
  end.

(** [status] is carried by a status-typed row of the proposal with
    maximum createdAt among its status-typed rows. *)
Definition currentProposalStatus (d : DB) (proposalId : Id)
    (status : CWUProposalStatus) : Prop :=
  ∃ s, s ∈ cwuProposalStatuses d ∧ pstat_proposal s = proposalId
       ∧ pstat_status s = Some status
       ∧ ∀ s', s' ∈ cwuProposalStatuses d → pstat_proposal s' = proposalId →
               is_Some (pstat_status s') → pstat_createdAt s' ≤ pstat_createdAt s.

(** The uuids the next creation will use are not referenced yet: no
    root, version or history row under the new opportunity id, no
    attachment link under the new version id. *)
Definition freshCreation `{Imports} (w : World) : Prop :=
  (∀ root, root ∈ cwuOpportunities (db w) →
           root_id root ≠ generateUuid_nth (nextUuid w))
  ∧ (∀ v, v ∈ cwuOpportunityVersions (db w) →
          version_opportunity v ≠ generateUuid_nth (nextUuid w))
  ∧ (∀ s, s ∈ cwuOpportunityStatuses (db w) →
          hist_opportunity s ≠ generateUuid_nth (nextUuid w))
  ∧ (∀ a, a ∈ cwuOpportunityAttachments (db w) →
          att_opportunityVersion a ≠ generateUuid_nth (S (nextUuid w))).

(** The creator may read an opportunity of their own in [status]. *)
Definition creatorSees `{Imports} (session : AuthenticatedSession)
    (status : CWUOpportunityStatus) : Prop :=
  match user_type (auth_user session) with
  | Vendor => status ∈ publicOpportunityStatuses
  | _ => status ∈ publicOpportunityStatuses ∨ status ∈ privateOpportunitiesStatuses
  end.

(** A sample draft to create. *)
Definition sampleDraft : CreateCWUOpportunityParams :=
  {| new_content := sampleContent "Build the importer" 300;
     new_attachments := [{| file_id := "file-1"; file_name := "file-1" |}];
     new_status := "DRAFT" |}.

(** ** Further sample data and vocabulary *)

(** The opportunity of gov-1, drafted at 10, published at 15 and revised
    by gov-2 at 20: two versions, two status rows and the event row of the
    revision, one file for each version and one addendum. *)
Definition revisedDB : DB :=
  {| cwuOpportunities := [sampleRoot "opp-1"];
     cwuOpportunityVersions :=
       [sampleVersion "ver-1" "opp-1" 10 100;
        {| version_id := "ver-2"; version_opportunity := "opp-1";
           version_createdAt := 20; version_createdBy := "gov-2";
           version_content := sampleContent "Fix the parser, again" 120 |}];
     cwuOpportunityStatuses :=
       [sampleStatus "st-0" "opp-1" 10 "DRAFT";
        sampleStatus "st-1" "opp-1" 15 "PUBLISHED";
        {| hist_id := "ev-1"; hist_opportunity := "opp-1"; hist_createdAt := 20;
           hist_createdBy := Some "gov-2"; hist_status := None;
           hist_event := Some "EDITED"; hist_note := EmptyString |}];
     cwuOpportunityAttachments :=
       [{| att_opportunityVersion := "ver-1"; att_file := "file-1" |};
        {| att_opportunityVersion := "ver-2"; att_file := "file-2" |}];
     cwuOpportunityAddenda :=
       [{| add_id := "add-1"; add_opportunity := "opp-1";
           add_description := "The deadline has moved."; add_createdBy := Some "gov-2";
           add_createdAt := 20 |}];
     cwuOpportunitySubscribers := [];
     viewCounters := []; cwuProposals := []; cwuProposalStatuses := [] |}.

(** What an admin reads of it. *)
Definition revisedForAdmin : CWUOpportunity :=
  {| opp_id := "opp-1"; opp_createdAt := 10;
     opp_createdBy := Some {| userSlim_id := "gov-1"; userSlim_name := "gov-1" |};
     opp_updatedAt := 20;
     opp_updatedBy := Some {| userSlim_id := "gov-2"; userSlim_name := "gov-2" |};
     opp_content := sampleContent "Fix the parser, again" 120;
     opp_status := Some "PUBLISHED";
     opp_attachments := [{| file_id := "file-2"; file_name := "file-2" |}];
     opp_addenda :=
       [{| addendum_id := "add-1"; addendum_opportunity := "opp-1";
           addendum_description := "The deadline has moved.";
           addendum_createdBy :=
             Some {| userSlim_id := "gov-2"; userSlim_name := "gov-2" |};
           addendum_createdAt := 20 |}];
     opp_publishedAt := Some 15;
     opp_successfulProponent := None; opp_subscribed := Some false;
     opp_history :=
       Some [{| h_id := "ev-1"; h_opportunity := "opp-1"; h_createdAt := 20;
                h_createdBy :=
                  Some {| userSlim_id := "gov-2"; userSlim_name := "gov-2" |};
                h_type := adt_event "EDITED"; h_note := EmptyString |};
             {| h_id := "st-1"; h_opportunity := "opp-1"; h_createdAt := 15;
                h_createdBy :=
                  Some {| userSlim_id := "gov-1"; userSlim_name := "gov-1" |};
                h_type := adt_status "PUBLISHED"; h_note := EmptyString |};
             {| h_id := "st-0"; h_opportunity := "opp-1"; h_createdAt := 10;
                h_createdBy :=
                  Some {| userSlim_id := "gov-1"; userSlim_name := "gov-1" |};
                h_type := adt_status "DRAFT"; h_note := EmptyString |}];
     opp_reporting := Some {| numViews := 0; numWatchers := 0; numProposals := 0 |} |}.

(** A selected row of that opportunity whose list of addenda names an
    addendum that the table does not hold. *)
Definition danglingRaw : RawCWUOpportunity :=
  {| raw_id := "opp-1"; raw_createdAt := 10; raw_createdBy := Some "gov-1";
     raw_versionId := "ver-2"; raw_updatedAt := 20; raw_updatedBy := Some "gov-2";
     raw_content := sampleContent "Fix the parser, again" 120;
     raw_status := Some "PUBLISHED";
     raw_attachments := ["file-2"];
     raw_addenda := ["add-1"; "add-gone"];
     raw_publishedAt := Some 15; raw_successfulProponent := None;
     raw_subscribed := None; raw_history := None; raw_reporting := None |}.

(** Proposal ids are distinct, no proposal status row is stored twice, and
    no two status-typed rows of one proposal carry the same createdAt. *)
Definition uniqueProposalRows (d : DB) : Prop :=
  NoDup (prop_id <$> cwuProposals d)
  ∧ NoDup (cwuProposalStatuses d)
  ∧ (∀ s1 s2, s1 ∈ cwuProposalStatuses d → s2 ∈ cwuProposalStatuses d →
              pstat_proposal s1 = pstat_proposal s2 →
              is_Some (pstat_status s1) → is_Some (pstat_status s2) →
              pstat_createdAt s1 = pstat_createdAt s2 → s1 = s2).

(** One published opportunity past its deadline at time 200 whose two
    versions carry the same createdAt, with one proposal submitted at
    time 200. *)
Definition tiedDB : DB :=
  {| cwuOpportunities := [sampleRoot "opp-1"];
     cwuOpportunityVersions :=
       [sampleVersion "ver-1" "opp-1" 20 100; sampleVersion "ver-2" "opp-1" 20 150];
     cwuOpportunityStatuses := [sampleStatus "st-1" "opp-1" 10 "PUBLISHED"];
     cwuOpportunityAttachments := []; cwuOpportunityAddenda := [];
     cwuOpportunitySubscribers := []; viewCounters := [];
     cwuProposals := [{| prop_id := "prop-1"; prop_opportunity := "opp-1" |}];
     cwuProposalStatuses :=
       [{| pstat_id := "ps-1"; pstat_createdAt := 200; pstat_proposal := "prop-1";
           pstat_status := Some "SUBMITTED"; pstat_note := EmptyString |}] |}.

(** ** The phase form of a Sprint-With-Us opportunity

    [front-end/typescript/lib/pages/opportunity/sprint-with-us/lib/components/phase]:
    the state of the form for one phase, its messages and what it reports.
    The form fields, the framework and the capability list are imported by
    the component; they are the members of [FrontEnd].  A message's index
    is a JavaScript number, here an integer. *)

Module Phase.

(** [shared/lib/validation]: here the invalid case carries the messages the
    form shows. *)
Inductive Validation (A : Type) :=
| valid (a : A)
| invalid (errors : list string).
Arguments valid {A} a.
Arguments invalid {A} errors.

Definition mapValid {A B} (f : A → B) (v : Validation A) : Validation B :=
  match v with valid a => valid (f a) | invalid errors => invalid errors end.

Record CreateSWUOpportunityPhaseRequiredCapabilityBody := {
  req_capability : string;
  req_fullTime : bool
}.

Record Capability := {
  capability : string;
  fullTime : bool;
  checked : bool
}.

(** The fields of a stored phase that the form reads. *)
Record SWUOpportunityPhase := {
  phase_startDate : option Date;
  phase_completionDate : option Date;
  phase_maxBudget : Z;
  phase_requiredCapabilities : list CreateSWUOpportunityPhaseRequiredCapabilityBody
}.

Definition DateField_Value := option (Z * Z * Z).
Definition NumberField_Value := option Z.

(** [FormField]: the operations every form field offers. *)
Class FormField (S V : Type) := {
  getValue : S → V;
  setValidate : S → (V → Validation V) → bool → S;
  setFieldErrors : S → list string → S;
  fieldIsValid : S → bool
}.

Class FrontEnd := {
  CAPABILITIES : list string;
  DateField_State : Type;
  DateField_Msg : Type;
  NumberField_State : Type;
  NumberField_Msg : Type;
  (** the asynchronous part of an update's return value *)
  AsyncUpdate : Type → Type → Type;
  DateField_FormField :: FormField DateField_State DateField_Value;
  NumberField_FormField :: FormField NumberField_State NumberField_Value;
  (** [init({ errors, validate, child: { value, id } })] *)
  DateField_init : list string → (DateField_Value → Validation DateField_Value) →
                   DateField_Value → string → DateField_State;
  (** [init({ errors, validate, child: { value, id, min } })] *)
  NumberField_init : list string → (NumberField_Value → Validation NumberField_Value) →
                     NumberField_Value → string → Z → NumberField_State;
  DateField_update : DateField_State → DateField_Msg →
                     DateField_State * option (AsyncUpdate DateField_State DateField_Msg);
  NumberField_update : NumberField_State → NumberField_Msg →
                       NumberField_State * option (AsyncUpdate NumberField_State NumberField_Msg);
  DateField_validateDate : (string → Validation Date) →
                           DateField_Value → Validation DateField_Value;
  DateField_getDate : DateField_State → option Date;
  DateField_getValueAsString : DateField_State → string;
  DateField_dateToValue : Date → DateField_Value;
  validateSWUOpportunityPhaseMaxBudget : Z → option Z → Validation Z;
  (** [updateComponentChild({ state, childStatePath, childUpdate, childMsg,
      mapChildMsg, updateAfter })], the path given by its getter and setter *)
  updateComponentChild : ∀ PS PM CS CM : Type,
    PS → (PS → CS) → (CS → PS → PS) →
    (CS → CM → CS * option (AsyncUpdate CS CM)) → CM → (CM → PM) →
    option (PS → PS * option (AsyncUpdate PS PM)) →
    PS * option (AsyncUpdate PS PM)
}.
Arguments updateComponentChild {_ PS PM CS CM}.

Section Component.
Context `{FrontEnd}.

Record Params := {
  params_phase : option SWUOpportunityPhase;
  params_totalMaxBudget : option Z;
  params_isAccordianOpen : bool;
  params_validateStartDate : string → Validation Date;
  params_validateCompletionDate : string → option Date → Validation Date
}.

Record State := {
  isAccordianOpen : bool;
  validateCompletionDate : string → option Date → Validation Date;
  startDate : DateField_State;
  completionDate : DateField_State;
  maxBudget : NumberField_State;
  capabilities : list Capability
}.

Inductive Msg :=
| toggleAccordion
| toggleCapabilityChecked (index : Z)
| toggleCapabilityIsFullTime (index : Z)
| startDateMsg (value : DateField_Msg)
| completionDateMsg (value : DateField_Msg)
| maxBudgetMsg (value : NumberField_Msg).

(** [state.update(field, f)] and [state.set(field, v)] of the immutable
    state, one per field that the component updates. *)
Definition update_isAccordianOpen (f : bool → bool) (state : State) : State :=
  {| isAccordianOpen := f (isAccordianOpen state);
     validateCompletionDate := validateCompletionDate state;
     startDate := startDate state;
     completionDate := completionDate state;
     maxBudget := maxBudget state;
     capabilities := capabilities state |}.

Definition update_startDate (f : DateField_State → DateField_State)
    (state : State) : State :=
  {| isAccordianOpen := isAccordianOpen state;
     validateCompletionDate := validateCompletionDate state;
     startDate := f (startDate state);
     completionDate := completionDate state;
     maxBudget := maxBudget state;
     capabilities := capabilities state |}.

Definition update_completionDate (f : DateField_State → DateField_State)
    (state : State) : State :=
  {| isAccordianOpen := isAccordianOpen state;
     validateCompletionDate := validateCompletionDate state;
     startDate := startDate state;
     completionDate := f (completionDate state);
     maxBudget := maxBudget state;
     capabilities := capabilities state |}.

Definition update_maxBudget (f : NumberField_State → NumberField_State)
    (state : State) : State :=
  {| isAccordianOpen := isAccordianOpen state;
     validateCompletionDate := validateCompletionDate state;
     startDate := startDate state;
     completionDate := completionDate state;
     maxBudget := f (maxBudget state);
     capabilities := capabilities state |}.

Definition update_capabilities (f : list Capability → list Capability)
    (state : State) : State :=
  {| isAccordianOpen := isAccordianOpen state;
     validateCompletionDate := validateCompletionDate state;
     startDate := startDate state;
     completionDate := completionDate state;
     maxBudget := maxBudget state;
     capabilities := f (capabilities state) |}.

(** [!!value] of a date value and [value !== null] of a number value. *)
Definition notNull {A} (v : option A) : bool :=
  match v with Some _ => true | None => false end.

Definition setValidateStartDate (state : State)
    (validate : string → Validation Date) : State :=
  update_startDate (λ s,
    setValidate s (DateField_validateDate validate) (notNull (getValue s))) state.

Definition resetCompletionDate (state : State) : State :=
  update_completionDate (λ s,
    setValidate s
      (DateField_validateDate (λ raw,
         validateCompletionDate state raw (DateField_getDate (startDate state))))
      (notNull (getValue s))) state.

Definition validateMaxBudget (totalMaxBudget : option Z)
    (v : NumberField_Value) : Validation NumberField_Value :=
  match v with
  | None => invalid ["Please enter a valid Maximum Phase Budget."]
  | Some v => mapValid Some (validateSWUOpportunityPhaseMaxBudget v totalMaxBudget)
  end.

Definition updateTotalMaxBudget (state : State) (totalMaxBudget : option Z) : State :=
  update_maxBudget (λ s,
    setValidate s (validateMaxBudget totalMaxBudget) (notNull (getValue s))) state.

Definition setIsAccordianOpen (state : State) (open : bool) : State :=
  update_isAccordianOpen (λ _, open) state.

(** [init]; [random] is [String(Math.random())]. *)
Definition init (random : string) (params : Params) : State :=
  let idNamespace := random in
  let phase := params_phase params in
  let existingCapabilities := default [] (phase_requiredCapabilities <$> phase) in
  {| isAccordianOpen := params_isAccordianOpen params;
     validateCompletionDate := params_validateCompletionDate params;
     capabilities :=
       (λ capability,
          let found := find (λ e, bool_decide (req_capability e = capability))
                            existingCapabilities in
          {| capability := capability;
             fullTime := from_option req_fullTime false found || true;
             checked := notNull found |}) <$> CAPABILITIES;
     startDate :=
       DateField_init []
         (DateField_validateDate (params_validateStartDate params))
         (d ← phase ≫= phase_startDate; DateField_dateToValue d)
         (String.append "swu-opportunity-phase-"
            (String.append idNamespace "-start-date"));
     completionDate :=
       DateField_init []
         (DateField_validateDate (λ raw,
            params_validateCompletionDate params raw (phase ≫= phase_startDate)))
         (d ← phase ≫= phase_completionDate; DateField_dateToValue d)
         (String.append "swu-opportunity-phase-"
            (String.append idNamespace "-completion-date"));
     maxBudget :=
       NumberField_init []
         (validateMaxBudget (params_totalMaxBudget params))
         (phase_maxBudget <$> phase)
         (String.append "swu-opportunity-phase-"
            (String.append idNamespace "-max-budget"))
         1 |}.

Definition UpdateReturnValue : Type := State * option (AsyncUpdate State Msg).

Definition update (state : State) (msg : Msg) : UpdateReturnValue :=
  match msg with
  | toggleAccordion =>
      (update_isAccordianOpen negb state, None)
  | toggleCapabilityChecked value =>
      (update_capabilities (imap (λ i c,
         if bool_decide (Z.of_nat i = value)
         then {| capability := capability c;
                 fullTime := fullTime c;
                 checked := negb (checked c) |}
         else c)) state, None)
  | toggleCapabilityIsFullTime value =>
      (update_capabilities (imap (λ i c,
         if bool_decide (Z.of_nat i = value)
         then {| capability := capability c;
                 fullTime := negb (fullTime c);
                 checked := checked c |}
         else c)) state, None)
  | startDateMsg value =>
      updateComponentChild state startDate (λ c, update_startDate (λ _, c))
        DateField_update value startDateMsg
        (Some (λ state, (resetCompletionDate state, None)))
  | completionDateMsg value =>
      updateComponentChild state completionDate (λ c, update_completionDate (λ _, c))
        DateField_update value completionDateMsg None
  | maxBudgetMsg value =>
      updateComponentChild state maxBudget (λ c, update_maxBudget (λ _, c))
        NumberField_update value maxBudgetMsg None
  end.

Record Values := {
  values_startDate : string;
  values_completionDate : string;
  values_maxBudget : Z;
  values_requiredCapabilities : list CreateSWUOpportunityPhaseRequiredCapabilityBody
}.

Definition getValues (state : State) : option Values :=
  match getValue (maxBudget state) with
  | None => None
  | Some maxBudget =>
      Some {| values_startDate := DateField_getValueAsString (startDate state);
              values_completionDate := DateField_getValueAsString (completionDate state);
              values_maxBudget := maxBudget;
              values_requiredCapabilities :=
                (λ c, {| req_capability := capability c;
                         req_fullTime := fullTime c |}) <$> capabilities state |}
  end.

Record Errors := {
  errors_startDate : option (list string);
  errors_completionDate : option (list string);
  errors_maxBudget : option (list string)
}.

Definition setErrors (state : State) (errors : option Errors) : State :=
  update_maxBudget
    (λ s, setFieldErrors s (default [] (errors ≫= errors_maxBudget)))
    (update_completionDate
       (λ s, setFieldErrors s (default [] (errors ≫= errors_completionDate)))
       (update_startDate
          (λ s, setFieldErrors s (default [] (errors ≫= errors_startDate)))
          state)).

Fixpoint capabilitiesAreValid (capabilities : list Capability) : bool :=
  match capabilities with
  | [] => false
  | c :: rest => if checked c then true else capabilitiesAreValid rest
  end.

Definition isValid (state : State) : bool :=
  fieldIsValid (startDate state)
  && fieldIsValid (completionDate state)
  && fieldIsValid (maxBudget state)
  && capabilitiesAreValid (capabilities state).

End Component.

(** A small form library to run the component on: a field holds its value,
    its errors and its validation. *)
Record SampleField (V : Type) := {
  sample_value : V;
  sample_errors : list string;
  sample_validate : V → Validation V
}.
Arguments sample_value {V} _.
Arguments sample_errors {V} _.
Arguments sample_validate {V} _.

#[global] Instance SampleField_FormField V : FormField (SampleField V) V := {|
  getValue s := sample_value s;
  setValidate s validate run :=
    {| sample_value := sample_value s;
       sample_errors := if run
                        then match validate (sample_value s) with
                             | valid _ => []
                             | invalid errors => errors
                             end
                        else sample_errors s;
       sample_validate := validate |};
  setFieldErrors s errors :=
    {| sample_value := sample_value s;
       sample_errors := errors;
       sample_validate := sample_validate s |};
  fieldIsValid s :=
    match sample_validate s (sample_value s) with
    | valid _ => true
    | invalid _ => false
    end
|}.

Definition sampleFrontEnd : FrontEnd := {|
  CAPABILITIES := ["Agile Coaching"; "Backend Development"; "User Research"];
  DateField_State := SampleField DateField_Value;
  DateField_Msg := DateField_Value;
  NumberField_State := SampleField NumberField_Value;
  NumberField_Msg := NumberField_Value;
  AsyncUpdate := λ _ _, unit;
  DateField_FormField := SampleField_FormField DateField_Value;
  NumberField_FormField := SampleField_FormField NumberField_Value;
  DateField_init errors validate value _ :=
    {| sample_value := value; sample_errors := errors; sample_validate := validate |};
  NumberField_init errors validate value _ _ :=
    {| sample_value := value; sample_errors := errors; sample_validate := validate |};
  DateField_update s value :=
    ({| sample_value := value;
        sample_errors := sample_errors s;
        sample_validate := sample_validate s |}, None);
  NumberField_update s value :=
    ({| sample_value := value;
        sample_errors := sample_errors s;
        sample_validate := sample_validate s |}, None);
  DateField_validateDate validate value :=
    match value with
    | Some (y, m, d) => mapValid (λ _, value) (validate (pretty y))
    | None => valid None
    end;
  DateField_getDate s := (λ '(y, m, d), y * 372 + m * 31 + d) <$> sample_value s;
  DateField_getValueAsString s :=
    match sample_value s with
    | Some (y, m, d) => pretty y
    | None => EmptyString
    end;
  DateField_dateToValue date :=
    Some (date `div` 372, (date `mod` 372) `div` 31, date `mod` 31);
  validateSWUOpportunityPhaseMaxBudget v total :=
    if bool_decide (0 < v) && from_option (λ t, bool_decide (v ≤ t)) true total
    then valid v
    else invalid ["Please enter a valid Maximum Phase Budget."];
  updateComponentChild PS PM CS CM state get set childUpdate childMsg _ updateAfter :=
    let state := set (childUpdate (get state) childMsg).1 state in
    match updateAfter with
    | Some after => ((after state).1, None)
    | None => (state, None)
    end
|}.

(** A stored phase that requires one capability, part-time. *)
Definition samplePhase : SWUOpportunityPhase :=
  {| phase_startDate := Some 752000;
     phase_completionDate := Some 752100;
     phase_maxBudget := 20000;
     phase_requiredCapabilities :=
       [{| req_capability := "User Research"; req_fullTime := false |}] |}.

Definition sampleParams (phase : option SWUOpportunityPhase) : Params :=
  {| params_phase := phase;
     params_totalMaxBudget := Some 50000;
     params_isAccordianOpen := true;
     params_validateStartDate := λ _, valid 752000;
     params_validateCompletionDate := λ _ _, valid 752100 |}.

(** The form as it starts for [phase]. *)
Definition sampleForm (phase : option SWUOpportunityPhase) : @State sampleFrontEnd :=
  init "0.42" (sampleParams phase).

End Phase.

(** ** Lemmas on the queries *)

Lemma maxCreatedAt_Some ds m :
  maxCreatedAt ds = Some m ↔ m ∈ ds ∧ ∀ d, d ∈ ds → d ≤ m.
Proof.
  revert m. induction ds as [|d ds IH]; intros m; simpl.
  - split; [done|]. intros [Hm _]. by apply elem_of_nil in Hm.
  - destruct (maxCreatedAt ds) as [m'|] eqn:E.
    + destruct (IH m') as [[Hin Hle] _]; [done|].
      split.
      * intros [= <-]. split.
        -- destruct (Z.max_spec d m') as [[_ ->]|[_ ->]];
             [by apply elem_of_cons; right | by apply elem_of_cons; left].
        -- intros x [->|Hx]%elem_of_cons; [lia|]. specialize (Hle x Hx). lia.
      * intros [Hm Hall]. f_equal.
        assert (d ≤ m) by (apply Hall, elem_of_cons; by left).
        assert (m' ≤ m) by (apply Hall, elem_of_cons; by right).
        apply elem_of_cons in Hm as [->|Hm]; [lia|].
        specialize (Hle m Hm). lia.
    + assert (ds = []) as ->.
      { destruct ds as [|x xs]; [done|]. simpl in E. by destruct (maxCreatedAt xs). }
      split.
      * intros [= <-]. split; [by apply elem_of_cons; left|].
        intros x [->|Hx]%elem_of_cons; [lia|]. by apply elem_of_nil in Hx.
      * intros [[->|Hm]%elem_of_cons _]; [done|]. by apply elem_of_nil in Hm.
Qed.

Lemma elem_of_joinLatest statAt d o s v :
  (o, s, v) ∈ joinLatest statAt d ↔
  o ∈ cwuOpportunities d
  ∧ (s ∈ cwuOpportunityStatuses d ∧ hist_opportunity s = root_id o
     ∧ Some (hist_createdAt s) = statAt d (root_id o))
  ∧ (v ∈ cwuOpportunityVersions d ∧ version_opportunity v = root_id o
     ∧ Some (version_createdAt v) = latestVersionAt d (root_id o)).
Proof.
  unfold joinLatest. rewrite list_elem_of_bind. split.
  - intros (o' & Hs & Ho).
    apply list_elem_of_bind in Hs as (s' & Hv & Hs).
    apply list_elem_of_bind in Hv as (v' & Heq & Hv).
    apply list_elem_of_singleton in Heq. injection Heq as -> -> ->.
    apply list_elem_of_filter in Hs as [[? ?] ?].
    apply list_elem_of_filter in Hv as [[? ?] ?]. done.
  - intros (Ho & (Hs & ? & ?) & (Hv & ? & ?)).
    exists o. split; [|done].
    apply list_elem_of_bind. exists s. split; [|by apply list_elem_of_filter].
    apply list_elem_of_bind. exists v. split; [|by apply list_elem_of_filter].
    by apply list_elem_of_singleton.
Qed.

Lemma latestVersionAt_isLatest d id v :
  v ∈ cwuOpportunityVersions d → version_opportunity v = id →
  Some (version_createdAt v) = latestVersionAt d id → isLatestVersion d id v.
Proof.
  intros Hv Hid Hmax. repeat split; [done..|].
  intros v' Hv' Hid'. symmetry in Hmax.
  apply maxCreatedAt_Some in Hmax as [_ Hle]. apply Hle.
  apply list_elem_of_fmap. exists v'. split; [done|].
  by apply list_elem_of_filter.
Qed.

Lemma latestStatusTypedAt_isLatest d id s status :
  s ∈ cwuOpportunityStatuses d → hist_opportunity s = id →
  hist_status s = Some status →
  Some (hist_createdAt s) = latestStatusTypedAt d id → isLatestStatus d id s status.
Proof.
  intros Hs Hid Hst Hmax. repeat split; [done..|].
  intros s' Hs' Hid' Hsome. symmetry in Hmax.
  apply maxCreatedAt_Some in Hmax as [_ Hle]. apply Hle.
  apply list_elem_of_fmap. exists s'. split; [done|].
  by apply list_elem_of_filter.
Qed.

Lemma latestHistoryAt_isLatest d id s status :
  s ∈ cwuOpportunityStatuses d → hist_opportunity s = id →
  hist_status s = Some status →
  Some (hist_createdAt s) = latestHistoryAt d id → isLatestStatus d id s status.
Proof.
  intros Hs Hid Hst Hmax. repeat split; [done..|].
  intros s' Hs' Hid' _. symmetry in Hmax.
  apply maxCreatedAt_Some in Hmax as [_ Hle]. apply Hle.
  apply list_elem_of_fmap. exists s'. split; [done|].
  by apply list_elem_of_filter.
Qed.

Lemma whereIn_true col values :
  whereIn col values = true → ∃ s, col = Some s ∧ s ∈ values.
Proof.
  destruct col as [s|]; simpl; [|done].
  intros Hin%bool_decide_eq_true. eauto.
Qed.

Lemma promiseAll_Ok {A B} (f : A → Result B) xs ys :
  promiseAll f xs = Ok ys → ∀ x, x ∈ xs → ∃ y, f x = Ok y.
Proof.
  revert ys. induction xs as [|x xs IH]; intros ys Hall z Hz.
  - by apply elem_of_nil in Hz.
  - simpl in Hall. destruct (f x) as [y|] eqn:Ex; [|done]. simpl in Hall.
    destruct (promiseAll f xs) as [ys'|] eqn:Exs; [|done].
    apply elem_of_cons in Hz as [->|Hz]; [eauto|]. by eapply IH.
Qed.

Lemma promiseAll_Ok_elem {A B} (f : A → Result B) xs ys x :
  promiseAll f xs = Ok ys → x ∈ xs → ∃ y, f x = Ok y ∧ y ∈ ys.
Proof.
  revert ys. induction xs as [|a xs IH]; intros ys Hall Hx.
  - by apply elem_of_nil in Hx.
  - simpl in Hall. destruct (f a) as [b|] eqn:Ha; [|done]. simpl in Hall.
    destruct (promiseAll f xs) as [ys'|] eqn:Hxs; [|done].
    simpl in Hall. injection Hall as <-.
    apply elem_of_cons in Hx as [->|Hx].
    + exists b. split; [done|apply list_elem_of_here].
    + destruct (IH ys' eq_refl Hx) as (y & Hy & Hin).
      exists y. split; [done|by apply list_elem_of_further].
Qed.

Section ReadLemmas.
Context `{Imports}.

Lemma readOneFirst_Some d id session root stat version :
  readOneFirst d id session = Some (root, stat, version) →
  (root, stat, version) ∈ joinLatest latestStatusTypedAt d
  ∧ root_id root = id
  ∧ readOneVisible session (root, stat, version) = true.
Proof.
  unfold readOneFirst, readOneRows. intros Hhead%head_Some_elem_of.
  apply list_elem_of_filter in Hhead as [Hvis Hrow].
  apply list_elem_of_filter in Hrow as [Hid Hjoin]. simpl in Hid.
  split_and!; [done..|]. by apply Is_true_true.
Qed.

Lemma readOneVisible_status session root stat version :
  readOneVisible session (root, stat, version) = true →
  ∃ status, hist_status stat = Some status.
Proof.
  unfold readOneVisible.
  repeat match goal with |- context [if ?b then _ else _] => destruct b end;
    rewrite ?orb_true_iff, ?andb_true_iff;
    intros Hw; destruct_or?; destruct_and?;
    match goal with
    | Hw : whereIn _ _ = true |- _ => apply whereIn_true in Hw as (s & ? & ?); eauto
    end.
Qed.

Lemma processForRole_raw sel session :
  let result := processForRole sel session in
  raw_id result = raw_id sel ∧ raw_createdAt result = raw_createdAt sel
  ∧ raw_versionId result = raw_versionId sel
  ∧ raw_updatedAt result = raw_updatedAt sel
  ∧ raw_content result = raw_content sel ∧ raw_status result = raw_status sel
  ∧ raw_createdBy result
    = (if hidesAuthors session (raw_createdBy sel) (raw_updatedBy sel)
       then None else raw_createdBy sel)
  ∧ raw_updatedBy result
    = (if hidesAuthors session (raw_createdBy sel) (raw_updatedBy sel)
       then None else raw_updatedBy sel).
Proof.
  unfold processForRole. simpl.
  by destruct (hidesAuthors session (raw_createdBy sel) (raw_updatedBy sel)).
Qed.

(** What [readOneDecorate] keeps of the selected row, and the ids it
    links. *)
Lemma readOneDecorate_Ok d id session sel result :
  readOneDecorate d id session sel = Ok result →
  raw_id result = raw_id sel ∧ raw_createdAt result = raw_createdAt sel
  ∧ raw_updatedAt result = raw_updatedAt sel
  ∧ raw_content result = raw_content sel ∧ raw_status result = raw_status sel
  ∧ raw_createdBy result
    = (if hidesAuthors session (raw_createdBy sel) (raw_updatedBy sel)
       then None else raw_createdBy sel)
  ∧ raw_updatedBy result
    = (if hidesAuthors session (raw_createdBy sel) (raw_updatedBy sel)
       then None else raw_updatedBy sel)
  ∧ raw_attachments result
    = (att_file <$> filter (λ a, att_opportunityVersion a = raw_versionId sel)
                           (cwuOpportunityAttachments d))
  ∧ raw_addenda result
    = (add_id <$> filter (λ a, add_opportunity a = id) (cwuOpportunityAddenda d)).
Proof.
  unfold readOneDecorate.
  destruct (processForRole_raw sel session) as (E1 & E2 & E3 & E4 & E5 & E6 & E7 & E8).
  simpl in *.
  match goal with
  | |- context [mbind _ ?m] => destruct m as [[history reporting]|msg]
  end; simpl; [|done].
  intros [= <-]. simpl. rewrite E3. done.
Qed.

Lemma rawCWUOpportunityToCWUOpportunity_Ok d raw opp :
  rawCWUOpportunityToCWUOpportunity d raw = Ok opp →
  opp_id opp = raw_id raw ∧ opp_createdAt opp = raw_createdAt raw
  ∧ opp_createdBy opp = userOf (raw_createdBy raw)
  ∧ opp_updatedAt opp = raw_updatedAt raw
  ∧ opp_updatedBy opp = userOf (raw_updatedBy raw)
  ∧ opp_content opp = raw_content raw ∧ opp_status opp = raw_status raw.
Proof.
  unfold rawCWUOpportunityToCWUOpportunity.
  destruct (promiseAll _ (raw_attachments raw)) as [attachments|]; [|done]. simpl.
  destruct (promiseAll _ (raw_addenda raw)) as [addenda|]; [|done]. simpl.
  by intros [= <-].
Qed.

(** A successful read returns the first row of the query, column by
    column; the two author columns pass through [processForRole]. *)
Lemma readOneCWUOpportunity_Some d id session opp :
  readOneCWUOpportunity d id session = valid (Some opp) →
  ∃ root stat version,
    readOneFirst d id session = Some (root, stat, version)
    ∧ opp_id opp = root_id root ∧ opp_createdAt opp = root_createdAt root
    ∧ opp_updatedAt opp = version_createdAt version
    ∧ opp_content opp = version_content version
    ∧ opp_status opp = hist_status stat
    ∧ opp_createdBy opp
      = (if hidesAuthors session (Some (root_createdBy root))
                                 (Some (version_createdBy version))
         then None else userOf (Some (root_createdBy root)))
    ∧ opp_updatedBy opp
      = (if hidesAuthors session (Some (root_createdBy root))
                                 (Some (version_createdBy version))
         then None else userOf (Some (version_createdBy version))).
Proof.
  unfold readOneCWUOpportunity.
  destruct (readOneFirst d id session) as [[[root stat] version]|] eqn:Hfirst;
    simpl; [|done].
  destruct (readOneDecorate _ _ _ _) as [result|] eqn:Hdec; simpl; [|done].
  destruct (rawCWUOpportunityToCWUOpportunity d result) as [opp'|] eqn:Hconv;
    simpl; [|done].
  intros [= ->].
  apply readOneDecorate_Ok in Hdec as (D1 & D2 & D3 & D4 & D5 & D6 & D7 & _).
  apply rawCWUOpportunityToCWUOpportunity_Ok in Hconv
    as (C1 & C2 & C3 & C4 & C5 & C6 & C7).
  simpl in *. exists root, stat, version.
  rewrite C1, C2, C3, C4, C5, C6, C7, D1, D2, D3, D4, D5, D6, D7.
  split_and!; try done;
    by destruct (hidesAuthors _ _ _).
Qed.
End ReadLemmas.

(** ** The read path *)

(** The guard of [processForRole] on the joined row, in the words of the
    specification. *)
Lemma hidesAuthors_iff session root stat version :
  hidesAuthors session (Some (root_createdBy root)) (Some (version_createdBy version))
  = true ↔ notAuthorNorAdmin session (root, stat, version).
Proof.
  unfold notAuthorNorAdmin, hidesAuthors.
  destruct (session_user session) as [u|]; simpl; [|done].
  rewrite !andb_true_iff, !negb_true_iff, !bool_decide_eq_false.
  split; intros; destruct_and?; split_and!; congruence.
Qed.

(** The author that a conversion attaches: the record that
    [readOneUserSlim] resolves for a non-empty id. *)
Lemma userOf_Some `{Imports} (i : Id) author :
  userOf (Some i) = Some author ↔
  i ≠ EmptyString ∧ readOneUserSlim i = valid (Some author).
Proof.
  unfold userOf. destruct i as [|c i]; simpl.
  - split; [done|]. by intros [? _].
  - destruct (readOneUserSlim (String c i)) as [[u|]|]; simpl;
      split; try done; try (by intros [_ ?]).
    + intros [= ->]. done.
    + intros [_ [= ->]]. done.
Qed.

(** C1: an opportunity returned by [readOneCWUOpportunity] is the join of
    the root row of that id (id, createdAt, createdBy), a version row of
    maximum createdAt among the opportunity's versions (content,
    updatedAt, updatedBy) and the status of a status-typed history row of
    maximum createdAt among the opportunity's status-typed rows.  The
    two authors are the records that [readOneUserSlim] resolves for the
    root's and the version's createdBy, for the sessions that keep them:
    an admin and either of the two authors. *)
Theorem readOneCWUOpportunity_joins_latest `{Imports} d id session opp :
  readOneCWUOpportunity d id session = valid (Some opp) →
  ∃ root version stat status,
    root ∈ cwuOpportunities d ∧ root_id root = id
    ∧ isLatestVersion d id version
    ∧ isLatestStatus d id stat status
    ∧ opp_id opp = root_id root
    ∧ opp_createdAt opp = root_createdAt root
    ∧ (∀ author, opp_createdBy opp = Some author ↔
         ¬ notAuthorNorAdmin session (root, stat, version)
         ∧ root_createdBy root ≠ EmptyString
         ∧ readOneUserSlim (root_createdBy root) = valid (Some author))
    ∧ opp_content opp = version_content version
    ∧ opp_updatedAt opp = version_createdAt version
    ∧ (∀ author, opp_updatedBy opp = Some author ↔
         ¬ notAuthorNorAdmin session (root, stat, version)
         ∧ version_createdBy version ≠ EmptyString
         ∧ readOneUserSlim (version_createdBy version) = valid (Some author))
    ∧ opp_status opp = Some status.
Proof.
  intros (root & stat & version & Hfirst & E1 & E2 & E3 & E4 & E5 & E6 & E7)
    %readOneCWUOpportunity_Some.
  apply readOneFirst_Some in Hfirst as (Hjoin & Hid & Hvis).
  apply elem_of_joinLatest in Hjoin as (Hroot & (Hs & Hsid & Hsmax) & (Hv & Hvid & Hvmax)).
  destruct (readOneVisible_status _ _ _ _ Hvis) as [status Hstatus].
  rewrite Hid in *.
  exists root, version, stat, status. split_and!; try done; try congruence.
  - by apply latestVersionAt_isLatest.
  - by apply latestStatusTypedAt_isLatest.
  - intros author. rewrite E6.
    pose proof (hidesAuthors_iff session root stat version) as Hguard.
    destruct (hidesAuthors _ _ _).
    + split; [done|]. intros [Hn _]. destruct Hn. by apply Hguard.
    + rewrite userOf_Some. split; [|tauto].
      intros [? ?]. split_and!; [|done..]. intros Hn%Hguard. done.
  - intros author. rewrite E7.
    pose proof (hidesAuthors_iff session root stat version) as Hguard.
    destruct (hidesAuthors _ _ _).
    + split; [done|]. intros [Hn _]. destruct Hn. by apply Hguard.
    + rewrite userOf_Some. split; [|tauto].
      intros [? ?]. split_and!; [|done..]. intros Hn%Hguard. done.
Qed.

Lemma readOneCWUOpportunity_joins_latest_witness :
  ∃ root version stat status,
    root ∈ cwuOpportunities revisedDB ∧ root_id root = "opp-1"
    ∧ isLatestVersion revisedDB "opp-1" version
    ∧ isLatestStatus revisedDB "opp-1" stat status
    ∧ opp_id revisedForAdmin = root_id root
    ∧ opp_createdAt revisedForAdmin = root_createdAt root
    ∧ (∀ author, opp_createdBy revisedForAdmin = Some author ↔
         ¬ notAuthorNorAdmin (asUser "adm-1" Admin) (root, stat, version)
         ∧ root_createdBy root ≠ EmptyString
         ∧ readOneUserSlim (Imports := sampleImports) (root_createdBy root)
           = valid (Some author))
    ∧ opp_content revisedForAdmin = version_content version
    ∧ opp_updatedAt revisedForAdmin = version_createdAt version
    ∧ (∀ author, opp_updatedBy revisedForAdmin = Some author ↔
         ¬ notAuthorNorAdmin (asUser "adm-1" Admin) (root, stat, version)
         ∧ version_createdBy version ≠ EmptyString
         ∧ readOneUserSlim (Imports := sampleImports) (version_createdBy version)
           = valid (Some author))
    ∧ opp_status revisedForAdmin = Some status.
Proof.
  apply (readOneCWUOpportunity_joins_latest (H := sampleImports)
           revisedDB "opp-1" (asUser "adm-1" Admin) revisedForAdmin).
  vm_compute. reflexivity.
Defined.

Section Visibility.
Context `{Imports}.

(** Case analysis on the role, as the [if] chains of the two reads. *)
Ltac by_role session :=
  unfold visibleTo, sessionUserIs, sessionUserId;
  destruct session as [[u|]]; simpl;
  [destruct (user_type u); simpl|].

Ltac read_filters :=
  rewrite ?orb_true_iff, ?andb_true_iff, ?bool_decide_eq_true;
  intros Hw; destruct_or?; destruct_and?;
  repeat match goal with
    | Hw : whereIn _ _ = true |- _ => apply whereIn_true in Hw as (? & ? & ?)
    end; simplify_eq.

Lemma readOneVisible_visibleTo d session root stat version status :
  isLatestStatus d (root_id root) stat status →
  readOneVisible session (root, stat, version) = true →
  visibleTo d session root.
Proof.
  intros Hlatest. pose proof Hlatest as (_ & _ & Hst & _).
  unfold readOneVisible. by_role session; read_filters;
    try done; exists status; split; try (by exists stat); auto.
Qed.

Lemma readManyVisible_visibleTo d session root stat version :
  (∀ status, hist_status stat = Some status →
             isLatestStatus d (root_id root) stat status) →
  readManyVisible session (root, stat, version) = true →
  visibleTo d session root.
Proof.
  intros Hlatest.
  unfold readManyVisible. by_role session; read_filters; try done;
    match goal with
    | Hs : hist_status stat = Some ?s |- _ =>
        exists s; split; [exists stat; by apply Hlatest | auto]
    end.
Qed.

Lemma readOneFirst_visibleTo d id session root stat version :
  readOneFirst d id session = Some (root, stat, version) →
  root ∈ cwuOpportunities d ∧ root_id root = id ∧ visibleTo d session root.
Proof.
  intros (Hjoin & Hid & Hvis)%readOneFirst_Some.
  apply elem_of_joinLatest in Hjoin as (Hroot & (Hs & Hsid & Hsmax) & _).
  destruct (readOneVisible_status _ _ _ _ Hvis) as [status Hstatus].
  split_and!; [done..|].
  eapply readOneVisible_visibleTo; [|done].
  by apply latestStatusTypedAt_isLatest.
Qed.

Lemma readManyCWUOpportunities_elem d session slims slim :
  readManyCWUOpportunities d session = valid slims → slim ∈ slims →
  ∃ row, row ∈ readManyRows d session
         ∧ slim = rawCWUOpportunitySlimToCWUOpportunitySlim
                    (processForRole (selectRawSlim row) session).
Proof.
  unfold readManyCWUOpportunities. intros [= <-] Hin.
  apply list_elem_of_fmap in Hin as (raw & -> & Hraw).
  apply list_elem_of_fmap in Hraw as (row & -> & Hrow). eauto.
Qed.

Lemma slim_id_processForRole row session :
  slim_id (rawCWUOpportunitySlimToCWUOpportunitySlim
             (processForRole (selectRawSlim row) session)) = root_id row.1.1.
Proof.
  destruct row as [[root stat] version]. unfold processForRole. simpl.
  by destruct (hidesAuthors _ _ _).
Qed.

Lemma hidesAuthors_notAuthorNorAdmin session root stat version :
  notAuthorNorAdmin session (root, stat, version) →
  hidesAuthors session (Some (root_createdBy root))
               (Some (version_createdBy version)) = true.
Proof.
  unfold notAuthorNorAdmin, hidesAuthors.
  destruct (session_user session) as [u|]; simpl; [|done].
  intros (Hadmin & Hcreator & Hupdater).
  rewrite !andb_true_iff, !negb_true_iff, !bool_decide_eq_false.
  split_and!; [done|congruence|congruence].
Qed.
End Visibility.

(** C2: an opportunity returned by [readOneCWUOpportunity] or listed by
    [readManyCWUOpportunities] is visible to the session: its current
    status is public for anonymous users and vendors, public or private
    and own for government users; admins are not restricted. *)
Theorem reads_return_only_visible `{Imports} d session id :
  returnsOpportunity d session id →
  ∃ root, root ∈ cwuOpportunities d ∧ root_id root = id ∧ visibleTo d session root.
Proof.
  intros [[opp Hone]|(slims & slim & Hmany & Hin & Hid)].
  - apply readOneCWUOpportunity_Some in Hone
      as (root & stat & version & Hfirst & _).
    exists root. by eapply readOneFirst_visibleTo.
  - destruct (readManyCWUOpportunities_elem _ _ _ _ Hmany Hin)
      as ([[root stat] version] & Hrow & ->).
    rewrite slim_id_processForRole in Hid. simpl in Hid.
    apply list_elem_of_filter in Hrow as [Hvis Hjoin].
    apply elem_of_joinLatest in Hjoin as (Hroot & (Hs & Hsid & Hsmax) & _).
    exists root. split_and!; [done..|].
    eapply readManyVisible_visibleTo; [|by apply Is_true_true].
    intros status Hstatus. by apply latestHistoryAt_isLatest.
Qed.

Lemma reads_return_only_visible_witness :
  ∃ root, root ∈ cwuOpportunities publishedDB ∧ root_id root = "opp-1"
          ∧ visibleTo (H := sampleImports) publishedDB (asUser "ven-1" Vendor) root.
Proof.
  apply (reads_return_only_visible (H := sampleImports)
           publishedDB (asUser "ven-1" Vendor) "opp-1").
  right. eexists _, _. split; [reflexivity|].
  split; [apply list_elem_of_here | reflexivity].
Defined.

(** C9: for a session without a user, or whose user is neither an admin
    nor the creator of the root row or of the joined version row, the
    records of both reads come back without createdBy and updatedBy. *)
Theorem reads_remove_authors `{Imports} d session :
  (∀ id row opp,
     readOneFirst d id session = Some row →
     readOneCWUOpportunity d id session = valid (Some opp) →
     notAuthorNorAdmin session row →
     opp_createdBy opp = None ∧ opp_updatedBy opp = None)
  ∧ (∀ i row slims slim,
       readManyRows d session !! i = Some row →
       readManyCWUOpportunities d session = valid slims →
       slims !! i = Some slim →
       notAuthorNorAdmin session row →
       slim_createdBy slim = None ∧ slim_updatedBy slim = None).
Proof.
  split.
  - intros id [[root stat] version] opp Hfirst Hone Hnot.
    apply readOneCWUOpportunity_Some in Hone
      as (root' & stat' & version' & Hfirst' & _ & _ & _ & _ & _ & Hc & Hu).
    rewrite Hfirst in Hfirst'. injection Hfirst' as <- <- <-.
    by rewrite Hc, Hu, (hidesAuthors_notAuthorNorAdmin _ _ stat _ Hnot).
  - intros i [[root stat] version] slims slim Hrow [= <-] Hslim Hnot.
    rewrite !list_lookup_fmap, Hrow in Hslim. injection Hslim as <-.
    unfold processForRole. simpl.
    by rewrite (hidesAuthors_notAuthorNorAdmin _ _ stat _ Hnot).
Qed.

Lemma reads_remove_authors_witness :
  (opp_createdBy publishedForVendor = None ∧ opp_updatedBy publishedForVendor = None)
  ∧ ∀ slim,
      getValidValue (readManyCWUOpportunities (H := sampleImports) publishedDB anonymous) []
        !! 0%nat = Some slim →
      slim_createdBy slim = None ∧ slim_updatedBy slim = None.
Proof.
  split.
  - apply (proj1 (reads_remove_authors (H := sampleImports) publishedDB
                    (asUser "ven-1" Vendor))
             "opp-1" (sampleRoot "opp-1", sampleStatus "st-1" "opp-1" 10 "PUBLISHED",
                      sampleVersion "ver-1" "opp-1" 10 100));
      [vm_compute; reflexivity | vm_compute; reflexivity |].
    simpl. split_and!; [discriminate | discriminate | discriminate].
  - intros slim Hslim.
    apply (proj2 (reads_remove_authors (H := sampleImports) publishedDB anonymous)
             0%nat (sampleRoot "opp-1", sampleStatus "st-1" "opp-1" 10 "PUBLISHED",
                    sampleVersion "ver-1" "opp-1" 10 100)
             _ slim eq_refl eq_refl Hslim).
    exact I.
Defined.

Lemma promiseAll_Throw {A B} (f : A → Result B) xs x msg :
  x ∈ xs → f x = Throw msg → ∃ msg', promiseAll f xs = Throw msg'.
Proof.
  intros Hx Hthrow. destruct (promiseAll f xs) as [ys|msg'] eqn:Hall; [|eauto].
  destruct (promiseAll_Ok f xs ys Hall x Hx) as [y Hy]. congruence.
Qed.

Lemma readOneFirst_None `{Imports} d id session :
  opportunityMissing d id ∨ opportunityNotVisible d id session →
  readOneFirst d id session = None.
Proof.
  intros Hno.
  destruct (readOneFirst d id session) as [[[root stat] version]|] eqn:Hfirst; [|done].
  apply readOneFirst_visibleTo in Hfirst as (Hroot & Hid & Hvis).
  destruct Hno as [Hmissing|Hhidden].
  - by destruct (Hmissing root Hroot).
  - by destruct (Hhidden root Hroot Hid).
Qed.

(** C10: when the opportunity does not exist or is not visible to the
    session, [readOneCWUOpportunity] returns [valid(null)] and
    [readOneCWUOpportunitySlim] is invalid; the slim read never returns
    [valid(null)]. *)
Theorem readOne_null_where_slim_is_invalid `{Imports} d id session :
  (opportunityMissing d id ∨ opportunityNotVisible d id session →
   readOneCWUOpportunity d id session = valid None
   ∧ readOneCWUOpportunitySlim d id session = invalid)
  ∧ readOneCWUOpportunitySlim d id session ≠ valid None.
Proof.
  split.
  - intros Hfirst%readOneFirst_None.
    assert (readOneCWUOpportunity d id session = valid None) as Hone.
    { unfold readOneCWUOpportunity. by rewrite Hfirst. }
    split; [done|]. unfold readOneCWUOpportunitySlim. by rewrite Hone.
  - unfold readOneCWUOpportunitySlim.
    by destruct (readOneCWUOpportunity d id session) as [[opp|]|].
Qed.

Lemma readOne_null_where_slim_is_invalid_witness :
  readOneCWUOpportunity (H := sampleImports) publishedDB "opp-9" anonymous = valid None
  ∧ readOneCWUOpportunitySlim (H := sampleImports) publishedDB "opp-9" anonymous = invalid.
Proof.
  apply (proj1 (readOne_null_where_slim_is_invalid (H := sampleImports)
                  publishedDB "opp-9" anonymous)).
  left. intros root Hroot%list_elem_of_singleton. subst root. discriminate.
Defined.

(** C7: a link that cannot be resolved fails the read.  The conversion
    throws for every selected row that lists a file which [readOneFileById]
    does not resolve, or an addendum id that no addendum row carries; a
    read that finds a visible opportunity with an unresolved file among the
    attachments of its version is invalid; and an opportunity that a read
    does return carries the full record of every attachment of its version
    and of every addendum of the opportunity, never a part of them. *)
Theorem readOne_fails_on_missing_link `{Imports} d id session root stat version :
  (∀ raw,
     (∃ file, file ∈ raw_attachments raw
              ∧ ∀ record, readOneFileById file ≠ valid (Some record))
     ∨ (∃ addendumId, addendumId ∈ raw_addenda raw
                      ∧ ∀ a, a ∈ cwuOpportunityAddenda d → add_id a ≠ addendumId) →
     ∃ msg, rawCWUOpportunityToCWUOpportunity d raw = Throw msg)
  ∧ (readOneFirst d id session = Some (root, stat, version) →
     (∃ a, a ∈ cwuOpportunityAttachments d
           ∧ att_opportunityVersion a = version_id version
           ∧ ∀ record, readOneFileById (att_file a) ≠ valid (Some record)) →
     readOneCWUOpportunity d id session = invalid)
  ∧ (readOneFirst d id session = Some (root, stat, version) →
     ∀ opp, readOneCWUOpportunity d id session = valid (Some opp) →
       (∀ a, a ∈ cwuOpportunityAttachments d →
             att_opportunityVersion a = version_id version →
             ∃ record, readOneFileById (att_file a) = valid (Some record)
                       ∧ record ∈ opp_attachments opp)
       ∧ (∀ a, a ∈ cwuOpportunityAddenda d → add_opportunity a = id →
               ∃ addendum, addendum ∈ opp_addenda opp
                           ∧ addendum_id addendum = add_id a)).
Proof.
  assert (∀ raw file,
            file ∈ raw_attachments raw →
            (∀ record, readOneFileById file ≠ valid (Some record)) →
            ∃ msg, rawCWUOpportunityToCWUOpportunity d raw = Throw msg) as Hfiles.
  { intros raw file Hfile Hgone. unfold rawCWUOpportunityToCWUOpportunity.
    edestruct (promiseAll_Throw
      (λ id, match getValidValue (readOneFileById id) None with
             | None => Throw "unable to process opportunity"
             | Some result => Ok result
             end) (raw_attachments raw) file) as [msg ->]; [done| |by eexists].
    destruct (readOneFileById file) as [[record|]|]; simpl; [|done..].
    by destruct (Hgone record). }
  split_and!.
  - intros raw [(file & Hfile & Hgone)|(addendumId & Hid & Hgone)];
      [by eapply Hfiles|].
    unfold rawCWUOpportunityToCWUOpportunity.
    destruct (promiseAll _ (raw_attachments raw)) as [attachments|msg];
      [|by eexists].
    simpl.
    edestruct (promiseAll_Throw
      (λ id, match getValidValueOrNull (readOneCWUOpportunityAddendum d id) with
             | None => Throw "unable to retrieve addenda"
             | Some result => Ok result
             end) (raw_addenda raw) addendumId) as [msg ->]; [done| |by eexists].
    unfold readOneCWUOpportunityAddendum.
    destruct (head (filter _ (cwuOpportunityAddenda d))) as [a|] eqn:Hhead;
      simpl; [|done].
    apply head_Some_elem_of, list_elem_of_filter in Hhead as [Heq Ha].
    by destruct (Hgone a Ha).
  - intros Hfirst (a & Ha & Hversion & Hgone).
    unfold readOneCWUOpportunity. rewrite Hfirst. simpl.
    destruct (readOneDecorate _ _ _ _) as [result|] eqn:Hdec; simpl; [|done].
    apply readOneDecorate_Ok in Hdec as (_ & _ & _ & _ & _ & _ & _ & Hatt & _).
    simpl in Hatt.
    destruct (Hfiles result (att_file a)) as [msg ->]; [|done..].
    rewrite Hatt. apply list_elem_of_fmap_2. by apply list_elem_of_filter.
  - intros Hfirst opp. unfold readOneCWUOpportunity. rewrite Hfirst. simpl.
    destruct (readOneDecorate _ _ _ _) as [result|] eqn:Hdec; simpl; [|done].
    apply readOneDecorate_Ok in Hdec as (_ & _ & _ & _ & _ & _ & _ & Hatt & Hadd).
    simpl in Hatt.
    unfold rawCWUOpportunityToCWUOpportunity.
    destruct (promiseAll _ (raw_attachments result)) as [attachments|] eqn:Hfs;
      simpl; [|done].
    destruct (promiseAll _ (raw_addenda result)) as [addenda|] eqn:Has;
      simpl; [|done].
    intros [= <-]. simpl. split.
    + intros a Ha Hversion.
      destruct (promiseAll_Ok_elem _ _ _ (att_file a) Hfs) as (record & Hrecord & Hin).
      { rewrite Hatt. apply list_elem_of_fmap_2. by apply list_elem_of_filter. }
      exists record. split; [|done].
      destruct (readOneFileById (att_file a)) as [[record'|]|]; simpl in Hrecord;
        congruence.
    + intros a Ha Hopp.
      destruct (promiseAll_Ok_elem _ _ _ (add_id a) Has) as (addendum & Haddendum & Hin).
      { rewrite Hadd. apply list_elem_of_fmap_2. by apply list_elem_of_filter. }
      exists addendum. split; [done|].
      unfold readOneCWUOpportunityAddendum in Haddendum.
      destruct (head (filter _ (cwuOpportunityAddenda d))) as [row|] eqn:Hhead;
        simpl in Haddendum; [|done].
      injection Haddendum as <-. simpl.
      by apply head_Some_elem_of, list_elem_of_filter in Hhead as [Heq _].
Qed.

Lemma readOne_fails_on_missing_link_witness :
  (∃ msg, rawCWUOpportunityToCWUOpportunity (H := sampleImports) revisedDB danglingRaw
          = Throw msg)
  ∧ readOneCWUOpportunity (H := sampleImports) danglingDB "opp-1" anonymous = invalid
  ∧ (∀ a, a ∈ cwuOpportunityAddenda revisedDB → add_opportunity a = "opp-1" →
          ∃ addendum, addendum ∈ opp_addenda revisedForAdmin
                      ∧ addendum_id addendum = add_id a).
Proof.
  split_and!.
  - apply (proj1 (readOne_fails_on_missing_link (H := sampleImports) revisedDB "opp-1"
                    anonymous (sampleRoot "opp-1")
                    (sampleStatus "st-1" "opp-1" 15 "PUBLISHED")
                    (sampleVersion "ver-1" "opp-1" 10 100))).
    right. exists "add-gone". split.
    + apply list_elem_of_further, list_elem_of_here.
    + intros a Ha%list_elem_of_singleton. subst a. discriminate.
  - apply (proj1 (proj2 (readOne_fails_on_missing_link (H := sampleImports)
                           danglingDB "opp-1" anonymous (sampleRoot "opp-1")
                           (sampleStatus "st-1" "opp-1" 10 "PUBLISHED")
                           (sampleVersion "ver-1" "opp-1" 10 100)))).
    + vm_compute. reflexivity.
    + exists {| att_opportunityVersion := "ver-1"; att_file := "file-gone" |}.
      split; [apply list_elem_of_here|]. split; [reflexivity|].
      intros record. discriminate.
  - refine (proj2 (proj2 (proj2 (readOne_fails_on_missing_link (H := sampleImports)
                revisedDB "opp-1" (asUser "adm-1" Admin) (sampleRoot "opp-1")
                (sampleStatus "st-1" "opp-1" 15 "PUBLISHED")
                {| version_id := "ver-2"; version_opportunity := "opp-1";
                   version_createdAt := 20; version_createdBy := "gov-2";
                   version_content := sampleContent "Fix the parser, again" 120 |}))
              _ revisedForAdmin _)); vm_compute; reflexivity.
Defined.

(** The listing after an event: when a history row without status is
    strictly the latest of an opportunity, the listing of an anonymous
    session has no record of that opportunity, whatever its current
    status is. *)
Lemma readManyCWUOpportunities_hides_after_event `{Imports} d id event slims slim :
  event ∈ cwuOpportunityStatuses d → hist_opportunity event = id →
  hist_status event = None →
  (∀ s, s ∈ cwuOpportunityStatuses d → hist_opportunity s = id → s ≠ event →
        hist_createdAt s < hist_createdAt event) →
  readManyCWUOpportunities d anonymous = valid slims →
  slim ∈ slims → slim_id slim ≠ id.
Proof.
  intros Hevent Hid Hnull Hlater Hmany Hin Hslim.
  destruct (readManyCWUOpportunities_elem _ _ _ _ Hmany Hin)
    as ([[root stat] version] & Hrow & ->).
  rewrite slim_id_processForRole in Hslim. simpl in Hslim.
  apply list_elem_of_filter in Hrow as [Hvis Hjoin].
  apply elem_of_joinLatest in Hjoin as (_ & (Hs & Hsid & Hsmax) & _).
  rewrite Hslim in *. symmetry in Hsmax.
  apply maxCreatedAt_Some in Hsmax as [_ Hle].
  assert (hist_createdAt event ≤ hist_createdAt stat) as Hge.
  { apply Hle, list_elem_of_fmap. exists event. split; [done|].
    by apply list_elem_of_filter. }
  destruct (decide (stat = event)) as [->|Hne].
  - apply Is_true_true in Hvis. unfold readManyVisible in Hvis. simpl in Hvis.
    by rewrite Hnull in Hvis.
  - specialize (Hlater stat Hs Hsid Hne). lia.
Qed.

(** C3 (the listing misses the status-typed restriction of its sibling
    queries): once the owner has edited a published opportunity, the
    latest history row is the Edited event; anonymous users no longer get
    the opportunity listed although its current status is still public
    and [readOneCWUOpportunity] still returns it, and admins get it
    listed without a status. *)
Theorem readMany_joins_event_rows :
  currentStatus editedDB "opp-1" "PUBLISHED"
  ∧ opp_status <$> getValidValue
      (readOneCWUOpportunity (H := sampleImports) editedDB "opp-1" anonymous) None
    = Some (Some "PUBLISHED")
  ∧ readManyCWUOpportunities (H := sampleImports) editedDB anonymous = valid []
  ∧ slim_status <$> getValidValue
      (readManyCWUOpportunities (H := sampleImports) editedDB (asUser "adm-1" Admin)) []
    = [None].
Proof.
  split_and!; [|vm_compute; reflexivity..].
  exists (sampleStatus "st-1" "opp-1" 10 "PUBLISHED").
  split_and!; [vm_compute; apply list_elem_of_here|reflexivity|reflexivity|].
  intros s' Hs' _ [status Hstatus]. vm_compute in Hs'.
  apply elem_of_cons in Hs' as [->|Hs']; [simpl; lia|].
  apply list_elem_of_singleton in Hs' as ->. discriminate.
Qed.

(** ** The write path: what every write leaves in place *)

Lemma mergeDB_assoc a b c : mergeDB (mergeDB a b) c = mergeDB a (mergeDB b c).
Proof. unfold mergeDB; simpl. f_equal; apply symmetry, app_assoc. Qed.

Lemma mergeDB_empty_r a : mergeDB a emptyDB = a.
Proof. destruct a. unfold mergeDB; simpl. f_equal; apply app_nil_r. Qed.

Lemma mergeDB_empty_l a : mergeDB emptyDB a = a.
Proof. by destruct a. Qed.

Lemma appendsRows_ret {A} (a : A) : appendsRows (retM a).
Proof.
  intros w. exists emptyDB, emptyDB. simpl. by rewrite !mergeDB_empty_r.
Qed.

Lemma appendsRows_throw {A} msg : appendsRows (throwM (A := A) msg).
Proof.
  intros w. exists emptyDB, emptyDB. simpl. by rewrite !mergeDB_empty_r.
Qed.

Lemma appendsRows_bind {A B} (m : M A) (f : A → M B) :
  appendsRows m → (∀ a, appendsRows (f a)) → appendsRows (bindM m f).
Proof.
  intros Hm Hf w. unfold bindM.
  destruct (Hm w) as (dc & dp & Hdb & Hpending & Hc & Hp).
  destruct (m w) as [[a|msg] w1]; simpl in *; [|by exists dc, dp].
  destruct (Hf a w1) as (dc' & dp' & Hdb' & Hpending' & Hc' & Hp').
  exists (mergeDB dc dc'), (mergeDB dp dp').
  rewrite Hdb', Hpending', Hdb, Hpending, !mergeDB_assoc. simpl.
  by rewrite Hc, Hp, Hc', Hp'.
Qed.

Lemma appendsRows_insert {R} transacting (asDB : R → DB) row :
  cwuOpportunities (asDB row) = [] → appendsRows (insert transacting asDB row).
Proof.
  intros Hrow w. unfold insert.
  destruct (rejectsInsert w); [|destruct transacting]; simpl.
  - exists emptyDB, emptyDB. by rewrite !mergeDB_empty_r.
  - exists emptyDB, (asDB row). by rewrite mergeDB_empty_r.
  - exists (asDB row), emptyDB. by rewrite mergeDB_empty_r.
Qed.

Lemma appendsRows_forEach {A} (f : A → M unit) xs :
  (∀ x, appendsRows (f x)) → appendsRows (forEach f xs).
Proof.
  intros Hf. induction xs as [|x xs IH]; simpl.
  - apply appendsRows_ret.
  - apply appendsRows_bind; [apply Hf | by intros _].
Qed.

Lemma appendsRows_read {A} (q : World → A) : appendsRows (λ w, (Ok (q w), w)).
Proof.
  intros w. exists emptyDB, emptyDB. simpl. by rewrite !mergeDB_empty_r.
Qed.

Lemma appendsCommitted_transaction {A} (body : M A) :
  appendsRows body → appendsCommitted (transaction body).
Proof.
  intros Hbody w. unfold transaction.
  destruct (Hbody (setPending emptyDB w)) as (dc & dp & Hdb & Hpending & Hc & Hp).
  destruct (body (setPending emptyDB w)) as [[a|msg] w1]; simpl in *;
    [destruct (rejectsCommit w1); simpl|]; try by exists dc.
  exists (mergeDB dc dp).
  rewrite Hdb, Hpending, mergeDB_empty_l, mergeDB_assoc. simpl. by rewrite Hc, Hp.
Qed.

Lemma appendsCommitted_appendsRows {A} (m : M A) :
  appendsRows m → appendsCommitted m.
Proof. intros Hm w. destruct (Hm w) as (dc & dp & Hdb & _ & Hc & _). eauto. Qed.

Lemma appendsCommitted_bind {A B} (m : M A) (f : A → M B) :
  appendsCommitted m → (∀ a, appendsCommitted (f a)) → appendsCommitted (bindM m f).
Proof.
  intros Hm Hf w. unfold bindM.
  destruct (Hm w) as (dc & Hdb & Hc).
  destruct (m w) as [[a|msg] w1]; simpl in *; [|by exists dc].
  destruct (Hf a w1) as (dc' & Hdb' & Hc').
  exists (mergeDB dc dc'). rewrite Hdb', Hdb, mergeDB_assoc. simpl.
  by rewrite Hc, Hc'.
Qed.

Lemma appendsCommitted_tryDbM {A} (m : M (Validation A)) :
  appendsCommitted m → appendsCommitted (tryDbM m).
Proof.
  intros Hm w. unfold tryDbM. destruct (Hm w) as (dc & Hdb & Hc).
  exists dc. by destruct (m w) as [[v|msg] w1].
Qed.

Section WriteFrames.
Context `{Imports}.

Lemma appendsRows_generateUuid : appendsRows generateUuid.
Proof.
  intros w. exists emptyDB, emptyDB. simpl. by rewrite !mergeDB_empty_r.
Qed.

Lemma appendsRows_createCWUOpportunityAttachments oppVersionId attachments :
  appendsRows (createCWUOpportunityAttachments oppVersionId attachments).
Proof.
  apply appendsRows_forEach. intros attachment.
  apply appendsRows_bind; [by apply appendsRows_insert|].
  intros rows. destruct (head rows); [apply appendsRows_ret|apply appendsRows_throw].
Qed.

Lemma appendsCommitted_readBack id session msg :
  appendsCommitted (readBack id session msg).
Proof.
  apply appendsCommitted_appendsRows, appendsRows_bind.
  - apply (appendsRows_read (λ w, readOneCWUOpportunity (db w) id (toSession session))).
  - intros [[value|]|]; first [apply appendsRows_ret|apply appendsRows_throw].
Qed.

Lemma appendsCommitted_updateCWUOpportunityVersion now opportunity session :
  appendsCommitted (updateCWUOpportunityVersion now opportunity session).
Proof.
  apply appendsCommitted_tryDbM, appendsCommitted_bind;
    [|intros; apply appendsCommitted_readBack].
  apply appendsCommitted_transaction.
  apply appendsRows_bind; [apply appendsRows_generateUuid|]. intros versionId.
  apply appendsRows_bind; [by apply appendsRows_insert|]. intros rows.
  destruct (head rows) as [oppVersion|]; [|apply appendsRows_throw].
  apply appendsRows_bind; [apply appendsRows_createCWUOpportunityAttachments|].
  intros _.
  apply appendsRows_bind; [apply appendsRows_generateUuid|]. intros historyId.
  apply appendsRows_bind; [by apply appendsRows_insert|]. intros _.
  apply appendsRows_ret.
Qed.

Lemma appendsCommitted_updateCWUOpportunityStatus now id status note session :
  appendsCommitted (updateCWUOpportunityStatus now id status note session).
Proof.
  apply appendsCommitted_tryDbM, appendsCommitted_bind;
    [apply appendsCommitted_appendsRows, appendsRows_generateUuid|].
  intros historyId. apply appendsCommitted_bind;
    [by apply appendsCommitted_appendsRows, appendsRows_insert|].
  intros rows. destruct (head rows); [apply appendsCommitted_readBack|].
  apply appendsCommitted_appendsRows, appendsRows_throw.
Qed.

Lemma appendsCommitted_addCWUOpportunityAddendum now id addendumText session :
  appendsCommitted (addCWUOpportunityAddendum now id addendumText session).
Proof.
  apply appendsCommitted_tryDbM, appendsCommitted_bind;
    [|intros; apply appendsCommitted_readBack].
  apply appendsCommitted_transaction.
  apply appendsRows_bind; [apply appendsRows_generateUuid|]. intros addendumId.
  apply appendsRows_bind; [by apply appendsRows_insert|]. intros rows.
  destruct (head rows); [|apply appendsRows_throw].
  apply appendsRows_bind; [apply appendsRows_generateUuid|]. intros historyId.
  apply appendsRows_bind; [by apply appendsRows_insert|]. intros _.
  apply appendsRows_ret.
Qed.

Lemma appendsRows_closeOne now lapsedOpportunityId :
  appendsRows (closeOne now lapsedOpportunityId).
Proof.
  apply appendsRows_bind; [apply appendsRows_generateUuid|]. intros historyId.
  apply appendsRows_bind; [by apply appendsRows_insert|]. intros _.
  apply appendsRows_bind;
    [apply (appendsRows_read (λ w, submittedProposalIds lapsedOpportunityId (view w)))|].
  intros proposalIds. apply appendsRows_forEach. intros proposalId.
  apply appendsRows_bind; [apply appendsRows_generateUuid|]. intros statusId.
  apply appendsRows_bind; [by apply appendsRows_insert|]. intros _.
  apply appendsRows_ret.
Qed.

Lemma appendsCommitted_closeCWUOpportunities now :
  appendsCommitted (closeCWUOpportunities now).
Proof.
  apply appendsCommitted_tryDbM, appendsCommitted_bind;
    [|intros; apply appendsCommitted_appendsRows, appendsRows_ret].
  apply appendsCommitted_transaction.
  apply appendsRows_bind;
    [apply (appendsRows_read (λ w, lapsedOpportunitiesIds now (view w)))|].
  intros lapsed.
  apply appendsRows_bind; [|intros; apply appendsRows_ret].
  apply appendsRows_forEach, appendsRows_closeOne.
Qed.
End WriteFrames.

(** C5: the four writes leave the root table as it is, so every root
    record keeps its id, createdAt and createdBy. *)
Theorem writes_keep_root_records `{Imports} now w :
  (∀ opportunity session,
     cwuOpportunities (db (updateCWUOpportunityVersion now opportunity session w).2)
     = cwuOpportunities (db w))
  ∧ (∀ id status note session,
       cwuOpportunities (db (updateCWUOpportunityStatus now id status note session w).2)
       = cwuOpportunities (db w))
  ∧ (∀ id addendumText session,
       cwuOpportunities (db (addCWUOpportunityAddendum now id addendumText session w).2)
       = cwuOpportunities (db w))
  ∧ cwuOpportunities (db (closeCWUOpportunities now w).2) = cwuOpportunities (db w).
Proof.
  assert (∀ R (m : World → R * World),
            appendsCommitted m → cwuOpportunities (db (m w).2) = cwuOpportunities (db w))
    as Hframe.
  { intros R m Hm. destruct (Hm w) as (dc & -> & Hc). simpl.
    by rewrite Hc, app_nil_r. }
  split_and!; intros; apply Hframe.
  - apply appendsCommitted_updateCWUOpportunityVersion.
  - apply appendsCommitted_updateCWUOpportunityStatus.
  - apply appendsCommitted_addCWUOpportunityAddendum.
  - apply appendsCommitted_closeCWUOpportunities.
Qed.

(** ** The write path: what a write appends when nothing fails *)

Lemma rejectsInsert_quiet w : failingInserts w = [] → rejectsInsert w = false.
Proof. unfold rejectsInsert. by intros ->. Qed.

Lemma rejectsCommit_quiet w : failingCommits w = [] → rejectsCommit w = false.
Proof. unfold rejectsCommit. by intros ->. Qed.

Lemma insert_quiet {R} transacting (asDB : R → DB) row w :
  failingInserts w = [] →
  insert transacting asDB row w
  = (Ok [row],
     countInsert (if transacting
                  then setPending (mergeDB (pending w) (asDB row)) w
                  else setDb (mergeDB (db w) (asDB row)) w)).
Proof.
  intros Hq. unfold insert. rewrite (rejectsInsert_quiet w Hq).
  by destruct transacting.
Qed.

Lemma readBack_world `{Imports} id session msg w : (readBack id session msg w).2 = w.
Proof.
  unfold readBack, bindM, readCommitted.
  by destruct (readOneCWUOpportunity (db w) id (toSession session)) as [[value|]|].
Qed.

Lemma createCWUOpportunityAttachments_quiet `{Imports} oppVersionId attachments w :
  failingInserts w = [] →
  ∃ w', createCWUOpportunityAttachments oppVersionId attachments w = (Ok tt, w')
        ∧ db w' = db w
        ∧ pending w'
          = mergeDB (pending w)
              (attachmentRows
                 ((λ attachment, {| att_opportunityVersion := oppVersionId;
                                    att_file := file_id attachment |})
                    <$> attachments))
        ∧ nextUuid w' = nextUuid w ∧ commits w' = commits w
        ∧ failingInserts w' = [] ∧ failingCommits w' = failingCommits w.
Proof.
  unfold createCWUOpportunityAttachments.
  revert w. induction attachments as [|attachment attachments IH]; intros w Hq; simpl.
  - exists w. by rewrite mergeDB_empty_r.
  - unfold bindM at 1. unfold bindM at 1.
    rewrite (insert_quiet _ _ _ w Hq). simpl.
    match goal with
    | |- context [forEach ?f attachments ?w0] =>
        destruct (IH w0 Hq) as (w' & -> & Hdb & Hpending & Huuid & Hcommits & Hi & Hc)
    end.
    exists w'. simpl in *. rewrite Hpending, mergeDB_assoc. done.
Qed.

Lemma bindM_run {A B} (m : M A) (f : A → M B) w :
  bindM m f w
  = match m w with
    | (Ok a, w') => f a w'
    | (Throw msg, w') => (Throw msg, w')
    end.
Proof. reflexivity. Qed.

Lemma transaction_run {A} (body : M A) w :
  transaction body w
  = match body (setPending emptyDB w) with
    | (Ok a, w') =>
        if rejectsCommit w'
        then (Throw "commit failed", countCommit (setPending emptyDB w'))
        else (Ok a, countCommit (setPending emptyDB (setDb (mergeDB (db w') (pending w')) w')))
    | (Throw msg, w') => (Throw msg, setPending emptyDB w')
    end.
Proof. reflexivity. Qed.

Lemma generateUuid_run `{Imports} w :
  generateUuid w = (Ok (generateUuid_nth (nextUuid w)), countUuid w).
Proof. reflexivity. Qed.

Lemma tryDbM_world {A} (m : M (Validation A)) w : (tryDbM m w).2 = (m w).2.
Proof. unfold tryDbM. by destruct (m w) as [[v|msg] w']. Qed.

(** C4: every write appends.  Whatever fails, the committed tables after
    [updateCWUOpportunityVersion], [updateCWUOpportunityStatus] and
    [addCWUOpportunityAddendum] are the tables before followed by new
    rows, so no existing row is updated or deleted; and when nothing
    fails the new rows are exactly one version row, its attachment links
    and one Edited event row; one status row with the given status and
    note; one addendum row and one AddendumAdded event row. *)
Theorem writes_append_rows `{Imports} now w :
  (∀ opportunity session,
     let w' := (updateCWUOpportunityVersion now opportunity session w).2 in
     (∃ rows, db w' = mergeDB (db w) rows)
     ∧ (quiet w →
        db w' = mergeDB (db w) (editRows now opportunity session (nextUuid w))))
  ∧ (∀ id status note session,
       let w' := (updateCWUOpportunityStatus now id status note session w).2 in
       (∃ rows, db w' = mergeDB (db w) rows)
       ∧ (quiet w →
          db w' = mergeDB (db w)
                    (statusChangeRows now id status note session (nextUuid w))))
  ∧ (∀ id addendumText session,
       let w' := (addCWUOpportunityAddendum now id addendumText session w).2 in
       (∃ rows, db w' = mergeDB (db w) rows)
       ∧ (quiet w →
          db w' = mergeDB (db w)
                    (addendumAddedRows now id addendumText session (nextUuid w)))).
Proof.
  split_and!.
  - intros opportunity session w'. split.
    { destruct (appendsCommitted_updateCWUOpportunityVersion now opportunity session w)
        as (rows & Hdb & _). eauto. }
    intros [Hi Hc]. subst w'.
    unfold updateCWUOpportunityVersion. rewrite tryDbM_world.
    rewrite bindM_run, transaction_run.
    rewrite bindM_run, generateUuid_run.
    rewrite bindM_run, insert_quiet by done. simpl.
    rewrite bindM_run.
    match goal with
    | |- context [createCWUOpportunityAttachments ?v ?a ?w0] =>
        destruct (createCWUOpportunityAttachments_quiet v a w0 Hi)
          as (w1 & -> & Hdb & Hpending & Huuid & _ & Hi1 & Hc1)
    end.
    rewrite bindM_run, generateUuid_run.
    rewrite bindM_run, insert_quiet by done. simpl.
    rewrite rejectsCommit_quiet by (simpl in *; congruence).
    rewrite readBack_world. simpl in *. rewrite Hdb, Hpending, Huuid.
    unfold mergeDB, editRows. simpl. f_equal; by rewrite ?app_nil_r.
  - intros id status note session w'. split.
    { destruct (appendsCommitted_updateCWUOpportunityStatus now id status note session w)
        as (rows & Hdb & _). eauto. }
    intros [Hi Hc]. subst w'.
    unfold updateCWUOpportunityStatus. rewrite tryDbM_world.
    rewrite bindM_run, generateUuid_run.
    rewrite bindM_run, insert_quiet by done. simpl.
    by rewrite readBack_world.
  - intros id addendumText session w'. split.
    { destruct (appendsCommitted_addCWUOpportunityAddendum now id addendumText session w)
        as (rows & Hdb & _). eauto. }
    intros [Hi Hc]. subst w'.
    unfold addCWUOpportunityAddendum. rewrite tryDbM_world.
    rewrite bindM_run, transaction_run.
    rewrite bindM_run, generateUuid_run.
    rewrite bindM_run, insert_quiet by done. simpl.
    rewrite bindM_run, generateUuid_run.
    rewrite bindM_run, insert_quiet by done. simpl.
    rewrite rejectsCommit_quiet by done.
    rewrite readBack_world. simpl.
    unfold mergeDB, addendumAddedRows. simpl. f_equal; by rewrite ?app_nil_r.
Qed.

Lemma writes_append_rows_witness :
  let w := worldOf publishedDB [] [] in
  db (updateCWUOpportunityVersion (H := sampleImports) 20 sampleEdit
        (authenticated "gov-1" Government) w).2
  = mergeDB (db w)
      (editRows (H := sampleImports) 20 sampleEdit (authenticated "gov-1" Government)
                (nextUuid w)).
Proof.
  intros w.
  apply (proj2 (proj1 (writes_append_rows (H := sampleImports) 20 w)
                  sampleEdit (authenticated "gov-1" Government))).
  split; reflexivity.
Defined.

(** A rejected commit: every insert of [updateCWUOpportunityVersion] is
    accepted and the commit is not.  The write is invalid, no version and
    no attachment row is kept, and the Edited event row is. *)
Lemma updateCWUOpportunityVersion_commit_rejected `{Imports} now opportunity session w :
  failingInserts w = [] → commits w ∈ failingCommits w →
  (updateCWUOpportunityVersion now opportunity session w).1 = invalid
  ∧ db (updateCWUOpportunityVersion now opportunity session w).2
    = mergeDB (db w)
        (statusRows (cwuOpportunityStatuses
                       (editRows now opportunity session (nextUuid w)))).
Proof.
  intros Hi Hc.
  unfold updateCWUOpportunityVersion, tryDbM.
  rewrite bindM_run, transaction_run.
  rewrite bindM_run, generateUuid_run.
  rewrite bindM_run, insert_quiet by done. simpl.
  rewrite bindM_run.
  match goal with
  | |- context [createCWUOpportunityAttachments ?v ?a ?w0] =>
      destruct (createCWUOpportunityAttachments_quiet v a w0 Hi)
        as (w1 & -> & Hdb & Hpending & Huuid & Hcommits & Hi1 & Hc1)
  end.
  rewrite bindM_run, generateUuid_run.
  rewrite bindM_run, insert_quiet by done. simpl.
  assert (rejectsCommit
            (countInsert
               (setDb (mergeDB (db w1)
                         (statusRow
                            {| hist_id := generateUuid_nth (nextUuid w1);
                               hist_opportunity := upd_id opportunity;
                               hist_createdAt := now;
                               hist_createdBy := Some (user_id (auth_user session));
                               hist_status := None;
                               hist_event := Some Edited;
                               hist_note := EmptyString |}))
                  (countUuid w1))) = true) as ->.
  { unfold rejectsCommit. simpl in *. rewrite Hcommits, Hc1.
    by apply bool_decide_eq_true. }
  simpl in *. by rewrite Hdb, Huuid.
Qed.

(** C8 (the Edited insert of [updateCWUOpportunityVersion] is the one
    write of the transaction body that is not [transacting(trx)]): when
    the commit is rejected the write is reported invalid and the new
    version and attachment rows are rolled back, but the Edited event row
    stays in the history.  [addCWUOpportunityAddendum], whose event insert
    is transacting, leaves nothing behind in the same situation. *)
Theorem updateCWUOpportunityVersion_leaves_event_after_rollback :
  (updateCWUOpportunityVersion (H := sampleImports) 20 sampleEdit
     (authenticated "gov-1" Government) (worldOf publishedDB [] [0%nat])).1 = invalid
  ∧ cwuOpportunityVersions
      (db (updateCWUOpportunityVersion (H := sampleImports) 20 sampleEdit
             (authenticated "gov-1" Government) (worldOf publishedDB [] [0%nat])).2)
    = cwuOpportunityVersions publishedDB
  ∧ cwuOpportunityAttachments
      (db (updateCWUOpportunityVersion (H := sampleImports) 20 sampleEdit
             (authenticated "gov-1" Government) (worldOf publishedDB [] [0%nat])).2)
    = cwuOpportunityAttachments publishedDB
  ∧ cwuOpportunityStatuses
      (db (updateCWUOpportunityVersion (H := sampleImports) 20 sampleEdit
             (authenticated "gov-1" Government) (worldOf publishedDB [] [0%nat])).2)
    = (cwuOpportunityStatuses publishedDB
       ++ [{| hist_id := "uuid-1"; hist_opportunity := "opp-1"; hist_createdAt := 20;
              hist_createdBy := Some "gov-1"; hist_status := None;
              hist_event := Some "EDITED"; hist_note := EmptyString |}])%list
  ∧ db (addCWUOpportunityAddendum (H := sampleImports) 20 "opp-1" "clarification"
          (authenticated "gov-1" Government) (worldOf publishedDB [] [0%nat])).2
    = publishedDB.
Proof. split_and!; vm_compute; reflexivity. Qed.

(** ** The sweep *)

Section Sweep.
Context `{Imports}.

Lemma elem_of_lapsedOpportunitiesIds now d id :
  id ∈ lapsedOpportunitiesIds now d ↔ lapsed now d id.
Proof.
  unfold lapsedOpportunitiesIds, lapsed. rewrite list_elem_of_fmap. split.
  - intros ([[root stat] version] & -> & Hrow). simpl.
    apply list_elem_of_filter in Hrow as [[Hpublished Hdeadline] Hjoin].
    simpl in *.
    apply elem_of_joinLatest in Hjoin as (Hroot & (Hs & Hsid & Hsmax) & (Hv & Hvid & Hvmax)).
    exists root, stat, version. split_and!; try done.
    + by apply latestStatusTypedAt_isLatest.
    + by apply latestVersionAt_isLatest.
  - intros (root & stat & version & Hroot & Hid & Hstat & Hversion & Hdeadline).
    destruct Hstat as (Hs & Hsid & Hstatus & Hsmax).
    destruct Hversion as (Hv & Hvid & Hvmax).
    exists (root, stat, version). split; [done|].
    apply list_elem_of_filter. split; [done|].
    apply elem_of_joinLatest. rewrite Hid. split_and!; try done.
    + symmetry. apply maxCreatedAt_Some. split.
      * apply list_elem_of_fmap. exists stat. split; [done|].
        apply list_elem_of_filter. by rewrite Hstatus.
      * intros t (s' & -> & [[? ?] ?]%list_elem_of_filter)%list_elem_of_fmap.
        by apply Hsmax.
    + symmetry. apply maxCreatedAt_Some. split.
      * apply list_elem_of_fmap. exists version. split; [done|].
        by apply list_elem_of_filter.
      * intros t (v' & -> & [? ?]%list_elem_of_filter)%list_elem_of_fmap.
        by apply Hvmax.
Qed.

Lemma elem_of_submittedProposalIds id d proposalId :
  proposalId ∈ submittedProposalIds id d ↔
  ∃ p s, p ∈ cwuProposals d ∧ prop_id p = proposalId ∧ prop_opportunity p = id
         ∧ s ∈ cwuProposalStatuses d ∧ pstat_proposal s = proposalId
         ∧ pstat_status s = Some Submitted
         ∧ Some (pstat_createdAt s) = latestProposalStatusAt d proposalId.
Proof.
  unfold submittedProposalIds. rewrite list_elem_of_fmap. split.
  - intros ([p s] & -> & Hrow). simpl.
    apply list_elem_of_filter in Hrow as [[Hopp Hsubmitted] Hjoin]. simpl in *.
    apply list_elem_of_bind in Hjoin as (p' & Hs & Hp).
    apply list_elem_of_bind in Hs as (s' & Heq & Hs).
    apply list_elem_of_singleton in Heq. injection Heq as -> ->.
    apply list_elem_of_filter in Hs as [(Hsid & _ & Hmax) Hs].
    exists p', s'. done.
  - intros (p & s & Hp & Hpid & Hopp & Hs & Hsid & Hsubmitted & Hmax).
    exists (p, s). split; [done|].
    apply list_elem_of_filter. split; [done|].
    apply list_elem_of_bind. exists p. split; [|done].
    apply list_elem_of_bind. exists s. split; [by apply list_elem_of_singleton|].
    apply list_elem_of_filter. rewrite Hsubmitted, Hpid. done.
Qed.

(** The submitted proposals seen through a sweep in progress are the
    ones that were submitted when the sweep started, as long as the
    pending proposal rows are those of proposals submitted at the start. *)
Lemma submittedProposalIds_sound d0 extra id proposalId :
  (∀ s, s ∈ cwuProposalStatuses extra → latestSubmitted d0 (pstat_proposal s)) →
  cwuProposals extra = [] →
  proposalId ∈ submittedProposalIds id (mergeDB d0 extra) →
  ∃ p, p ∈ cwuProposals d0 ∧ prop_id p = proposalId ∧ prop_opportunity p = id
       ∧ latestSubmitted d0 proposalId.
Proof.
  intros Hextra Hnone (p & s & Hp & Hpid & Hopp & Hs & Hsid & Hsubmitted & Hmax)
    %elem_of_submittedProposalIds.
  simpl in Hp, Hs. rewrite Hnone, app_nil_r in Hp.
  exists p. split_and!; [done..|].
  apply elem_of_app in Hs as [Hs|Hs]; [|rewrite <- Hsid; by apply Hextra].
  exists s. split_and!; [done..|].
  intros s' Hs' Hsid' Hsome. symmetry in Hmax.
  apply maxCreatedAt_Some in Hmax as [_ Hle]. apply Hle.
  apply list_elem_of_fmap. exists s'. split; [done|].
  apply list_elem_of_filter. split; [done|]. simpl. apply elem_of_app. by left.
Qed.

Lemma submittedProposalIds_complete d0 extra id p :
  p ∈ cwuProposals d0 → prop_opportunity p = id →
  latestSubmitted d0 (prop_id p) →
  (∀ s, s ∈ cwuProposalStatuses extra → pstat_proposal s ≠ prop_id p) →
  prop_id p ∈ submittedProposalIds id (mergeDB d0 extra).
Proof.
  intros Hp Hopp (s & Hs & Hsid & Hsubmitted & Hmax) Hother.
  apply elem_of_submittedProposalIds. exists p, s. simpl.
  split_and!; try done; try (apply elem_of_app; by left).
  symmetry. apply maxCreatedAt_Some. split.
  - apply list_elem_of_fmap. exists s. split; [done|].
    apply list_elem_of_filter. rewrite Hsubmitted.
    split; [done|]. simpl. apply elem_of_app. by left.
  - intros t (s' & -> & [[Hsid' Hsome] Hs']%list_elem_of_filter)%list_elem_of_fmap.
    simpl in Hs'. apply elem_of_app in Hs' as [Hs'|Hs'].
    + by apply Hmax.
    + by destruct (Hother s' Hs').
Qed.
End Sweep.

Lemma insert_run {R} transacting (asDB : R → DB) row w :
  insert transacting asDB row w
  = if rejectsInsert w
    then (Throw "insert failed", countInsert w)
    else (Ok [row],
          countInsert (if transacting
                       then setPending (mergeDB (pending w) (asDB row)) w
                       else setDb (mergeDB (db w) (asDB row)) w)).
Proof. unfold insert. destruct (rejectsInsert w); [done|]. by destruct transacting. Qed.

Section SweepLoops.
Context `{Imports}.
Variable now : Date.

(** The loop over the submitted proposals of one opportunity. *)
Lemma underReview_loop proposalIds w :
  let run :=
    forEach (λ proposalId,
      bindM generateUuid (λ statusId,
      bindM (insert true proposalStatusRow
               {| pstat_id := statusId; pstat_createdAt := now;
                  pstat_proposal := proposalId;
                  pstat_status := Some UnderReview;
                  pstat_note := EmptyString |}) (λ _, retM tt))) proposalIds w in
  db run.2 = db w
  ∧ failingInserts run.2 = failingInserts w
  ∧ failingCommits run.2 = failingCommits w
  ∧ (failingInserts w = [] → run.1 = Ok tt)
  ∧ (∀ u, run.1 = Ok u →
       ∃ rows, pending run.2 = mergeDB (pending w) (proposalStatusRows rows)
               ∧ pstat_proposal <$> rows = proposalIds
               ∧ ∀ s, s ∈ rows →
                      pstat_status s = Some UnderReview ∧ pstat_createdAt s = now).
Proof.
  revert w. induction proposalIds as [|proposalId proposalIds IH]; intros w; simpl.
  - split_and!; try done. intros _ _. exists []. split_and!; try done.
    + by rewrite mergeDB_empty_r.
    + by intros s Hs%elem_of_nil.
  - rewrite bindM_run, bindM_run, generateUuid_run, bindM_run, insert_run.
    destruct (rejectsInsert (countUuid w)) eqn:Hrej; simpl.
    + split_and!; try done. intros Hq.
      by rewrite (rejectsInsert_quiet (countUuid w) Hq) in Hrej.
    + match goal with
      | |- context [forEach ?f proposalIds ?w1] =>
          destruct (IH w1) as (Hdb & Hfi & Hfc & Hquiet & Hok);
          destruct (forEach f proposalIds w1) as [r w2]
      end.
      simpl in *. split_and!; try done.
      intros u Hu. destruct (Hok u Hu) as (rows & Hpending & Hids & Hrows).
      eexists (_ :: rows). split_and!.
      * rewrite Hpending, mergeDB_assoc. reflexivity.
      * by rewrite fmap_cons, Hids.
      * intros s [->|Hs]%elem_of_cons; [done|]. by apply Hrows.
Qed.

Lemma sweeping_weaken d0 (ids : list Id) (statuses : list ProposalStatusRow) :
  (∀ s, s ∈ statuses →
        pstat_status s = Some UnderReview ∧ pstat_createdAt s = now
        ∧ ∃ p, p ∈ cwuProposals d0 ∧ prop_id p = pstat_proposal s
               ∧ prop_opportunity p ∈ ids ∧ latestSubmitted d0 (prop_id p)) →
  ∀ s, s ∈ statuses → latestSubmitted d0 (pstat_proposal s).
Proof.
  intros Hall s Hs. destruct (Hall s Hs) as (_ & _ & p & _ & <- & _ & Hp). done.
Qed.

(** One turn of the loop over the lapsed opportunities. *)
Lemma closeOne_step d0 ids id w :
  sweeping now d0 ids w →
  let run := closeOne now id w in
  db run.2 = d0
  ∧ failingInserts run.2 = failingInserts w
  ∧ failingCommits run.2 = failingCommits w
  ∧ (failingInserts w = [] → run.1 = Ok tt)
  ∧ (∀ u, run.1 = Ok u → sweeping now d0 (ids ++ [id]) run.2).
Proof.
  intros (Hd0 & statuses & proposalStatuses & Hpending & Hids & Hstatuses
          & Hsound & Hcomplete).
  unfold closeOne.
  rewrite bindM_run, generateUuid_run, bindM_run, insert_run.
  destruct (rejectsInsert (countUuid w)) eqn:Hrej; simpl.
  { split_and!; try done. intros Hq.
    by rewrite (rejectsInsert_quiet (countUuid w) Hq) in Hrej. }
  rewrite bindM_run. unfold readTransacting. simpl.
  match goal with
  | |- context [forEach ?f ?pids ?w1] =>
      destruct (underReview_loop pids w1) as (Hdb & Hfi & Hfc & Hquiet & Hok);
      set (proposalIds := pids) in *;
      destruct (forEach f proposalIds w1) as [r w2]
  end.
  simpl in *. split_and!; try done; try congruence.
  intros u Hu. destruct (Hok u Hu) as (rows & Hpending2 & Hrowids & Hrows).
  split; [congruence|].
  eexists (statuses ++ [_]), (proposalStatuses ++ rows). split_and!.
  - rewrite Hpending2, Hpending. unfold mergeDB. simpl.
    f_equal; rewrite ?app_nil_r; reflexivity.
  - by rewrite fmap_app, Hids.
  - intros s [Hs|Hs%list_elem_of_singleton]%elem_of_app;
      [by apply Hstatuses|by subst s].
  - intros s [Hs|Hs]%elem_of_app.
    + destruct (Hsound s Hs) as (? & ? & p & ? & ? & ? & ?).
      split_and!; [done..|]. exists p. split_and!; [done..| |done].
      apply elem_of_app. by left.
    + destruct (Hrows s Hs) as [? ?]. split_and!; [done..|].
      assert (pstat_proposal s ∈ proposalIds) as Hin.
      { rewrite <- Hrowids. by apply list_elem_of_fmap_2. }
      subst proposalIds. unfold view in Hin. simpl in Hin.
      rewrite Hd0, Hpending in Hin.
      eapply (submittedProposalIds_sound d0) in Hin as (p & Hp & Hpid & Hopp & Hsub).
      * exists p. split_and!; [done|done| |by rewrite Hpid].
        apply elem_of_app. right. by apply list_elem_of_singleton.
      * simpl. rewrite !app_nil_r. by apply (sweeping_weaken d0 ids).
      * done.
  - intros p Hp [Hin|Hin%list_elem_of_singleton]%elem_of_app Hsubmitted.
    + destruct (Hcomplete p Hp Hin Hsubmitted) as (s & Hs & Hsid).
      exists s. split; [|done]. apply elem_of_app. by left.
    + destruct (decide (Exists (λ s, pstat_proposal s = prop_id p) proposalStatuses))
        as [(s & Hs & Hsid)%Exists_exists|Hnone].
      * exists s. split; [|done]. apply elem_of_app. by left.
      * assert (prop_id p ∈ proposalIds) as Hin'.
        { subst proposalIds. unfold view. simpl. rewrite Hd0, Hpending.
          apply submittedProposalIds_complete; try done. simpl.
          rewrite !app_nil_r.
          intros s Hs Hsid. apply Hnone, Exists_exists. eauto. }
        rewrite <- Hrowids in Hin'.
        apply list_elem_of_fmap in Hin' as (s & Hsid & Hs).
        exists s. split; [|done]. apply elem_of_app. by right.
Qed.

(** The loop over the lapsed opportunities. *)
Lemma closeOne_loop d0 ids todo w :
  sweeping now d0 ids w →
  let run := forEach (closeOne now) todo w in
  db run.2 = d0
  ∧ failingInserts run.2 = failingInserts w
  ∧ failingCommits run.2 = failingCommits w
  ∧ (failingInserts w = [] → run.1 = Ok tt)
  ∧ (∀ u, run.1 = Ok u → sweeping now d0 (ids ++ todo) run.2).
Proof.
  revert ids w. induction todo as [|id todo IH]; intros ids w Hsweeping; simpl.
  - rewrite app_nil_r. split_and!; try done. apply Hsweeping.
  - rewrite bindM_run.
    destruct (closeOne_step d0 ids id w Hsweeping) as (Hdb & Hfi & Hfc & Hquiet & Hok).
    destruct (closeOne now id w) as [[u|msg] w1]; simpl in *.
    + destruct (IH (ids ++ [id]) w1 (Hok u eq_refl)) as (Hdb' & Hfi' & Hfc' & Hquiet' & Hok').
      rewrite <- app_assoc in Hok'. simpl in Hok'.
      split_and!; try done; try congruence.
      intros Hq; apply Hquiet'; try congruence.
    + split_and!; done.
Qed.
End SweepLoops.

Lemma NoDup_fmap_elem_inj {A B} (f : A → B) (l : list A) x y :
  NoDup (f <$> l) → x ∈ l → y ∈ l → f x = f y → x = y.
Proof.
  induction l as [|a l IH]; [by intros _ Hx%elem_of_nil|].
  rewrite fmap_cons, NoDup_cons.
  intros [Hnotin Hnodup] [->|Hx]%elem_of_cons [->|Hy]%elem_of_cons Heq; try done.
  - destruct Hnotin. rewrite Heq. by apply list_elem_of_fmap_2.
  - destruct Hnotin. rewrite <- Heq. by apply list_elem_of_fmap_2.
  - by apply IH.
Qed.

Lemma NoDup_joinLatest statAt d :
  NoDup (root_id <$> cwuOpportunities d) → NoDup (cwuOpportunityStatuses d) →
  NoDup (cwuOpportunityVersions d) → NoDup (joinLatest statAt d).
Proof.
  intros Hroots Hstatuses Hversions. unfold joinLatest.
  apply NoDup_bind; [| |by eapply NoDup_fmap_1].
  - intros o1 o2 [[o s] v] _ _ Hin1 Hin2.
    apply list_elem_of_bind in Hin1 as (s1 & Hin1 & _).
    apply list_elem_of_bind in Hin1 as (v1 & Hin1%list_elem_of_singleton & _).
    apply list_elem_of_bind in Hin2 as (s2 & Hin2 & _).
    apply list_elem_of_bind in Hin2 as (v2 & Hin2%list_elem_of_singleton & _).
    congruence.
  - intros o _. apply NoDup_bind; [| |by apply NoDup_filter].
    + intros s1 s2 [[o' s] v] _ _ Hin1 Hin2.
      apply list_elem_of_bind in Hin1 as (v1 & Hin1%list_elem_of_singleton & _).
      apply list_elem_of_bind in Hin2 as (v2 & Hin2%list_elem_of_singleton & _).
      congruence.
    + intros s _. apply NoDup_bind; [| |by apply NoDup_filter].
      * intros v1 v2 row _ _ Hin1%list_elem_of_singleton Hin2%list_elem_of_singleton.
        congruence.
      * intros v _. apply NoDup_singleton.
Qed.

(** With unique keys and unambiguous timestamps no opportunity is found
    lapsed twice. *)
Lemma NoDup_lapsedOpportunitiesIds `{Imports} now d :
  uniqueRows d → NoDup (lapsedOpportunitiesIds now d).
Proof.
  intros (Hroots & Hstatuses & Hversions & Hstamp & Hvstamp).
  unfold lapsedOpportunitiesIds. apply NoDup_fmap_2_strong.
  - intros [[o1 s1] v1] [[o2 s2] v2]
      [[Hp1 _] Hj1]%list_elem_of_filter [[Hp2 _] Hj2]%list_elem_of_filter Hid.
    simpl in *.
    apply elem_of_joinLatest in Hj1 as (Ho1 & (Hs1 & Hsid1 & Hsmax1) & (Hv1 & Hvid1 & Hvmax1)).
    apply elem_of_joinLatest in Hj2 as (Ho2 & (Hs2 & Hsid2 & Hsmax2) & (Hv2 & Hvid2 & Hvmax2)).
    assert (o1 = o2) as <- by (by eapply (NoDup_fmap_elem_inj root_id)).
    assert (s1 = s2) as <-.
    { apply Hstamp; try done; try congruence; by eexists. }
    assert (v1 = v2) as <- by (apply Hvstamp; try done; congruence).
    done.
  - by apply NoDup_filter, NoDup_joinLatest.
Qed.

(** *** One row for each proposal *)

Lemma filter_bind {A B} (P : B → Prop) `{!∀ x, Decision (P x)}
    (f : A → list B) (l : list A) :
  filter P (l ≫= f) = l ≫= (λ x, filter P (f x)).
Proof.
  induction l as [|a l IH]; [done|]. by rewrite !bind_cons, filter_app, IH.
Qed.

Section SweepOnce.
Context `{Imports}.
Variable now : Date.

(** Rows of other proposals do not change the latest status of a
    proposal. *)
Lemma latestProposalStatusAt_frame d0 extra proposalId :
  (∀ s, s ∈ cwuProposalStatuses extra → pstat_proposal s ≠ proposalId) →
  latestProposalStatusAt (mergeDB d0 extra) proposalId
  = latestProposalStatusAt d0 proposalId.
Proof.
  intros Hother. unfold latestProposalStatusAt. simpl. rewrite filter_app.
  assert (filter (λ s, pstat_proposal s = proposalId ∧ is_Some (pstat_status s))
                 (cwuProposalStatuses extra) = []) as ->.
  { apply elem_of_nil_inv. intros s [[Hid _] Hs]%list_elem_of_filter.
    by destruct (Hother s Hs). }
  by rewrite app_nil_r.
Qed.

(** The submitted proposals of an opportunity seen through a sweep in
    progress are those of the committed database, as long as the pending
    rows belong to proposals of other opportunities. *)
Lemma submittedProposalIds_frame d0 extra id :
  cwuProposals extra = [] →
  (∀ s p, s ∈ cwuProposalStatuses extra → p ∈ cwuProposals d0 →
          prop_id p = pstat_proposal s → prop_opportunity p ≠ id) →
  submittedProposalIds id (mergeDB d0 extra) = submittedProposalIds id d0.
Proof.
  intros Hnone Hother. unfold submittedProposalIds. f_equal.
  rewrite !filter_bind. simpl. rewrite Hnone, app_nil_r.
  apply Forall_bind_ext, Forall_forall. intros p Hp.
  rewrite !filter_bind.
  destruct (decide (prop_opportunity p = id)) as [Hopp|Hopp].
  - assert (∀ s, s ∈ cwuProposalStatuses extra → pstat_proposal s ≠ prop_id p)
      as Hno.
    { intros s Hs Heq. by apply (Hother s p Hs Hp). }
    rewrite (latestProposalStatusAt_frame d0 extra (prop_id p) Hno).
    rewrite filter_app.
    assert (filter (λ s, pstat_proposal s = prop_id p ∧ is_Some (pstat_status s)
                         ∧ Some (pstat_createdAt s)
                           = latestProposalStatusAt d0 (prop_id p))
                   (cwuProposalStatuses extra) = []) as ->.
    { apply elem_of_nil_inv. intros s [[Hid _] Hs]%list_elem_of_filter.
      by destruct (Hno s Hs). }
    by rewrite app_nil_r.
  - transitivity (@nil (ProposalRow * ProposalStatusRow)); [|symmetry];
      apply elem_of_nil_inv; intros x (s & Hx & _)%list_elem_of_bind;
      apply list_elem_of_filter in Hx as [[Hx _] Hin];
      apply list_elem_of_singleton in Hin; subst x; done.
Qed.

(** With unique keys and unambiguous timestamps no proposal is found
    submitted twice. *)
Lemma NoDup_submittedProposalIds d id :
  uniqueProposalRows d → NoDup (submittedProposalIds id d).
Proof.
  intros (Hids & Hrows & Hstamp). unfold submittedProposalIds.
  assert (∀ (p : ProposalRow) (s : ProposalStatusRow) q,
            (p, s) ∈ (status ← filter (λ s, pstat_proposal s = prop_id q
                                            ∧ is_Some (pstat_status s)
                                            ∧ Some (pstat_createdAt s)
                                              = latestProposalStatusAt d (prop_id q))
                                      (cwuProposalStatuses d);
                      [(q, status)]) →
            p = q ∧ s ∈ cwuProposalStatuses d ∧ pstat_proposal s = prop_id q
            ∧ is_Some (pstat_status s)
            ∧ Some (pstat_createdAt s) = latestProposalStatusAt d (prop_id q))
    as Hpair.
  { intros p s q (s' & Heq%list_elem_of_singleton & Hs)%list_elem_of_bind.
    injection Heq as -> ->.
    apply list_elem_of_filter in Hs as [(? & ? & ?) ?]. done. }
  apply NoDup_fmap_2_strong.
  - intros [p1 s1] [p2 s2] [_ Hj1]%list_elem_of_filter [_ Hj2]%list_elem_of_filter Hid.
    simpl in Hid.
    apply list_elem_of_bind in Hj1 as (q1 & Hj1 & Hq1).
    apply list_elem_of_bind in Hj2 as (q2 & Hj2 & Hq2).
    apply Hpair in Hj1 as (-> & Hs1 & Hsid1 & Hsome1 & Hmax1).
    apply Hpair in Hj2 as (-> & Hs2 & Hsid2 & Hsome2 & Hmax2).
    assert (q1 = q2) as <- by (by eapply (NoDup_fmap_elem_inj prop_id)).
    assert (s1 = s2) as <-; [|done].
    apply Hstamp; try done; congruence.
  - apply NoDup_filter, NoDup_bind; [| |by eapply NoDup_fmap_1].
    + intros q1 q2 [p s] _ _ Hin1 Hin2.
      apply Hpair in Hin1 as [<- _]. by apply Hpair in Hin2 as [<- _].
    + intros q _. apply NoDup_bind; [| |by apply NoDup_filter].
      * intros s1 s2 row _ _ Hin1%list_elem_of_singleton Hin2%list_elem_of_singleton.
        congruence.
      * intros s _. apply NoDup_singleton.
Qed.

(** The proposals that one turn of the loop puts under review. *)
Lemma closeOne_rows id w u :
  (closeOne now id w).1 = Ok u →
  ∃ extra rows,
    cwuProposals extra = cwuProposals (pending w)
    ∧ cwuProposalStatuses extra = cwuProposalStatuses (pending w)
    ∧ cwuProposalStatuses (pending (closeOne now id w).2)
      = cwuProposalStatuses (pending w) ++ rows
    ∧ pstat_proposal <$> rows = submittedProposalIds id (mergeDB (db w) extra).
Proof.
  unfold closeOne.
  rewrite bindM_run, generateUuid_run, bindM_run, insert_run.
  destruct (rejectsInsert (countUuid w)) eqn:Hrej; simpl; [done|].
  rewrite bindM_run. unfold readTransacting. simpl.
  match goal with
  | |- context [forEach ?f ?pids ?w1] =>
      destruct (underReview_loop now pids w1) as (_ & _ & _ & _ & Hok);
      set (proposalIds := pids) in *;
      destruct (forEach f proposalIds w1) as [r w2]
  end.
  simpl in *. intros ->.
  destruct (Hok u eq_refl) as (rows & Hpending & Hrowids & _).
  eexists _, rows. split_and!; [| | |exact Hrowids].
  - simpl. by rewrite app_nil_r.
  - simpl. by rewrite app_nil_r.
  - rewrite Hpending. simpl. by rewrite app_nil_r.
Qed.

(** The loop over distinct lapsed opportunities puts no proposal under
    review twice. *)
Lemma closeOne_loop_once d0 ids todo w u :
  uniqueProposalRows d0 →
  sweeping now d0 ids w →
  NoDup (ids ++ todo) →
  NoDup (pstat_proposal <$> cwuProposalStatuses (pending w)) →
  (forEach (closeOne now) todo w).1 = Ok u →
  NoDup (pstat_proposal <$>
           cwuProposalStatuses (pending (forEach (closeOne now) todo w).2)).
Proof.
  intros Hunique. revert ids w.
  induction todo as [|id todo IH]; intros ids w Hsweeping Hids Hpending; simpl;
    [done|].
  rewrite bindM_run.
  pose proof (closeOne_step now d0 ids id w Hsweeping) as (_ & _ & _ & _ & Hnext).
  pose proof (closeOne_rows id w) as Hrows.
  destruct (closeOne now id w) as [[u1|msg] w1]; simpl in *; [|done].
  intros Hrun.
  apply (IH (ids ++ [id])); [by eapply Hnext| | |done].
  { by rewrite <- app_assoc. }
  destruct (Hrows u1 eq_refl) as (extra & rows & Hnone & Hextra & -> & Hrowids).
  destruct Hsweeping as (Hd0 & statuses & proposalStatuses & Hw & _ & _ & Hsound & _).
  rewrite Hw in Hnone, Hextra, Hpending |- *. simpl in Hnone, Hextra, Hpending |- *.
  apply NoDup_app in Hids as (_ & Hfresh & _).
  assert (id ∉ ids) as Hid.
  { intros Hin. apply (Hfresh id Hin), list_elem_of_here. }
  assert (∀ s p, s ∈ proposalStatuses → p ∈ cwuProposals d0 →
                 prop_id p = pstat_proposal s → prop_opportunity p ∈ ids) as Hold.
  { intros s p Hs Hp Heq.
    destruct (Hsound s Hs) as (_ & _ & p' & Hp' & Heq' & Hin & _).
    destruct Hunique as (Hprops & _).
    assert (p = p') as -> by (eapply (NoDup_fmap_elem_inj prop_id); [done..|congruence]).
    done. }
  rewrite fmap_app, Hrowids, Hd0.
  rewrite submittedProposalIds_frame; [|done|].
  - apply NoDup_app. split_and!; [done| |by apply NoDup_submittedProposalIds].
    intros q (s & -> & Hs)%list_elem_of_fmap
      (p & s' & Hp & Heq & Hopp & _)%elem_of_submittedProposalIds.
    apply Hid. rewrite <- Hopp. by apply (Hold s p).
  - rewrite Hextra. intros s p Hs Hp Heq Hopp.
    apply Hid. rewrite <- Hopp. by apply (Hold s p).
Qed.
End SweepOnce.

(** C6 (as amended): the sweep runs in a single transaction.  When it is
    reported valid, the committed tables are the ones before followed by
    Evaluation rows for exactly the lapsed opportunities (a latest
    status-typed row Published, a latest version's deadline at or before
    now) and UnderReview rows for exactly the proposals of those
    opportunities whose latest status is Submitted, and the count is the
    number of Evaluation rows appended.  When keys and timestamps are
    unique there is one Evaluation row for each such opportunity, so that
    the count is the number of opportunities transitioned, and one
    UnderReview row for each such proposal.  When the sweep is reported
    invalid nothing has changed; and when no insert and no commit is
    rejected it is valid. *)
Theorem closeCWUOpportunities_sweeps_in_one_transaction `{Imports} now w :
  (quiet w → ∃ count, (closeCWUOpportunities now w).1 = valid count)
  ∧ ((closeCWUOpportunities now w).1 = invalid →
     db (closeCWUOpportunities now w).2 = db w)
  ∧ (∀ count, (closeCWUOpportunities now w).1 = valid count →
       ∃ statuses proposalStatuses,
         db (closeCWUOpportunities now w).2
         = mergeDB (db w)
             (mergeDB (statusRows statuses) (proposalStatusRows proposalStatuses))
         ∧ count = Z.of_nat (length statuses)
         ∧ (uniqueRows (db w) → NoDup (hist_opportunity <$> statuses))
         ∧ (uniqueRows (db w) → uniqueProposalRows (db w) →
            NoDup (pstat_proposal <$> proposalStatuses))
         ∧ (∀ s, s ∈ statuses →
                 hist_status s = Some Evaluation ∧ hist_createdAt s = now
                 ∧ lapsed now (db w) (hist_opportunity s))
         ∧ (∀ id, lapsed now (db w) id →
                  ∃ s, s ∈ statuses ∧ hist_opportunity s = id)
         ∧ (∀ s, s ∈ proposalStatuses →
                 pstat_status s = Some UnderReview ∧ pstat_createdAt s = now
                 ∧ ∃ p, p ∈ cwuProposals (db w) ∧ prop_id p = pstat_proposal s
                        ∧ lapsed now (db w) (prop_opportunity p)
                        ∧ latestSubmitted (db w) (prop_id p))
         ∧ (∀ p, p ∈ cwuProposals (db w) →
                 lapsed now (db w) (prop_opportunity p) →
                 latestSubmitted (db w) (prop_id p) →
                 ∃ s, s ∈ proposalStatuses ∧ pstat_proposal s = prop_id p)).
Proof.
  unfold closeCWUOpportunities, tryDbM.
  rewrite bindM_run, transaction_run, bindM_run. unfold readTransacting.
  assert (view (setPending emptyDB w) = db w) as ->.
  { unfold view. simpl. apply mergeDB_empty_r. }
  set (ids := lapsedOpportunitiesIds now (db w)).
  assert (sweeping now (db w) [] (setPending emptyDB w)) as Hstart.
  { split; [done|]. exists [], []. split_and!; try done.
    - by intros s Hs%elem_of_nil.
    - by intros s Hs%elem_of_nil.
    - by intros p _ Hin%elem_of_nil. }
  rewrite bindM_run.
  pose proof (λ u Hunique, closeOne_loop_once now (db w) [] ids (setPending emptyDB w)
                u Hunique Hstart) as Honce.
  destruct (closeOne_loop now (db w) [] ids _ Hstart)
    as (Hdb & Hfi & Hfc & Hquiet & Hok).
  destruct (forEach (closeOne now) ids (setPending emptyDB w)) as [[u|msg] w1];
    simpl in *.
  - destruct (rejectsCommit w1) eqn:Hrej; simpl.
    + split_and!; [|done|done]. intros [_ Hq].
      rewrite rejectsCommit_quiet in Hrej by congruence. done.
    + split_and!; [eauto|done|]. intros count [= <-].
      destruct (Hok u eq_refl)
        as (_ & statuses & proposalStatuses & Hpending & Hids & Hstatuses
            & Hsound & Hcomplete).
      exists statuses, proposalStatuses. split_and!.
      * by rewrite Hdb, Hpending.
      * by rewrite <- Hids, length_fmap.
      * intros Hunique. rewrite Hids. by apply NoDup_lapsedOpportunitiesIds.
      * intros Hunique Hproposals.
        specialize (Honce u Hproposals (NoDup_lapsedOpportunitiesIds now (db w) Hunique)
                      (NoDup_nil_2) eq_refl).
        rewrite Hpending in Honce. exact Honce.
      * intros s Hs. destruct (Hstatuses s Hs) as [? ?]. split_and!; [done..|].
        apply elem_of_lapsedOpportunitiesIds. fold ids. rewrite <- Hids.
        by apply list_elem_of_fmap_2.
      * intros id Hid%elem_of_lapsedOpportunitiesIds. fold ids in Hid.
        rewrite <- Hids in Hid.
        apply list_elem_of_fmap in Hid as (s & -> & Hs). eauto.
      * intros s Hs. destruct (Hsound s Hs) as (? & ? & p & ? & ? & Hin & ?).
        split_and!; [done..|]. exists p. split_and!; [done..| |done].
        by apply elem_of_lapsedOpportunitiesIds.
      * intros p Hp Hin%elem_of_lapsedOpportunitiesIds Hsubmitted.
        by apply Hcomplete.
  - split_and!; [|done|done]. intros [Hq _]. by specialize (Hquiet Hq).
Qed.

(** Membership in, and distinctness of, a list given by its elements. *)
Ltac in_literal H :=
  repeat (apply elem_of_cons in H as [H|H]; [try subst; try discriminate|]);
  try (by apply elem_of_nil in H).

Ltac nodup_literal :=
  repeat (apply NoDup_cons; split;
          [let Hin := fresh "Hin" in intros Hin; in_literal Hin|]);
  apply NoDup_nil_2.

Lemma lapsedDB_uniqueRows : uniqueRows lapsedDB ∧ uniqueProposalRows lapsedDB.
Proof.
  unfold uniqueRows, uniqueProposalRows. simpl. split_and!; try nodup_literal.
  - intros s1 s2 Hs1 Hs2 Hopp _ _ _. in_literal Hs1; in_literal Hs2; done.
  - intros v1 v2 Hv1 Hv2 Hopp _. in_literal Hv1; in_literal Hv2; done.
  - intros s1 s2 Hs1 Hs2 _ _ _ _. in_literal Hs1; in_literal Hs2; done.
Qed.

Lemma closeCWUOpportunities_sweeps_in_one_transaction_witness :
  (∃ count,
     (closeCWUOpportunities (H := sampleImports) 200 (worldOf lapsedDB [] [])).1
     = valid count)
  ∧ ∃ statuses proposalStatuses,
      db (closeCWUOpportunities (H := sampleImports) 200 (worldOf lapsedDB [] [])).2
      = mergeDB lapsedDB
          (mergeDB (statusRows statuses) (proposalStatusRows proposalStatuses))
      ∧ 2 = Z.of_nat (length statuses)
      ∧ NoDup (hist_opportunity <$> statuses)
      ∧ NoDup (pstat_proposal <$> proposalStatuses).
Proof.
  split.
  - apply (proj1 (closeCWUOpportunities_sweeps_in_one_transaction
                    (H := sampleImports) 200 (worldOf lapsedDB [] []))).
    split; reflexivity.
  - destruct (proj2 (proj2 (closeCWUOpportunities_sweeps_in_one_transaction
                              (H := sampleImports) 200 (worldOf lapsedDB [] [])))
                2 eq_refl)
      as (statuses & proposalStatuses & Hdb & Hcount & Honce & Hproposals & _).
    exists statuses, proposalStatuses.
    split; [exact Hdb|]. split; [exact Hcount|]. split.
    + apply Honce, lapsedDB_uniqueRows.
    + apply Hproposals; apply lapsedDB_uniqueRows.
Defined.

(** C6 as stated, with one transaction for each opportunity, fails: when
    the insert for the second lapsed opportunity is rejected, the sweep
    leaves the database as it was, while a sweep with one transaction for
    each opportunity keeps the transition of the first opportunity and of
    its submitted proposal. *)
Lemma closeCWUOpportunities_not_per_opportunity :
  db (closeCWUOpportunities (H := sampleImports) 200 (worldOf lapsedDB [2%nat] [])).2
  = lapsedDB
  ∧ hist_opportunity <$> cwuOpportunityStatuses
      (db (closeCWUOpportunities_perOpportunity (H := sampleImports) 200
             (worldOf lapsedDB [2%nat] [])).2)
    = ["opp-1"; "opp-2"; "opp-1"]
  ∧ db (closeCWUOpportunities (H := sampleImports) 200 (worldOf lapsedDB [2%nat] [])).2
    ≠ db (closeCWUOpportunities_perOpportunity (H := sampleImports) 200
            (worldOf lapsedDB [2%nat] [])).2.
Proof.
  split_and!; [vm_compute; reflexivity..|].
  intros Heq. apply (f_equal (λ d, length (cwuOpportunityStatuses d))) in Heq.
  vm_compute in Heq. discriminate.
Qed.

(** Without unique timestamps the sweep counts the rows of its join, not
    the opportunities: the one lapsed opportunity of [tiedDB], whose two
    versions carry the same createdAt, is found twice; the sweep returns 2
    and appends two Evaluation rows for it, and two UnderReview rows for
    its proposal, whose Submitted row is dated at the time of the
    sweep. *)
Lemma closeCWUOpportunities_counts_join_rows :
  (closeCWUOpportunities (H := sampleImports) 200 (worldOf tiedDB [] [])).1 = valid 2
  ∧ (λ s, (hist_opportunity s, hist_status s)) <$> cwuOpportunityStatuses
      (db (closeCWUOpportunities (H := sampleImports) 200 (worldOf tiedDB [] [])).2)
    = [("opp-1", Some "PUBLISHED"); ("opp-1", Some "EVALUATION");
       ("opp-1", Some "EVALUATION")]
  ∧ (λ s, (pstat_proposal s, pstat_status s)) <$> cwuProposalStatuses
      (db (closeCWUOpportunities (H := sampleImports) 200 (worldOf tiedDB [] [])).2)
    = [("prop-1", Some "SUBMITTED"); ("prop-1", Some "UNDER_REVIEW");
       ("prop-1", Some "UNDER_REVIEW")].
Proof. split_and!; vm_compute; reflexivity. Qed.

(** * Further properties of the access layer *)

(** ** Outcomes of the writes, whatever is rejected *)

Lemma createCWUOpportunityAttachments_run `{Imports} oppVersionId attachments w :
  let run := createCWUOpportunityAttachments oppVersionId attachments w in
  db run.2 = db w ∧ nextUuid run.2 = nextUuid w ∧ commits run.2 = commits w
  ∧ failingInserts run.2 = failingInserts w
  ∧ failingCommits run.2 = failingCommits w
  ∧ (failingInserts w = [] → run.1 = Ok tt)
  ∧ (∀ u, run.1 = Ok u →
       pending run.2
       = mergeDB (pending w)
           (attachmentRows
              ((λ attachment, {| att_opportunityVersion := oppVersionId;
                                 att_file := file_id attachment |})
                 <$> attachments))).
Proof.
  unfold createCWUOpportunityAttachments.
  revert w. induction attachments as [|attachment attachments IH]; intros w; simpl.
  - split_and!; try done. intros _ _. by rewrite mergeDB_empty_r.
  - rewrite bindM_run, bindM_run, insert_run.
    destruct (rejectsInsert w) eqn:Hrej; simpl.
    { split_and!; try done. intros Hq. by rewrite rejectsInsert_quiet in Hrej. }
    match goal with
    | |- context [forEach ?f attachments ?w1] =>
        destruct (IH w1) as (Hdb & Huuid & Hcommits & Hfi & Hfc & Hquiet & Hok);
        destruct (forEach f attachments w1) as [r w2]
    end.
    simpl in *. split_and!; try done.
    intros u Hu. by rewrite (Hok u Hu), mergeDB_assoc.
Qed.

Section Outcomes.
Context `{Imports}.

Lemma readBack_run id session msg w :
  readBack id session msg w
  = (match readOneCWUOpportunity (db w) id (toSession session) with
     | valid (Some value) => Ok (valid value)
     | _ => Throw msg
     end, w).
Proof.
  unfold readBack. rewrite bindM_run. unfold readCommitted.
  by destruct (readOneCWUOpportunity (db w) id (toSession session)) as [[value|]|].
Qed.

(** A step of a write was rejected: the world was not quiet. *)
Ltac rejected E :=
  intros [Hqi Hqc];
  first [ rewrite rejectsInsert_quiet in E by (simpl in *; congruence)
        | rewrite rejectsCommit_quiet in E by (simpl in *; congruence) ];
  done.

Ltac case_insert E :=
  match goal with
  | |- context [rejectsInsert ?x] => destruct (rejectsInsert x) eqn:E
  end.

Ltac case_commit E :=
  match goal with
  | |- context [rejectsCommit ?x] => destruct (rejectsCommit x) eqn:E
  end.

Ltac read_back :=
  unfold readBackResult;
  match goal with
  | |- context [readOneCWUOpportunity ?d ?i ?s] =>
      let Hread := fresh "Hread" in
      destruct (readOneCWUOpportunity d i s) as [[value|]|] eqn:Hread; simpl;
      rewrite ?Hread; by split
  end.

Lemma createCWUOpportunity_outcomes now opportunity session w :
  let r := createCWUOpportunity now opportunity session w in
  (r.1 = invalid ∧ db r.2 = db w ∧ ¬ quiet w)
  ∨ (db r.2 = mergeDB (db w) (createRows now opportunity session (nextUuid w))
     ∧ r.1 = readBackResult (db r.2) (generateUuid_nth (nextUuid w)) session).
Proof.
  unfold createCWUOpportunity, tryDbM.
  rewrite bindM_run, transaction_run, bindM_run, generateUuid_run, bindM_run, insert_run.
  case_insert E1; simpl; [left; split_and!; [done..|rejected E1]|].
  rewrite bindM_run, generateUuid_run, bindM_run, insert_run.
  case_insert E2; simpl; [left; split_and!; [done..|rejected E2]|].
  rewrite bindM_run, generateUuid_run, bindM_run, insert_run.
  case_insert E3; simpl; [left; split_and!; [done..|rejected E3]|].
  rewrite bindM_run.
  match goal with
  | |- context [createCWUOpportunityAttachments ?v ?a ?w1] =>
      destruct (createCWUOpportunityAttachments_run v a w1)
        as (Hdb & Huuid & Hcommits & Hfi & Hfc & Hquiet & Hok);
      destruct (createCWUOpportunityAttachments v a w1) as [[u|msg] w2]
  end; simpl in *.
  2:{ left. split_and!; [done..|]. intros [Hqi _]. by specialize (Hquiet Hqi). }
  case_commit E4; simpl; [left; split_and!; [done..|rejected E4]|].
  rewrite readBack_run. simpl. right.
  rewrite (Hok u eq_refl), Hdb.
  match goal with
  | |- context [readOneCWUOpportunity ?d _ _] =>
      assert (d = mergeDB (db w) (createRows now opportunity session (nextUuid w))) as ->
  end.
  { unfold mergeDB, createRows. simpl. f_equal; by rewrite ?app_nil_r. }
  read_back.
Qed.

Lemma updateCWUOpportunityVersion_outcomes now opportunity session w :
  let r := updateCWUOpportunityVersion now opportunity session w in
  (r.1 = invalid ∧ ¬ quiet w
   ∧ (db r.2 = db w
      ∨ db r.2 = mergeDB (db w)
                   (statusRows (cwuOpportunityStatuses
                                  (editRows now opportunity session (nextUuid w))))))
  ∨ (db r.2 = mergeDB (db w) (editRows now opportunity session (nextUuid w))
     ∧ r.1 = readBackResult (db r.2) (upd_id opportunity) session).
Proof.
  unfold updateCWUOpportunityVersion, tryDbM.
  rewrite bindM_run, transaction_run, bindM_run, generateUuid_run, bindM_run, insert_run.
  case_insert E1; simpl;
    [left; split_and!; [done|rejected E1|by left]|].
  rewrite bindM_run.
  match goal with
  | |- context [createCWUOpportunityAttachments ?v ?a ?w1] =>
      destruct (createCWUOpportunityAttachments_run v a w1)
        as (Hdb & Huuid & Hcommits & Hfi & Hfc & Hquiet & Hok);
      destruct (createCWUOpportunityAttachments v a w1) as [[u|msg] w2]
  end; simpl in *.
  2:{ left. split_and!; [done| |by left]. intros [Hqi _]. by specialize (Hquiet Hqi). }
  rewrite bindM_run, generateUuid_run, bindM_run, insert_run.
  case_insert E2; simpl;
    [left; split_and!; [done|rejected E2|by left]|].
  case_commit E3; simpl.
  { left. split_and!; [done|rejected E3|]. right. by rewrite Hdb, Huuid. }
  rewrite readBack_run. simpl. right.
  rewrite (Hok u eq_refl), Hdb, Huuid.
  match goal with
  | |- context [readOneCWUOpportunity ?d _ _] =>
      assert (d = mergeDB (db w) (editRows now opportunity session (nextUuid w))) as ->
  end.
  { unfold mergeDB, editRows. simpl. f_equal; by rewrite ?app_nil_r. }
  read_back.
Qed.

Lemma updateCWUOpportunityStatus_outcomes now id status note session w :
  let r := updateCWUOpportunityStatus now id status note session w in
  (r.1 = invalid ∧ db r.2 = db w ∧ ¬ quiet w)
  ∨ (db r.2 = mergeDB (db w) (statusChangeRows now id status note session (nextUuid w))
     ∧ r.1 = readBackResult (db r.2) id session).
Proof.
  unfold updateCWUOpportunityStatus, tryDbM.
  rewrite bindM_run, generateUuid_run, bindM_run, insert_run.
  case_insert E1; simpl; [left; split_and!; [done..|rejected E1]|].
  rewrite readBack_run. simpl. right.
  fold (statusChangeRows now id status note session (nextUuid w)).
  read_back.
Qed.

Lemma addCWUOpportunityAddendum_outcomes now id addendumText session w :
  let r := addCWUOpportunityAddendum now id addendumText session w in
  (r.1 = invalid ∧ db r.2 = db w ∧ ¬ quiet w)
  ∨ (db r.2 = mergeDB (db w) (addendumAddedRows now id addendumText session (nextUuid w))
     ∧ r.1 = readBackResult (db r.2) id session).
Proof.
  unfold addCWUOpportunityAddendum, tryDbM.
  rewrite bindM_run, transaction_run, bindM_run, generateUuid_run, bindM_run, insert_run.
  case_insert E1; simpl; [left; split_and!; [done..|rejected E1]|].
  rewrite bindM_run, generateUuid_run, bindM_run, insert_run.
  case_insert E2; simpl; [left; split_and!; [done..|rejected E2]|].
  case_commit E3; simpl; [left; split_and!; [done..|rejected E3]|].
  rewrite readBack_run. simpl. right.
  match goal with
  | |- context [readOneCWUOpportunity ?d _ _] =>
      assert (d = mergeDB (db w)
                    (addendumAddedRows now id addendumText session (nextUuid w))) as ->
  end.
  { unfold mergeDB, addendumAddedRows. simpl. f_equal; by rewrite ?app_nil_r. }
  read_back.
Qed.
End Outcomes.

Lemma readBackResult_valid `{Imports} d id session opp :
  readBackResult d id session = valid opp ↔
  readOneCWUOpportunity d id (toSession session) = valid (Some opp).
Proof.
  unfold readBackResult.
  destruct (readOneCWUOpportunity d id (toSession session)) as [[value|]|];
    split; intros Heq; try done; congruence.
Qed.

(** X1: [createCWUOpportunity] is all or nothing.  Whatever insert or
    commit is rejected, the committed database afterwards is the one
    before, or the one before followed by the new root row, version row,
    status row and attachment links; a valid result means the rows are
    committed and is what [readOneCWUOpportunity] then returns for the
    new id; and when nothing is rejected the rows are committed. *)
Theorem createCWUOpportunity_all_or_nothing `{Imports} now opportunity session w :
  (db (createCWUOpportunity now opportunity session w).2 = db w
   ∨ db (createCWUOpportunity now opportunity session w).2
     = mergeDB (db w) (createRows now opportunity session (nextUuid w)))
  ∧ (∀ opp, (createCWUOpportunity now opportunity session w).1 = valid opp →
       db (createCWUOpportunity now opportunity session w).2
       = mergeDB (db w) (createRows now opportunity session (nextUuid w))
       ∧ readOneCWUOpportunity (db (createCWUOpportunity now opportunity session w).2)
           (generateUuid_nth (nextUuid w)) (toSession session)
         = valid (Some opp))
  ∧ (quiet w →
     db (createCWUOpportunity now opportunity session w).2
     = mergeDB (db w) (createRows now opportunity session (nextUuid w))).
Proof.
  destruct (createCWUOpportunity_outcomes now opportunity session w)
    as [(Hinvalid & Hdb & Hnoisy)|(Hdb & Hresult)].
  - split_and!; [by left| |done]. intros opp Hvalid. congruence.
  - split_and!; [by right| |done]. intros opp Hvalid. split; [done|].
    apply readBackResult_valid. congruence.
Qed.

Lemma createCWUOpportunity_all_or_nothing_witness :
  db (createCWUOpportunity (H := sampleImports) 50 sampleDraft
        (authenticated "gov-2" Government) (worldOf publishedDB [] [])).2
  = mergeDB publishedDB
      (createRows (H := sampleImports) 50 sampleDraft
                  (authenticated "gov-2" Government) 0).
Proof.
  apply (proj2 (proj2 (createCWUOpportunity_all_or_nothing (H := sampleImports)
                         50 sampleDraft (authenticated "gov-2" Government)
                         (worldOf publishedDB [] [])))).
  split; reflexivity.
Defined.

(** X2: whoever gets an opportunity back from [createCWUOpportunity] is
    its author for [isCWUOpportunityAuthor] in the database the creation
    leaves. *)
Theorem createCWUOpportunity_makes_author `{Imports} now opportunity session w opp :
  (createCWUOpportunity now opportunity session w).1 = valid opp →
  isCWUOpportunityAuthor (db (createCWUOpportunity now opportunity session w).2)
    (auth_user session) (opp_id opp) = true.
Proof.
  intros Hvalid.
  destruct (createCWUOpportunity_outcomes now opportunity session w)
    as [(Hinvalid & _)|(Hdb & Hresult)]; [congruence|].
  rewrite Hvalid in Hresult. symmetry in Hresult.
  apply readBackResult_valid, readOneCWUOpportunity_Some in Hresult
    as (root & stat & version & Hfirst & Hid & _).
  apply readOneFirst_Some in Hfirst as (_ & Hroot & _).
  unfold isCWUOpportunityAuthor. apply bool_decide_eq_true.
  rewrite Hdb, Hid, Hroot. simpl. rewrite filter_app, length_app. simpl.
  rewrite filter_cons_True by done. simpl. lia.
Qed.

Lemma createCWUOpportunity_makes_author_witness :
  isCWUOpportunityAuthor
    (db (createCWUOpportunity (H := sampleImports) 50 sampleDraft
           (authenticated "gov-2" Government) (worldOf publishedDB [] [])).2)
    (sampleUser "gov-2" Government) "uuid-0" = true.
Proof.
  apply (createCWUOpportunity_makes_author (H := sampleImports) 50 sampleDraft
           (authenticated "gov-2" Government) (worldOf publishedDB [] [])
           (getValidValue
              (createCWUOpportunity (H := sampleImports) 50 sampleDraft
                 (authenticated "gov-2" Government) (worldOf publishedDB [] [])).1
              publishedForVendor)).
  vm_compute. reflexivity.
Defined.

(** X3: the three outcomes of [updateCWUOpportunityVersion].  The
    committed database afterwards is the one before, or the one before
    followed by the Edited event row alone, or the one before followed by
    the new version, its attachment links and the Edited event row; the
    first two come with an invalid result, and a valid result is what
    [readOneCWUOpportunity] returns once all the rows are committed. *)
Theorem updateCWUOpportunityVersion_three_outcomes `{Imports} now opportunity session w :
  (db (updateCWUOpportunityVersion now opportunity session w).2 = db w
   ∨ db (updateCWUOpportunityVersion now opportunity session w).2
     = mergeDB (db w)
         (statusRows (cwuOpportunityStatuses
                        (editRows now opportunity session (nextUuid w))))
   ∨ db (updateCWUOpportunityVersion now opportunity session w).2
     = mergeDB (db w) (editRows now opportunity session (nextUuid w)))
  ∧ (∀ opp, (updateCWUOpportunityVersion now opportunity session w).1 = valid opp →
       db (updateCWUOpportunityVersion now opportunity session w).2
       = mergeDB (db w) (editRows now opportunity session (nextUuid w))
       ∧ readOneCWUOpportunity
           (db (updateCWUOpportunityVersion now opportunity session w).2)
           (upd_id opportunity) (toSession session)
         = valid (Some opp)).
Proof.
  destruct (updateCWUOpportunityVersion_outcomes now opportunity session w)
    as [(Hinvalid & Hnoisy & [Hdb|Hdb])|(Hdb & Hresult)].
  - split; [by left|]. intros opp Hvalid. congruence.
  - split; [right; by left|]. intros opp Hvalid. congruence.
  - split; [right; by right|]. intros opp Hvalid. split; [done|].
    apply readBackResult_valid. congruence.
Qed.

Lemma updateCWUOpportunityVersion_three_outcomes_witness :
  db (updateCWUOpportunityVersion (H := sampleImports) 20 sampleEdit
        (authenticated "gov-1" Government) (worldOf publishedDB [] [])).2
  = mergeDB publishedDB
      (editRows (H := sampleImports) 20 sampleEdit (authenticated "gov-1" Government) 0).
Proof.
  refine (proj1 (proj2 (updateCWUOpportunityVersion_three_outcomes (H := sampleImports)
                          20 sampleEdit (authenticated "gov-1" Government)
                          (worldOf publishedDB [] []))
                   (getValidValue
                      (updateCWUOpportunityVersion (H := sampleImports) 20 sampleEdit
                         (authenticated "gov-1" Government)
                         (worldOf publishedDB [] [])).1
                      publishedForVendor) _)).
  vm_compute. reflexivity.
Defined.

(** X4: [addCWUOpportunityAddendum] is all or nothing.  The committed
    database afterwards is the one before, or the one before followed by
    the addendum row and the AddendumAdded event row; a valid result means
    both rows are committed. *)
Theorem addCWUOpportunityAddendum_all_or_nothing `{Imports} now id addendumText session w :
  (db (addCWUOpportunityAddendum now id addendumText session w).2 = db w
   ∨ db (addCWUOpportunityAddendum now id addendumText session w).2
     = mergeDB (db w) (addendumAddedRows now id addendumText session (nextUuid w)))
  ∧ (∀ opp, (addCWUOpportunityAddendum now id addendumText session w).1 = valid opp →
       db (addCWUOpportunityAddendum now id addendumText session w).2
       = mergeDB (db w) (addendumAddedRows now id addendumText session (nextUuid w))
       ∧ readOneCWUOpportunity
           (db (addCWUOpportunityAddendum now id addendumText session w).2)
           id (toSession session)
         = valid (Some opp)).
Proof.
  destruct (addCWUOpportunityAddendum_outcomes now id addendumText session w)
    as [(Hinvalid & Hdb & Hnoisy)|(Hdb & Hresult)].
  - split; [by left|]. intros opp Hvalid. congruence.
  - split; [by right|]. intros opp Hvalid. split; [done|].
    apply readBackResult_valid. congruence.
Qed.

Lemma addCWUOpportunityAddendum_all_or_nothing_witness :
  db (addCWUOpportunityAddendum (H := sampleImports) 20 "opp-1" "clarification"
        (authenticated "gov-1" Government) (worldOf publishedDB [] [])).2
  = mergeDB publishedDB
      (addendumAddedRows (H := sampleImports) 20 "opp-1" "clarification"
                         (authenticated "gov-1" Government) 0).
Proof.
  refine (proj1 (proj2 (addCWUOpportunityAddendum_all_or_nothing (H := sampleImports)
                          20 "opp-1" "clarification" (authenticated "gov-1" Government)
                          (worldOf publishedDB [] []))
                   (getValidValue
                      (addCWUOpportunityAddendum (H := sampleImports) 20 "opp-1"
                         "clarification" (authenticated "gov-1" Government)
                         (worldOf publishedDB [] [])).1
                      publishedForVendor) _)).
  vm_compute. reflexivity.
Defined.

(** ** Round trips through the writes *)

Lemma latestStatusTypedAt_ge d id s t :
  latestStatusTypedAt d id = Some t → s ∈ cwuOpportunityStatuses d →
  hist_opportunity s = id → is_Some (hist_status s) → hist_createdAt s ≤ t.
Proof.
  intros [_ Hle]%maxCreatedAt_Some Hs Hid Hsome. apply Hle.
  apply list_elem_of_fmap. exists s. split; [done|]. by apply list_elem_of_filter.
Qed.

Lemma latestVersionAt_ge d id v t :
  latestVersionAt d id = Some t → v ∈ cwuOpportunityVersions d →
  version_opportunity v = id → version_createdAt v ≤ t.
Proof.
  intros [_ Hle]%maxCreatedAt_Some Hv Hid. apply Hle.
  apply list_elem_of_fmap. exists v. split; [done|]. by apply list_elem_of_filter.
Qed.

(** X5: a valid [updateCWUOpportunityStatus] returns the opportunity with
    the status just given, provided the change is later than every
    status-typed row the opportunity already has. *)
Theorem updateCWUOpportunityStatus_reads_new_status `{Imports}
    now id status note session w opp :
  (∀ s, s ∈ cwuOpportunityStatuses (db w) → hist_opportunity s = id →
        is_Some (hist_status s) → hist_createdAt s < now) →
  (updateCWUOpportunityStatus now id status note session w).1 = valid opp →
  opp_id opp = id ∧ opp_status opp = Some status.
Proof.
  intros Hnew Hvalid.
  destruct (updateCWUOpportunityStatus_outcomes now id status note session w)
    as [(Hinvalid & _)|(Hdb & Hresult)]; [congruence|].
  rewrite Hvalid in Hresult. symmetry in Hresult.
  apply readBackResult_valid, readOneCWUOpportunity_Some in Hresult
    as (root & stat & version & Hfirst & Hid & _ & _ & _ & Hstatus & _).
  apply readOneFirst_Some in Hfirst as (Hjoin & Hroot & Hvis).
  apply elem_of_joinLatest in Hjoin as (_ & (Hs & Hsid & Hsmax) & _).
  destruct (readOneVisible_status _ _ _ _ Hvis) as [st Hst].
  split; [congruence|]. rewrite Hstatus.
  assert (∃ s0, s0 ∈ cwuOpportunityStatuses
                       (db (updateCWUOpportunityStatus now id status note session w).2)
                ∧ hist_opportunity s0 = id ∧ hist_status s0 = Some status
                ∧ hist_createdAt s0 = now) as (s0 & Hs0 & Hid0 & Hst0 & Hat0).
  { rewrite Hdb. eexists. split; [apply elem_of_app; right; apply list_elem_of_here|].
    by split_and!. }
  assert (now ≤ hist_createdAt stat) as Hge.
  { rewrite <- Hat0.
    eapply latestStatusTypedAt_ge; [by symmetry|done|congruence|by rewrite Hst0]. }
  rewrite Hdb in Hs. simpl in Hs.
  apply elem_of_app in Hs as [Hs|Hs%list_elem_of_singleton]; [|by subst stat].
  assert (hist_createdAt stat < now); [|lia].
  apply Hnew; [done|congruence|by rewrite Hst].
Qed.

Lemma updateCWUOpportunityStatus_reads_new_status_witness :
  opp_id (getValidValue
            (updateCWUOpportunityStatus (H := sampleImports) 30 "opp-1" "SUSPENDED"
               "on hold" (authenticated "gov-1" Government)
               (worldOf publishedDB [] [])).1 publishedForVendor) = "opp-1"
  ∧ opp_status (getValidValue
                  (updateCWUOpportunityStatus (H := sampleImports) 30 "opp-1" "SUSPENDED"
                     "on hold" (authenticated "gov-1" Government)
                     (worldOf publishedDB [] [])).1 publishedForVendor)
    = Some "SUSPENDED".
Proof.
  apply (updateCWUOpportunityStatus_reads_new_status (H := sampleImports)
           30 "opp-1" "SUSPENDED" "on hold" (authenticated "gov-1" Government)
           (worldOf publishedDB [] [])).
  - intros s Hs%list_elem_of_singleton _ _. subst s. simpl. lia.
  - vm_compute. reflexivity.
Defined.

Lemma isLatestStatus_app_events d d' id s status events :
  cwuOpportunityStatuses d' = cwuOpportunityStatuses d ++ events →
  (∀ e, e ∈ events → hist_status e = None) →
  isLatestStatus d' id s status ↔ isLatestStatus d id s status.
Proof.
  intros Hd' Hevents. unfold isLatestStatus. rewrite Hd'. split.
  - intros (Hs & Hid & Hstatus & Hmax). split_and!; try done.
    + apply elem_of_app in Hs as [Hs|Hs]; [done|].
      rewrite (Hevents s Hs) in Hstatus. done.
    + intros s' Hs'. apply Hmax, elem_of_app. by left.
  - intros (Hs & Hid & Hstatus & Hmax). split_and!; try done.
    + apply elem_of_app. by left.
    + intros s' [Hs'|Hs']%elem_of_app Hid' [st Hst]; [apply Hmax; eauto|].
      rewrite (Hevents s' Hs') in Hst. done.
Qed.

(** X6: edits and addenda leave the current status alone.  Whatever is
    rejected, the statuses that are current for an opportunity after
    [updateCWUOpportunityVersion] or [addCWUOpportunityAddendum] are the
    ones that were current before: the event rows they append carry no
    status. *)
Theorem events_keep_current_status `{Imports} now w id status :
  (∀ opportunity session,
     currentStatus (db (updateCWUOpportunityVersion now opportunity session w).2) id status
     ↔ currentStatus (db w) id status)
  ∧ (∀ id' addendumText session,
       currentStatus (db (addCWUOpportunityAddendum now id' addendumText session w).2)
                     id status
       ↔ currentStatus (db w) id status).
Proof.
  assert (∀ d' events,
            cwuOpportunityStatuses d' = cwuOpportunityStatuses (db w) ++ events →
            (∀ e, e ∈ events → hist_status e = None) →
            currentStatus d' id status ↔ currentStatus (db w) id status) as Hkeep.
  { intros d' events Hd' Hevents. unfold currentStatus.
    split; intros [s Hs]; exists s;
      by eapply (isLatestStatus_app_events (db w) d'). }
  split.
  - intros opportunity session.
    destruct (updateCWUOpportunityVersion_outcomes now opportunity session w)
      as [(_ & _ & [Hdb|Hdb])|(Hdb & _)]; rewrite Hdb.
    + done.
    + eapply Hkeep; [reflexivity|].
      by intros e ->%list_elem_of_singleton.
    + eapply Hkeep; [reflexivity|].
      by intros e ->%list_elem_of_singleton.
  - intros id' addendumText session.
    destruct (addCWUOpportunityAddendum_outcomes now id' addendumText session w)
      as [(_ & Hdb & _)|(Hdb & _)]; rewrite Hdb; [done|].
    eapply Hkeep; [reflexivity|].
    by intros e ->%list_elem_of_singleton.
Qed.

(** X7: a valid [updateCWUOpportunityVersion] returns the opportunity
    with the content just given and the time of the edit as updatedAt,
    provided the edit is later than every version the opportunity
    already has. *)
Theorem updateCWUOpportunityVersion_reads_new_version `{Imports}
    now opportunity session w opp :
  (∀ v, v ∈ cwuOpportunityVersions (db w) →
        version_opportunity v = upd_id opportunity → version_createdAt v < now) →
  (updateCWUOpportunityVersion now opportunity session w).1 = valid opp →
  opp_id opp = upd_id opportunity
  ∧ opp_content opp = upd_content opportunity
  ∧ opp_updatedAt opp = now.
Proof.
  intros Hnew Hvalid.
  destruct (updateCWUOpportunityVersion_outcomes now opportunity session w)
    as [(Hinvalid & _)|(Hdb & Hresult)]; [congruence|].
  rewrite Hvalid in Hresult. symmetry in Hresult.
  apply readBackResult_valid, readOneCWUOpportunity_Some in Hresult
    as (root & stat & version & Hfirst & Hid & _ & Hat & Hcontent & _).
  apply readOneFirst_Some in Hfirst as (Hjoin & Hroot & _).
  apply elem_of_joinLatest in Hjoin as (_ & _ & (Hv & Hvid & Hvmax)).
  rewrite Hid, Hcontent, Hat. split; [done|].
  assert (∃ v0, v0 ∈ cwuOpportunityVersions
                       (db (updateCWUOpportunityVersion now opportunity session w).2)
                ∧ version_opportunity v0 = upd_id opportunity
                ∧ version_createdAt v0 = now) as (v0 & Hv0 & Hid0 & Hat0).
  { rewrite Hdb. eexists. split; [apply elem_of_app; right; apply list_elem_of_here|].
    by split_and!. }
  assert (now ≤ version_createdAt version) as Hge.
  { rewrite <- Hat0. eapply latestVersionAt_ge; [by symmetry|done|congruence]. }
  rewrite Hdb in Hv. simpl in Hv.
  apply elem_of_app in Hv as [Hv|Hv%list_elem_of_singleton]; [|by subst version].
  assert (version_createdAt version < now); [|lia].
  apply Hnew; [done|congruence].
Qed.

Lemma updateCWUOpportunityVersion_reads_new_version_witness :
  opp_content (getValidValue
                 (updateCWUOpportunityVersion (H := sampleImports) 20 sampleEdit
                    (authenticated "gov-1" Government) (worldOf publishedDB [] [])).1
                 publishedForVendor)
  = sampleContent "Fix the parser, again" 100.
Proof.
  refine (proj1 (proj2 (updateCWUOpportunityVersion_reads_new_version
                          (H := sampleImports) 20 sampleEdit
                          (authenticated "gov-1" Government)
                          (worldOf publishedDB [] []) _ _ _))).
  - intros v Hv%list_elem_of_singleton _. subst v. simpl. lia.
  - vm_compute. reflexivity.
Defined.

(** ** What the read attaches to an opportunity *)

Section Decorations.
Context `{Imports}.

(** The guard of the history block of [readOneCWUOpportunity], on the
    row that [processForRole] returned. *)
Lemma history_guard session root version :
  sessionUserIs session Admin
  || bool_decide
       ((if hidesAuthors session (Some (root_createdBy root))
                         (Some (version_createdBy version))
         then None else Some (root_createdBy root))
        = sessionUserId session) = true
  ↔ historyShown session root.
Proof.
  unfold sessionUserIs, sessionUserId, hidesAuthors, historyShown.
  destruct (session_user session) as [u|]; simpl; [|done].
  rewrite orb_true_iff, !bool_decide_eq_true. split.
  - intros [Hadmin|Hcreator]; [by left|]. right.
    destruct (negb _ && negb _ && negb _); congruence.
  - intros [Hadmin|Hcreator]; [by left|].
    destruct (decide (user_type u = Admin)) as [Hadmin|Hother]; [by left|]. right.
    rewrite (bool_decide_eq_false_2 _ Hother). simpl.
    rewrite (bool_decide_eq_true_2 (Some (user_id u) = Some (root_createdBy root)))
      by congruence.
    simpl. congruence.
Qed.

(** Everything a successful read returns, in terms of the first row of
    its query. *)
Lemma readOneCWUOpportunity_decorations d id session root stat version opp :
  readOneFirst d id session = Some (root, stat, version) →
  readOneCWUOpportunity d id session = valid (Some opp) →
  opp_publishedAt opp
  = minCreatedAt (hist_createdAt <$>
      filter (λ s, hist_opportunity s = root_id root ∧ hist_status s = Some Published)
             (cwuOpportunityStatuses d))
  ∧ opp_successfulProponent opp
    = (if bool_decide (hist_status stat = Some Awarded) then Some true else None)
  ∧ opp_subscribed opp
    = match session_user session with
      | Some u =>
          Some (bool_decide (is_Some (head
            (filter (λ s, sub_opportunity s = root_id root ∧ sub_user s = user_id u)
                    (cwuOpportunitySubscribers d)))))
      | None => None
      end
  ∧ (if sessionUserIs session Admin
        || bool_decide
             ((if hidesAuthors session (Some (root_createdBy root))
                               (Some (version_createdBy version))
               then None else Some (root_createdBy root))
              = sessionUserId session)
     then ∃ history,
            opp_history opp = Some history
            ∧ promiseAll rawCWUOpportunityHistoryRecordToCWUOpportunityHistoryRecord
                (merge_sort newerFirst
                   (filter (λ s, hist_opportunity s = root_id root)
                           (cwuOpportunityStatuses d)))
              = Ok history
            ∧ (is_Some (opp_reporting opp)
               ↔ whereIn (hist_status stat) publicOpportunityStatuses = true)
     else opp_history opp = None ∧ opp_reporting opp = None)
  ∧ promiseAll (λ id,
        match getValidValue (readOneFileById id) None with
        | None => Throw "unable to process opportunity"
        | Some result => Ok result
        end)
      (att_file <$> filter (λ a, att_opportunityVersion a = version_id version)
                           (cwuOpportunityAttachments d))
    = Ok (opp_attachments opp)
  ∧ promiseAll (λ id,
        match getValidValueOrNull (readOneCWUOpportunityAddendum d id) with
        | None => Throw "unable to retrieve addenda"
        | Some result => Ok result
        end)
      (add_id <$> filter (λ a, add_opportunity a = id) (cwuOpportunityAddenda d))
    = Ok (opp_addenda opp).
Proof.
  intros Hfirst. unfold readOneCWUOpportunity. rewrite Hfirst. simpl.
  destruct (readOneDecorate _ _ _ _) as [result|] eqn:Hdec; simpl; [|done].
  destruct (rawCWUOpportunityToCWUOpportunity d result) as [opp'|] eqn:Hconv;
    simpl; [|done].
  intros [= ->].
  unfold rawCWUOpportunityToCWUOpportunity in Hconv.
  destruct (promiseAll _ (raw_attachments result)) as [attachments|] eqn:Hatt;
    [|done]. simpl in Hconv.
  destruct (promiseAll _ (raw_addenda result)) as [addenda|] eqn:Hadd; [|done].
  simpl in Hconv. injection Hconv as <-. simpl.
  unfold readOneDecorate in Hdec.
  destruct (processForRole_raw (selectRaw (root, stat, version)) session)
    as (E1 & E2 & E3 & E4 & E5 & E6 & E7 & E8).
  simpl in E1, E2, E3, E4, E5, E6, E7, E8.
  rewrite E1, E3, E6, E7 in Hdec.
  destruct (sessionUserIs session Admin || _) eqn:Hguard.
  - destruct (promiseAll _ (merge_sort newerFirst _)) as [history|] eqn:Hhist;
      [|done].
    simpl in Hdec. injection Hdec as <-. simpl in *.
    split_and!; try done.
    exists history. split_and!; try done.
    destruct (whereIn (hist_status stat) publicOpportunityStatuses);
      split; try done; by intros [? ?].
  - simpl in Hdec. injection Hdec as <-. simpl in *. by split_and!.
Qed.
End Decorations.

Lemma minCreatedAt_Some ds m :
  minCreatedAt ds = Some m ↔ m ∈ ds ∧ ∀ d, d ∈ ds → m ≤ d.
Proof.
  revert m. induction ds as [|d ds IH]; intros m; simpl.
  - split; [done|]. intros [Hm _]. by apply elem_of_nil in Hm.
  - destruct (minCreatedAt ds) as [m'|] eqn:E.
    + destruct (IH m') as [[Hin Hle] _]; [done|].
      split.
      * intros [= <-]. split.
        -- destruct (Z.min_spec d m') as [[_ ->]|[_ ->]];
             [by apply elem_of_cons; left | by apply elem_of_cons; right].
        -- intros x [->|Hx]%elem_of_cons; [lia|]. specialize (Hle x Hx). lia.
      * intros [Hm Hall]. f_equal.
        assert (m ≤ d) by (apply Hall, elem_of_cons; by left).
        assert (m ≤ m') by (apply Hall, elem_of_cons; by right).
        apply elem_of_cons in Hm as [->|Hm]; [lia|].
        specialize (Hle m Hm). lia.
    + assert (ds = []) as ->.
      { destruct ds as [|x xs]; [done|]. simpl in E. by destruct (minCreatedAt xs). }
      split.
      * intros [= <-]. split; [by apply elem_of_cons; left|].
        intros x [->|Hx]%elem_of_cons; [lia|]. by apply elem_of_nil in Hx.
      * intros [[->|Hm]%elem_of_cons _]; [done|]. by apply elem_of_nil in Hm.
Qed.

Lemma minCreatedAt_None ds : minCreatedAt ds = None ↔ ds = [].
Proof. destruct ds as [|d ds]; simpl; [done|]. by destruct (minCreatedAt ds). Qed.

Lemma readOneCWUOpportunity_first `{Imports} d id session opp :
  readOneCWUOpportunity d id session = valid (Some opp) →
  ∃ root stat version,
    readOneFirst d id session = Some (root, stat, version) ∧ root_id root = id
    ∧ opp_status opp = hist_status stat.
Proof.
  intros (root & stat & version & Hfirst & _ & _ & _ & _ & Hstatus & _)
    %readOneCWUOpportunity_Some.
  exists root, stat, version. split_and!; [done| |done].
  by apply readOneFirst_Some in Hfirst as (_ & Hid & _).
Qed.

(** X8: the publishedAt of a returned opportunity is the createdAt of
    its earliest Published history row, whatever its status is now; it is
    absent exactly when the opportunity has no Published row. *)
Theorem readOneCWUOpportunity_publishedAt `{Imports} d id session opp :
  readOneCWUOpportunity d id session = valid (Some opp) →
  match opp_publishedAt opp with
  | Some t =>
      (∃ s, s ∈ cwuOpportunityStatuses d ∧ hist_opportunity s = id
            ∧ hist_status s = Some Published ∧ hist_createdAt s = t)
      ∧ ∀ s, s ∈ cwuOpportunityStatuses d → hist_opportunity s = id →
             hist_status s = Some Published → t ≤ hist_createdAt s
  | None =>
      ∀ s, s ∈ cwuOpportunityStatuses d → hist_opportunity s = id →
           hist_status s ≠ Some Published
  end.
Proof.
  intros Hread.
  destruct (readOneCWUOpportunity_first _ _ _ _ Hread)
    as (root & stat & version & Hfirst & Hid & _).
  destruct (readOneCWUOpportunity_decorations _ _ _ _ _ _ _ Hfirst Hread)
    as (Hpublished & _).
  rewrite Hid in Hpublished.
  destruct (opp_publishedAt opp) as [t|].
  - symmetry in Hpublished. apply minCreatedAt_Some in Hpublished as [Hin Hle].
    apply list_elem_of_fmap in Hin as (s & -> & [[? ?] ?]%list_elem_of_filter).
    split; [by exists s|].
    intros s' Hs' Hid' Hstatus'. apply Hle, list_elem_of_fmap.
    exists s'. split; [done|]. by apply list_elem_of_filter.
  - symmetry in Hpublished. apply minCreatedAt_None, fmap_nil_inv in Hpublished.
    intros s Hs Hsid Hstatus.
    by apply (filter_nil_not_elem_of _ _ s Hpublished).
Qed.

Lemma readOneCWUOpportunity_publishedAt_witness :
  (∃ s, s ∈ cwuOpportunityStatuses editedDB ∧ hist_opportunity s = "opp-1"
        ∧ hist_status s = Some "PUBLISHED" ∧ hist_createdAt s = 10)
  ∧ ∀ s, s ∈ cwuOpportunityStatuses editedDB → hist_opportunity s = "opp-1" →
         hist_status s = Some "PUBLISHED" → 10 ≤ hist_createdAt s.
Proof.
  apply (readOneCWUOpportunity_publishedAt (H := sampleImports) editedDB "opp-1"
           (asUser "ven-1" Vendor)
           {| opp_id := "opp-1"; opp_createdAt := 10; opp_createdBy := None;
              opp_updatedAt := 20; opp_updatedBy := None;
              opp_content := sampleContent "Fix the parser, again" 100;
              opp_status := Some "PUBLISHED";
              opp_attachments := [{| file_id := "file-1"; file_name := "file-1" |}];
              opp_addenda := []; opp_publishedAt := Some 10;
              opp_successfulProponent := None; opp_subscribed := Some false;
              opp_history := None; opp_reporting := None |}).
  vm_compute. reflexivity.
Defined.

(** X9: who gets the history.  A returned opportunity carries its
    history exactly when the session has no user at all, or its user is
    an admin or the creator of the root row; it carries the reporting
    figures exactly when it carries the history and the joined status is
    public. *)
Theorem readOneCWUOpportunity_history_shown `{Imports}
    d id session root stat version opp :
  readOneFirst d id session = Some (root, stat, version) →
  readOneCWUOpportunity d id session = valid (Some opp) →
  (is_Some (opp_history opp) ↔ historyShown session root)
  ∧ (is_Some (opp_reporting opp)
     ↔ historyShown session root
       ∧ ∃ status, hist_status stat = Some status
                   ∧ status ∈ publicOpportunityStatuses).
Proof.
  intros Hfirst Hread.
  destruct (readOneCWUOpportunity_decorations _ _ _ _ _ _ _ Hfirst Hread)
    as (_ & _ & _ & Hhistory & _).
  pose proof (history_guard session root version) as Hguard.
  destruct (sessionUserIs session Admin || _).
  - destruct Hhistory as (history & -> & _ & Hreporting).
    assert (historyShown session root) as Hshown by by apply Hguard.
    split; [by split|]. rewrite Hreporting. split.
    + intros Hin%whereIn_true. by split.
    + intros (_ & status & -> & Hin). simpl. by apply bool_decide_eq_true.
  - destruct Hhistory as [-> ->].
    assert (¬ historyShown session root) as Hhidden.
    { intros Hshown. by apply Hguard in Hshown. }
    split; (split; [by intros [? ?]|]); [done|by intros [? _]].
Qed.

Lemma readOneCWUOpportunity_history_shown_witness :
  is_Some (opp_history
             (default publishedForVendor
                (getValidValue
                   (readOneCWUOpportunity (H := sampleImports) publishedDB "opp-1"
                      anonymous) None))).
Proof.
  apply (proj1 (readOneCWUOpportunity_history_shown (H := sampleImports)
                  publishedDB "opp-1" anonymous (sampleRoot "opp-1")
                  (sampleStatus "st-1" "opp-1" 10 "PUBLISHED")
                  (sampleVersion "ver-1" "opp-1" 10 100) _ eq_refl eq_refl)).
  exact I.
Defined.

#[global] Instance newerFirst_transitive : Transitive newerFirst.
Proof. intros a b c. unfold newerFirst. lia. Qed.

#[global] Instance newerFirst_total : Total newerFirst.
Proof. intros a b. unfold newerFirst. lia. Qed.

Lemma promiseAll_fmap {A B C} (f : A → Result B) (g : B → C) (h : A → C) xs ys :
  (∀ x y, f x = Ok y → g y = h x) →
  promiseAll f xs = Ok ys → g <$> ys = h <$> xs.
Proof.
  intros Hgh. revert ys. induction xs as [|x xs IH]; intros ys; simpl.
  - by intros [= <-].
  - destruct (f x) as [y|] eqn:Hx; simpl; [|done].
    destruct (promiseAll f xs) as [ys'|]; simpl; [|done].
    intros [= <-]. by rewrite !fmap_cons, (IH ys' eq_refl), (Hgh x y Hx).
Qed.

Lemma promiseAll_history `{Imports} raws history :
  promiseAll rawCWUOpportunityHistoryRecordToCWUOpportunityHistoryRecord raws
  = Ok history →
  h_id <$> history = hist_id <$> raws
  ∧ h_createdAt <$> history = hist_createdAt <$> raws.
Proof.
  intros Hall. split; eapply promiseAll_fmap; try exact Hall;
    intros raw record; unfold rawCWUOpportunityHistoryRecordToCWUOpportunityHistoryRecord;
    destruct (negb _ && negb _); try done; by intros [= <-].
Qed.

(** X10: the history of a returned opportunity has one record for each
    history row of the opportunity, status changes and events alike,
    ordered from the newest to the oldest. *)
Theorem readOneCWUOpportunity_history_newest_first `{Imports} d id session opp history :
  readOneCWUOpportunity d id session = valid (Some opp) →
  opp_history opp = Some history →
  h_id <$> history
    ≡ₚ hist_id <$> filter (λ s, hist_opportunity s = id) (cwuOpportunityStatuses d)
  ∧ StronglySorted (λ newer older, older ≤ newer) (h_createdAt <$> history).
Proof.
  intros Hread Hhistory.
  destruct (readOneCWUOpportunity_first _ _ _ _ Hread)
    as (root & stat & version & Hfirst & Hid & _).
  destruct (readOneCWUOpportunity_decorations _ _ _ _ _ _ _ Hfirst Hread)
    as (_ & _ & _ & Hguard & _).
  destruct (sessionUserIs session Admin || _);
    [|destruct Hguard as [Hnone _]; congruence].
  destruct Hguard as (history' & Hsome & Hall & _).
  assert (history' = history) as -> by congruence.
  apply promiseAll_history in Hall as [Hids Hdates].
  rewrite Hids, Hdates, Hid. split.
  - by rewrite merge_sort_Permutation.
  - apply (StronglySorted_fmap _ newerFirst); [done|].
    apply StronglySorted_merge_sort; apply _.
Qed.

Lemma readOneCWUOpportunity_history_newest_first_witness :
  ∃ opp history,
    readOneCWUOpportunity (H := sampleImports) editedDB "opp-1"
      (asUser "gov-1" Government) = valid (Some opp)
    ∧ opp_history opp = Some history
    ∧ h_id <$> history
        ≡ₚ hist_id <$> filter (λ s, hist_opportunity s = "opp-1")
                              (cwuOpportunityStatuses editedDB)
    ∧ StronglySorted (λ newer older, older ≤ newer) (h_createdAt <$> history).
Proof.
  eexists _, _. split; [vm_compute; reflexivity|]. split; [reflexivity|].
  eapply (readOneCWUOpportunity_history_newest_first (H := sampleImports)
            editedDB "opp-1" (asUser "gov-1" Government));
    [vm_compute; reflexivity|reflexivity].
Defined.

Lemma readOneFirst_not_null `{Imports} d id session row :
  readOneFirst d id session = Some row →
  readOneCWUOpportunity d id session ≠ valid None.
Proof.
  intros Hfirst. unfold readOneCWUOpportunity. rewrite Hfirst. simpl.
  destruct (readOneDecorate _ _ _ _) as [result|]; simpl; [|done].
  by destruct (rawCWUOpportunityToCWUOpportunity d result).
Qed.

(** X11: a history row that carries neither a status nor an event makes
    the whole read invalid for the sessions that get the history. *)
Theorem readOneCWUOpportunity_fails_on_untyped_history `{Imports}
    d id session root stat version :
  readOneFirst d id session = Some (root, stat, version) →
  historyShown session root →
  (∃ s, s ∈ cwuOpportunityStatuses d ∧ hist_opportunity s = id
        ∧ truthyOpt (hist_status s) = false ∧ truthyOpt (hist_event s) = false) →
  readOneCWUOpportunity d id session = invalid.
Proof.
  intros Hfirst Hshown (s & Hs & Hsid & Hstatus & Hevent).
  destruct (readOneCWUOpportunity d id session) as [[opp|]|] eqn:Hread; [| |done].
  - destruct (readOneCWUOpportunity_decorations _ _ _ _ _ _ _ Hfirst Hread)
      as (_ & _ & _ & Hguard & _).
    apply (history_guard session root version) in Hshown. rewrite Hshown in Hguard.
    destruct Hguard as (history & _ & Hall & _).
    assert (root_id root = id) as Hid
      by (by apply readOneFirst_Some in Hfirst as (_ & ? & _)).
    destruct (promiseAll_Ok _ _ _ Hall s) as [record Hrecord].
    { rewrite merge_sort_Permutation. apply list_elem_of_filter. split; congruence. }
    unfold rawCWUOpportunityHistoryRecordToCWUOpportunityHistoryRecord in Hrecord.
    by rewrite Hstatus, Hevent in Hrecord.
  - by destruct (readOneFirst_not_null _ _ _ _ Hfirst).
Qed.

Lemma readOneCWUOpportunity_fails_on_untyped_history_witness :
  readOneCWUOpportunity (H := sampleImports)
    {| cwuOpportunities := [sampleRoot "opp-1"];
       cwuOpportunityVersions := [sampleVersion "ver-1" "opp-1" 10 100];
       cwuOpportunityStatuses :=
         [sampleStatus "st-1" "opp-1" 10 "PUBLISHED";
          {| hist_id := "st-2"; hist_opportunity := "opp-1"; hist_createdAt := 5;
             hist_createdBy := None; hist_status := None; hist_event := None;
             hist_note := EmptyString |}];
       cwuOpportunityAttachments := []; cwuOpportunityAddenda := [];
       cwuOpportunitySubscribers := []; viewCounters := [];
       cwuProposals := []; cwuProposalStatuses := [] |}
    "opp-1" (asUser "adm-1" Admin) = invalid.
Proof.
  eapply (readOneCWUOpportunity_fails_on_untyped_history (H := sampleImports)).
  - vm_compute. reflexivity.
  - left. reflexivity.
  - eexists. split; [apply list_elem_of_further, list_elem_of_here|]. by split_and!.
Defined.

(** X12: what is listed can be opened.  For a session that is not an
    admin's, every record that [readManyCWUOpportunities] lists is found
    by the query of [readOneCWUOpportunity] under the listed id: that
    read is never [valid(null)]. *)
Theorem listed_opportunity_is_found `{Imports} d session slims slim :
  sessionUserIs session Admin = false →
  readManyCWUOpportunities d session = valid slims →
  slim ∈ slims →
  readOneCWUOpportunity d (slim_id slim) session ≠ valid None.
Proof.
  intros Hrole Hmany Hin.
  destruct (readManyCWUOpportunities_elem _ _ _ _ Hmany Hin)
    as ([[root stat] version] & Hrow & ->).
  rewrite slim_id_processForRole. simpl.
  apply list_elem_of_filter in Hrow as [Hvis Hjoin]. apply Is_true_true in Hvis.
  apply elem_of_joinLatest in Hjoin as (Hroot & (Hs & Hsid & Hsmax) & (Hv & Hvid & Hvmax)).
  assert (readOneVisible session (root, stat, version) = true) as Hvis'.
  { unfold readOneVisible, readManyVisible, sessionUserIs, sessionUserId in *.
    destruct (session_user session) as [u|]; simpl in *; [|done].
    destruct (user_type u); simpl in *; done. }
  destruct (readOneVisible_status _ _ _ _ Hvis') as [status Hstatus].
  assert ((root, stat, version) ∈ readOneRows d (root_id root) session) as Hrows.
  { apply list_elem_of_filter. split; [by apply Is_true_true|].
    apply list_elem_of_filter. split; [done|].
    apply elem_of_joinLatest. split_and!; try done.
    symmetry. apply maxCreatedAt_Some. split.
    - apply list_elem_of_fmap. exists stat. split; [done|].
      apply list_elem_of_filter. by rewrite Hstatus.
    - intros t (s' & -> & [[Hsid' _] Hs']%list_elem_of_filter)%list_elem_of_fmap.
      symmetry in Hsmax. apply maxCreatedAt_Some in Hsmax as [_ Hle].
      apply Hle, list_elem_of_fmap. exists s'. split; [done|].
      by apply list_elem_of_filter. }
  destruct (readOneFirst d (root_id root) session) as [row|] eqn:Hfirst.
  - by eapply readOneFirst_not_null.
  - unfold readOneFirst in Hfirst. apply head_None in Hfirst.
    rewrite Hfirst in Hrows. by apply elem_of_nil in Hrows.
Qed.

Lemma listed_opportunity_is_found_witness :
  readOneCWUOpportunity (H := sampleImports) publishedDB "opp-1" anonymous ≠ valid None.
Proof.
  refine (listed_opportunity_is_found (H := sampleImports) publishedDB anonymous _
            (rawCWUOpportunitySlimToCWUOpportunitySlim (H := sampleImports)
               (processForRole
                  (selectRawSlim (sampleRoot "opp-1",
                                  sampleStatus "st-1" "opp-1" 10 "PUBLISHED",
                                  sampleVersion "ver-1" "opp-1" 10 100))
                  anonymous))
            eq_refl eq_refl _).
  apply list_elem_of_here.
Defined.

Lemma filter_ext_in {A} (P Q : A → Prop) `{!∀ x, Decision (P x), !∀ x, Decision (Q x)}
    (l : list A) :
  (∀ x, x ∈ l → P x ↔ Q x) → filter P l = filter Q l.
Proof.
  induction l as [|a l IH]; intros Hext; [done|].
  rewrite !filter_cons.
  rewrite IH by (intros x Hx; apply Hext, elem_of_cons; by right).
  destruct (decide (P a)) as [Hp|Hp], (decide (Q a)) as [Hq|Hq]; try done.
  - destruct Hq. apply (Hext a); [apply list_elem_of_here|done].
  - destruct Hp. apply (Hext a); [apply list_elem_of_here|done].
Qed.

Lemma whereIn_app col xs ys :
  whereIn col (xs ++ ys) = whereIn col xs || whereIn col ys.
Proof.
  destruct col as [s|]; simpl; [|done].
  apply eq_true_iff_eq.
  rewrite orb_true_iff, !bool_decide_eq_true. apply elem_of_app.
Qed.

(** X13: an owner reads as an admin does.  For a government user who
    created every root row of the id, [readOneCWUOpportunity] returns
    what it would return to the same user as an admin: the same
    visibility, the same author columns, the same history and
    reporting. *)
Theorem owner_reads_as_admin `{Imports} d id u :
  user_type u = Government →
  (∀ root, root ∈ cwuOpportunities d → root_id root = id →
           root_createdBy root = user_id u) →
  readOneCWUOpportunity d id {| session_user := Some u |}
  = readOneCWUOpportunity d id {| session_user := Some (withType u Admin) |}.
Proof.
  intros Hgov Hown.
  assert (readOneFirst d id {| session_user := Some u |}
          = readOneFirst d id {| session_user := Some (withType u Admin) |}) as Hsame.
  { unfold readOneFirst, readOneRows. f_equal. apply filter_ext_in.
    intros [[root stat] version] [Hid Hjoin]%list_elem_of_filter. simpl in Hid.
    apply elem_of_joinLatest in Hjoin as (Hroot & _).
    unfold readOneVisible, sessionUserIs, sessionUserId. simpl.
    rewrite Hgov, (Hown root Hroot Hid). simpl.
    rewrite whereIn_app, bool_decide_eq_true_2 by done.
    by rewrite andb_true_r. }
  unfold readOneCWUOpportunity. rewrite <- Hsame.
  destruct (readOneFirst d id {| session_user := Some u |})
    as [[[root stat] version]|] eqn:Hfirst; [|done].
  apply readOneFirst_Some in Hfirst as (Hjoin & Hid & _).
  apply elem_of_joinLatest in Hjoin as (Hroot & _).
  assert (readOneDecorate d id {| session_user := Some u |}
            (selectRaw (root, stat, version))
          = readOneDecorate d id {| session_user := Some (withType u Admin) |}
              (selectRaw (root, stat, version))) as ->; [|done].
  unfold readOneDecorate, processForRole, hidesAuthors, sessionUserIs, sessionUserId.
  simpl. rewrite Hgov, (Hown root Hroot Hid). simpl.
  rewrite (bool_decide_eq_true_2 (Some (user_id u) = Some (user_id u))) by done.
  simpl. rewrite (bool_decide_eq_true_2 (Some (user_id u) = Some (user_id u))) by done.
  done.
Qed.

Lemma owner_reads_as_admin_witness :
  readOneCWUOpportunity (H := sampleImports) publishedDB "opp-1"
    {| session_user := Some (sampleUser "gov-1" Government) |}
  = readOneCWUOpportunity (H := sampleImports) publishedDB "opp-1"
      {| session_user := Some (withType (sampleUser "gov-1" Government) Admin) |}.
Proof.
  apply (owner_reads_as_admin (H := sampleImports) publishedDB "opp-1"
           (sampleUser "gov-1" Government)); [reflexivity|].
  intros root Hroot%list_elem_of_singleton _. by subst root.
Defined.

(** X14: the subscription flag.  A returned opportunity has no
    subscribed flag for a session without user; for a user the flag is
    true exactly when some subscriber row links the user to the
    opportunity. *)
Theorem readOneCWUOpportunity_subscribed `{Imports} d id session opp :
  readOneCWUOpportunity d id session = valid (Some opp) →
  match session_user session with
  | None => opp_subscribed opp = None
  | Some u =>
      ∃ flag, opp_subscribed opp = Some flag
              ∧ (flag = true ↔
                 ∃ s, s ∈ cwuOpportunitySubscribers d
                      ∧ sub_opportunity s = id ∧ sub_user s = user_id u)
  end.
Proof.
  intros Hread.
  destruct (readOneCWUOpportunity_first _ _ _ _ Hread)
    as (root & stat & version & Hfirst & Hid & _).
  destruct (readOneCWUOpportunity_decorations _ _ _ _ _ _ _ Hfirst Hread)
    as (_ & _ & Hsubscribed & _).
  rewrite Hid in Hsubscribed.
  destruct (session_user session) as [u|]; [|done].
  eexists. split; [done|]. rewrite bool_decide_eq_true. split.
  - intros [s Hs]. apply head_Some_elem_of, list_elem_of_filter in Hs as [[? ?] ?].
    by exists s.
  - intros (s & Hs & Hopp & Huser). apply head_is_Some.
    intros Hnil. by apply (filter_nil_not_elem_of _ _ s Hnil).
Qed.

Lemma readOneCWUOpportunity_subscribed_witness :
  ∃ flag, opp_subscribed publishedForVendor = Some flag
          ∧ (flag = true ↔
             ∃ s, s ∈ cwuOpportunitySubscribers publishedDB
                  ∧ sub_opportunity s = "opp-1"
                  ∧ sub_user s = user_id (sampleUser "ven-1" Vendor)).
Proof.
  apply (readOneCWUOpportunity_subscribed (H := sampleImports) publishedDB "opp-1"
           (asUser "ven-1" Vendor) publishedForVendor).
  vm_compute. reflexivity.
Defined.

(** ** The sweep, once more *)

Lemma closeCWUOpportunities_run `{Imports} now w :
  let r := closeCWUOpportunities now w in
  failingInserts r.2 = failingInserts w ∧ failingCommits r.2 = failingCommits w
  ∧ ((r.1 = invalid ∧ db r.2 = db w ∧ ¬ quiet w)
     ∨ ∃ statuses proposalStatuses,
         r.1 = valid (Z.of_nat (length statuses))
         ∧ db r.2 = mergeDB (db w)
                      (mergeDB (statusRows statuses)
                               (proposalStatusRows proposalStatuses))
         ∧ hist_opportunity <$> statuses = lapsedOpportunitiesIds now (db w)
         ∧ (∀ s, s ∈ statuses →
                 hist_status s = Some Evaluation ∧ hist_createdAt s = now)
         ∧ (∀ s, s ∈ proposalStatuses →
                 pstat_status s = Some UnderReview ∧ pstat_createdAt s = now
                 ∧ ∃ p, p ∈ cwuProposals (db w) ∧ prop_id p = pstat_proposal s
                        ∧ prop_opportunity p ∈ lapsedOpportunitiesIds now (db w)
                        ∧ latestSubmitted (db w) (prop_id p))
         ∧ (∀ p, p ∈ cwuProposals (db w) →
                 prop_opportunity p ∈ lapsedOpportunitiesIds now (db w) →
                 latestSubmitted (db w) (prop_id p) →
                 ∃ s, s ∈ proposalStatuses ∧ pstat_proposal s = prop_id p)).
Proof.
  unfold closeCWUOpportunities, tryDbM.
  rewrite bindM_run, transaction_run, bindM_run. unfold readTransacting.
  assert (view (setPending emptyDB w) = db w) as ->.
  { unfold view. simpl. apply mergeDB_empty_r. }
  set (ids := lapsedOpportunitiesIds now (db w)).
  assert (sweeping now (db w) [] (setPending emptyDB w)) as Hstart.
  { split; [done|]. exists [], []. split_and!; try done.
    - by intros s Hs%elem_of_nil.
    - by intros s Hs%elem_of_nil.
    - by intros p _ Hin%elem_of_nil. }
  rewrite bindM_run.
  destruct (closeOne_loop now (db w) [] ids _ Hstart)
    as (Hdb & Hfi & Hfc & Hquiet & Hok).
  destruct (forEach (closeOne now) ids (setPending emptyDB w)) as [[u|msg] w1];
    simpl in *.
  - destruct (rejectsCommit w1) eqn:Hrej; simpl.
    + split_and!; [done..|]. left. split_and!; [done..|]. intros [_ Hq].
      rewrite rejectsCommit_quiet in Hrej by congruence. done.
    + split_and!; [done..|]. right.
      destruct (Hok u eq_refl)
        as (_ & statuses & proposalStatuses & Hpending & Hids & Hstatuses
            & Hsound & Hcomplete).
      exists statuses, proposalStatuses. split_and!; try done.
      * by rewrite <- Hids, length_fmap.
      * by rewrite Hdb, Hpending.
  - split_and!; [done..|]. left. split_and!; [done..|].
    intros [Hq _]. by specialize (Hquiet Hq).
Qed.

(** X15: after a valid sweep the lapsed opportunities are under
    evaluation and their submitted proposals under review, provided no
    status row is dated after the sweep: Evaluation is then a current
    status of every opportunity that had lapsed, and UnderReview a
    current status of every proposal of theirs whose latest status was
    Submitted. *)
Theorem closeCWUOpportunities_closes `{Imports} now w count :
  (∀ s, s ∈ cwuOpportunityStatuses (db w) → hist_createdAt s ≤ now) →
  (∀ s, s ∈ cwuProposalStatuses (db w) → pstat_createdAt s ≤ now) →
  (closeCWUOpportunities now w).1 = valid count →
  (∀ id, lapsed now (db w) id →
         currentStatus (db (closeCWUOpportunities now w).2) id Evaluation)
  ∧ (∀ p, p ∈ cwuProposals (db w) → lapsed now (db w) (prop_opportunity p) →
          latestSubmitted (db w) (prop_id p) →
          currentProposalStatus (db (closeCWUOpportunities now w).2)
                                (prop_id p) UnderReview).
Proof.
  intros Hold Hpold Hvalid.
  destruct (closeCWUOpportunities_run now w)
    as (_ & _ & [(Hinvalid & _)|(statuses & proposalStatuses & _ & Hdb & Hids
                                  & Hstatuses & Hsound & Hcomplete)]);
    [congruence|].
  rewrite Hdb. split.
  - intros id Hid%elem_of_lapsedOpportunitiesIds. rewrite <- Hids in Hid.
    apply list_elem_of_fmap in Hid as (s & -> & Hs).
    destruct (Hstatuses s Hs) as [Hstatus Hat].
    exists s. split_and!; try done.
    + simpl. apply elem_of_app. right. by rewrite app_nil_r.
    + simpl. rewrite app_nil_r.
      intros s' [Hs'|Hs']%elem_of_app _ _.
      * rewrite Hat. by apply Hold.
      * destruct (Hstatuses s' Hs') as [_ ->]. lia.
  - intros p Hp Hlapsed%elem_of_lapsedOpportunitiesIds Hsubmitted.
    destruct (Hcomplete p Hp Hlapsed Hsubmitted) as (s & Hs & Hsid).
    destruct (Hsound s Hs) as (Hstatus & Hat & _).
    exists s. split_and!; try done.
    + simpl. by apply elem_of_app; right.
    + simpl. intros s' [Hs'|Hs']%elem_of_app _ _.
      * rewrite Hat. by apply Hpold.
      * destruct (Hsound s' Hs') as (_ & -> & _). lia.
Qed.

Lemma closeCWUOpportunities_closes_witness :
  currentStatus
    (db (closeCWUOpportunities (H := sampleImports) 200 (worldOf lapsedDB [] [])).2)
    "opp-2" "EVALUATION".
Proof.
  refine (proj1 (closeCWUOpportunities_closes (H := sampleImports) 200
                   (worldOf lapsedDB [] []) 2 _ _ eq_refl) "opp-2" _).
  - intros s Hs. simpl in Hs.
    apply elem_of_cons in Hs as [->|Hs%list_elem_of_singleton];
      [|subst s]; simpl; lia.
  - intros s Hs%list_elem_of_singleton. subst s. simpl. lia.
  - exists (sampleRoot "opp-2"), (sampleStatus "st-2" "opp-2" 10 "PUBLISHED"),
      (sampleVersion "ver-2" "opp-2" 10 150).
    split_and!; try reflexivity.
    + apply list_elem_of_further, list_elem_of_here.
    + split_and!; try reflexivity.
      * apply list_elem_of_further, list_elem_of_here.
      * intros s' Hs' _ _. simpl in Hs'.
        apply elem_of_cons in Hs' as [->|Hs'%list_elem_of_singleton];
          [|subst s']; simpl; lia.
    + split_and!; try reflexivity.
      * apply list_elem_of_further, list_elem_of_here.
      * intros v' Hv' _. simpl in Hv'.
        apply elem_of_cons in Hv' as [->|Hv'%list_elem_of_singleton];
          [|subst v']; simpl; lia.
    + simpl. lia.
Defined.

(** X16: the sweep does not close twice.  When Published and Evaluation
    are different statuses and every status row is dated before the
    sweep, a valid sweep leaves no opportunity lapsed at the same time;
    if moreover nothing is rejected, a second sweep at that time returns
    0 and changes nothing. *)
Theorem closeCWUOpportunities_idempotent `{Imports} now w count :
  Published ≠ Evaluation →
  (∀ s, s ∈ cwuOpportunityStatuses (db w) → hist_createdAt s < now) →
  (closeCWUOpportunities now w).1 = valid count →
  lapsedOpportunitiesIds now (db (closeCWUOpportunities now w).2) = []
  ∧ (quiet w →
     (closeCWUOpportunities now (closeCWUOpportunities now w).2).1 = valid 0
     ∧ db (closeCWUOpportunities now (closeCWUOpportunities now w).2).2
       = db (closeCWUOpportunities now w).2).
Proof.
  intros Hdistinct Hold Hvalid.
  destruct (closeCWUOpportunities_run now w)
    as (Hfi & Hfc & [(Hinvalid & _)|(statuses & proposalStatuses & _ & Hdb & Hids
                                      & Hstatuses & _)]);
    [congruence|].
  assert (lapsedOpportunitiesIds now (db (closeCWUOpportunities now w).2) = [])
    as Hnone.
  { apply elem_of_nil_inv. intros id Hid%elem_of_lapsedOpportunitiesIds.
    destruct Hid as (root & stat & version & Hroot & Hrid & Hstat & Hversion & Hdue).
    destruct Hstat as (Hs & Hsid & Hstatus & Hmax).
    rewrite Hdb in Hroot, Hs, Hmax, Hversion. simpl in Hroot, Hs, Hmax.
    rewrite !app_nil_r in *.
    apply elem_of_app in Hs as [Hs|Hs];
      [|destruct (Hstatuses stat Hs) as [? _]; congruence].
    assert (id ∈ lapsedOpportunitiesIds now (db w)) as Hlapsed.
    { apply elem_of_lapsedOpportunitiesIds. exists root, stat, version.
      split_and!; try done.
      - split_and!; try done. intros s' Hs'. apply Hmax, elem_of_app. by left.
      - destruct Hversion as (Hv & Hvid & Hvmax). simpl in Hv, Hvmax.
        rewrite !app_nil_r in *. by split_and!. }
    rewrite <- Hids in Hlapsed.
    apply list_elem_of_fmap in Hlapsed as (s & -> & Hnew).
    destruct (Hstatuses s Hnew) as [Hst Hat].
    assert (hist_createdAt s ≤ hist_createdAt stat) as Hle.
    { apply Hmax; [apply elem_of_app; by right|done|by rewrite Hst]. }
    specialize (Hold stat Hs). lia. }
  split; [done|]. intros [Hqi Hqc].
  destruct (closeCWUOpportunities_run now (closeCWUOpportunities now w).2)
    as (_ & _ & [(_ & _ & Hnoisy)|(statuses' & proposalStatuses' & Hresult & Hdb'
                                    & Hids' & _ & Hsound' & _)]).
  { destruct Hnoisy. split; congruence. }
  rewrite Hnone in Hids', Hsound'. apply fmap_nil_inv in Hids'. subst statuses'.
  assert (proposalStatuses' = []) as ->.
  { apply elem_of_nil_inv. intros s Hs.
    destruct (Hsound' s Hs) as (_ & _ & p & _ & _ & Hin & _).
    by apply elem_of_nil in Hin. }
  split; [done|]. rewrite Hdb'. by rewrite !mergeDB_empty_r.
Qed.

Lemma closeCWUOpportunities_idempotent_witness :
  lapsedOpportunitiesIds (H := sampleImports) 200
    (db (closeCWUOpportunities (H := sampleImports) 200 (worldOf lapsedDB [] [])).2)
  = [].
Proof.
  refine (proj1 (closeCWUOpportunities_idempotent (H := sampleImports) 200
                   (worldOf lapsedDB [] []) 2 _ _ eq_refl)).
  - discriminate.
  - intros s Hs. simpl in Hs.
    apply elem_of_cons in Hs as [->|Hs%list_elem_of_singleton];
      [|subst s]; simpl; lia.
Defined.

(** ** Creation and addenda, read back *)

Lemma promiseAll_all_Ok {A B} (f : A → Result B) xs :
  (∀ x, x ∈ xs → ∃ y, f x = Ok y) → ∃ ys, promiseAll f xs = Ok ys.
Proof.
  induction xs as [|a xs IH]; intros Hall; simpl; [by exists []|].
  destruct (Hall a) as [b ->]; [apply list_elem_of_here|].
  destruct IH as [ys ->]; [intros x Hx; by apply Hall, list_elem_of_further|].
  simpl. eauto.
Qed.

Lemma readOneCWUOpportunityAddendum_found `{Imports} d a :
  a ∈ cwuOpportunityAddenda d →
  ∃ addendum, readOneCWUOpportunityAddendum d (add_id a) = valid addendum.
Proof.
  intros Ha. unfold readOneCWUOpportunityAddendum.
  destruct (head (filter _ (cwuOpportunityAddenda d))) as [row|] eqn:Hhead;
    simpl; [eauto|].
  apply head_None in Hhead. by destruct (filter_nil_not_elem_of _ _ a Hhead).
Qed.

(** X17: the addendum comes back.  After a valid
    [addCWUOpportunityAddendum] whose uuid no stored addendum carries
    yet, [readOneCWUOpportunityAddendum] returns the addendum under that
    uuid, with the given text, time and author, and the returned
    opportunity lists it among its addenda. *)
Theorem addCWUOpportunityAddendum_reads_addendum `{Imports}
    now id addendumText session w opp :
  (∀ a, a ∈ cwuOpportunityAddenda (db w) → add_id a ≠ generateUuid_nth (nextUuid w)) →
  (addCWUOpportunityAddendum now id addendumText session w).1 = valid opp →
  readOneCWUOpportunityAddendum
    (db (addCWUOpportunityAddendum now id addendumText session w).2)
    (generateUuid_nth (nextUuid w))
  = valid {| addendum_id := generateUuid_nth (nextUuid w);
             addendum_opportunity := id;
             addendum_description := addendumText;
             addendum_createdBy := userOf (Some (user_id (auth_user session)));
             addendum_createdAt := now |}
  ∧ {| addendum_id := generateUuid_nth (nextUuid w);
       addendum_opportunity := id;
       addendum_description := addendumText;
       addendum_createdBy := userOf (Some (user_id (auth_user session)));
       addendum_createdAt := now |} ∈ opp_addenda opp.
Proof.
  intros Hfresh Hvalid.
  destruct (addCWUOpportunityAddendum_outcomes now id addendumText session w)
    as [(Hinvalid & _)|(Hdb & Hresult)]; [congruence|].
  rewrite Hvalid in Hresult. symmetry in Hresult.
  apply readBackResult_valid in Hresult.
  assert (readOneCWUOpportunityAddendum
            (db (addCWUOpportunityAddendum now id addendumText session w).2)
            (generateUuid_nth (nextUuid w))
          = valid {| addendum_id := generateUuid_nth (nextUuid w);
                     addendum_opportunity := id;
                     addendum_description := addendumText;
                     addendum_createdBy := userOf (Some (user_id (auth_user session)));
                     addendum_createdAt := now |}) as Hone.
  { rewrite Hdb. unfold readOneCWUOpportunityAddendum. simpl.
    rewrite filter_app.
    assert (filter (λ a, add_id a = generateUuid_nth (nextUuid w))
                   (cwuOpportunityAddenda (db w)) = []) as ->.
    { apply elem_of_nil_inv. intros a [Hid Ha]%list_elem_of_filter.
      by destruct (Hfresh a Ha). }
    rewrite filter_cons_True by done. done. }
  split; [done|].
  destruct (readOneCWUOpportunity_first _ _ _ _ Hresult)
    as (root & stat & version & Hfirst & _).
  destruct (readOneCWUOpportunity_decorations _ _ _ _ _ _ _ Hfirst Hresult)
    as (_ & _ & _ & _ & _ & Haddenda).
  destruct (promiseAll_Ok_elem _ _ _ (generateUuid_nth (nextUuid w)) Haddenda)
    as (addendum & Hfound & Hin).
  { rewrite Hdb. simpl. rewrite filter_app, fmap_app. apply elem_of_app. right.
    rewrite filter_cons_True by done. apply list_elem_of_here. }
  rewrite Hone in Hfound. simpl in Hfound. by injection Hfound as <-.
Qed.

Lemma addCWUOpportunityAddendum_reads_addendum_witness :
  readOneCWUOpportunityAddendum (H := sampleImports)
    (db (addCWUOpportunityAddendum (H := sampleImports) 20 "opp-1" "clarification"
           (authenticated "gov-1" Government) (worldOf publishedDB [] [])).2)
    "uuid-0"
  = valid {| addendum_id := "uuid-0";
             addendum_opportunity := "opp-1";
             addendum_description := "clarification";
             addendum_createdBy := Some {| userSlim_id := "gov-1";
                                           userSlim_name := "gov-1" |};
             addendum_createdAt := 20 |}.
Proof.
  refine (proj1 (addCWUOpportunityAddendum_reads_addendum (H := sampleImports)
                   20 "opp-1" "clarification" (authenticated "gov-1" Government)
                   (worldOf publishedDB [] [])
                   (getValidValue
                      (addCWUOpportunityAddendum (H := sampleImports) 20 "opp-1"
                         "clarification" (authenticated "gov-1" Government)
                         (worldOf publishedDB [] [])).1
                      publishedForVendor) _ _)).
  - by intros a Ha%elem_of_nil.
  - vm_compute. reflexivity.
Defined.

Lemma readOneDecorate_succeeds `{Imports} d id session sel :
  (∀ s, s ∈ cwuOpportunityStatuses d → hist_opportunity s = raw_id sel →
        truthyOpt (hist_status s) = true) →
  ∃ result, readOneDecorate d id session sel = Ok result.
Proof.
  intros Htyped. unfold readOneDecorate.
  destruct (processForRole_raw sel session) as (E1 & _). simpl in E1.
  destruct (sessionUserIs session Admin || _); simpl; [|eauto].
  destruct (promiseAll_all_Ok
              rawCWUOpportunityHistoryRecordToCWUOpportunityHistoryRecord
              (merge_sort newerFirst
                 (filter (λ s, hist_opportunity s = raw_id (processForRole sel session))
                         (cwuOpportunityStatuses d)))) as [history ->].
  { intros s Hs. rewrite merge_sort_Permutation in Hs.
    apply list_elem_of_filter in Hs as [Hid Hs].
    unfold rawCWUOpportunityHistoryRecordToCWUOpportunityHistoryRecord.
    rewrite (Htyped s Hs) by congruence. simpl. eauto. }
  simpl. eauto.
Qed.

(** X18: creation returns what was created.  When nothing is rejected,
    the uuids are fresh, the files of the attachments resolve, and the
    initial status is a non-empty one that the creator may read,
    [createCWUOpportunity] is valid and returns the opportunity under the
    new id, created and updated at the time of the call by the creator,
    with the given content and status. *)
Theorem createCWUOpportunity_returns_created `{Imports} now opportunity session w :
  quiet w → freshCreation w →
  truthy (new_status opportunity) = true →
  creatorSees session (new_status opportunity) →
  (∀ f, f ∈ new_attachments opportunity →
        ∃ record, readOneFileById (file_id f) = valid (Some record)) →
  ∃ opp,
    (createCWUOpportunity now opportunity session w).1 = valid opp
    ∧ opp_id opp = generateUuid_nth (nextUuid w)
    ∧ opp_createdAt opp = now ∧ opp_updatedAt opp = now
    ∧ opp_createdBy opp = userOf (Some (user_id (auth_user session)))
    ∧ opp_updatedBy opp = userOf (Some (user_id (auth_user session)))
    ∧ opp_content opp = new_content opportunity
    ∧ opp_status opp = Some (new_status opportunity).
Proof.
  intros Hquiet (Hroots & Hversions & Hstatuses & Hattachments) Htruthy Hsees Hfiles.
  destruct (createCWUOpportunity_outcomes now opportunity session w)
    as [(_ & _ & Hnoisy)|(Hdb & Hresult)]; [done|].
  rewrite Hresult. clear Hresult.
  set (rid := generateUuid_nth (nextUuid w)) in *.
  set (d' := db (createCWUOpportunity now opportunity session w).2) in *.
  set (root := {| root_id := rid; root_createdAt := now;
                  root_createdBy := user_id (auth_user session) |}).
  set (version := {| version_id := generateUuid_nth (S (nextUuid w));
                     version_opportunity := rid; version_createdAt := now;
                     version_createdBy := user_id (auth_user session);
                     version_content := new_content opportunity |}).
  set (stat := {| hist_id := generateUuid_nth (S (S (nextUuid w)));
                  hist_opportunity := rid; hist_createdAt := now;
                  hist_createdBy := Some (user_id (auth_user session));
                  hist_status := Some (new_status opportunity);
                  hist_event := None; hist_note := EmptyString |}).
  assert (cwuOpportunities d' = cwuOpportunities (db w) ++ [root]) as Hd'roots
    by (by rewrite Hdb).
  assert (cwuOpportunityVersions d' = cwuOpportunityVersions (db w) ++ [version])
    as Hd'versions by (by rewrite Hdb).
  assert (cwuOpportunityStatuses d' = cwuOpportunityStatuses (db w) ++ [stat])
    as Hd'statuses by (by rewrite Hdb).
  (* the rows of the new opportunity are the new ones *)
  assert (∀ r, r ∈ cwuOpportunities d' → root_id r = rid → r = root) as Honly_root.
  { intros r Hr Hid. rewrite Hd'roots in Hr.
    apply elem_of_app in Hr as [Hr|Hr%list_elem_of_singleton]; [|done].
    by destruct (Hroots r Hr). }
  assert (∀ v, v ∈ cwuOpportunityVersions d' → version_opportunity v = rid →
               v = version) as Honly_version.
  { intros v Hv Hid. rewrite Hd'versions in Hv.
    apply elem_of_app in Hv as [Hv|Hv%list_elem_of_singleton]; [|done].
    by destruct (Hversions v Hv). }
  assert (∀ s, s ∈ cwuOpportunityStatuses d' → hist_opportunity s = rid →
               s = stat) as Honly_status.
  { intros s Hs Hid. rewrite Hd'statuses in Hs.
    apply elem_of_app in Hs as [Hs|Hs%list_elem_of_singleton]; [|done].
    by destruct (Hstatuses s Hs). }
  (* the query finds the new row, and only it *)
  assert ((root, stat, version) ∈ readOneRows d' rid (toSession session)) as Hrow.
  { apply list_elem_of_filter. split.
    - apply Is_true_true.
      unfold readOneVisible, sessionUserIs, sessionUserId, creatorSees in *. simpl.
      destruct (user_type (auth_user session)); simpl.
      + by apply bool_decide_eq_true.
      + rewrite orb_true_iff, andb_true_iff, !bool_decide_eq_true.
        destruct Hsees; [by left|by right].
      + by apply bool_decide_eq_true, elem_of_app.
    - apply list_elem_of_filter. split; [done|].
      apply elem_of_joinLatest. simpl. split_and!; try done.
      + rewrite Hd'roots. apply elem_of_app. right. apply list_elem_of_here.
      + rewrite Hd'statuses. apply elem_of_app. right. apply list_elem_of_here.
      + symmetry. apply maxCreatedAt_Some. split.
        * apply list_elem_of_fmap. exists stat. split; [done|].
          apply list_elem_of_filter. split; [by split; [|eexists]|].
          rewrite Hd'statuses. apply elem_of_app. right. apply list_elem_of_here.
        * intros t (s & -> & [[Hid _] Hs]%list_elem_of_filter)%list_elem_of_fmap.
          by rewrite (Honly_status s Hs Hid).
      + rewrite Hd'versions. apply elem_of_app. right. apply list_elem_of_here.
      + symmetry. apply maxCreatedAt_Some. split.
        * apply list_elem_of_fmap. exists version. split; [done|].
          apply list_elem_of_filter. split; [done|].
          rewrite Hd'versions. apply elem_of_app. right. apply list_elem_of_here.
        * intros t (v & -> & [Hid Hv]%list_elem_of_filter)%list_elem_of_fmap.
          by rewrite (Honly_version v Hv Hid). }
  assert (readOneFirst d' rid (toSession session) = Some (root, stat, version))
    as Hfirst.
  { destruct (readOneFirst d' rid (toSession session)) as [[[r s] v]|] eqn:Hfirst.
    - apply readOneFirst_Some in Hfirst as (Hjoin & Hid & _).
      apply elem_of_joinLatest in Hjoin as (Hr & (Hs & Hsid & _) & (Hv & Hvid & _)).
      rewrite (Honly_root r Hr Hid), (Honly_status s Hs), (Honly_version v Hv);
        [done|congruence..].
    - unfold readOneFirst in Hfirst. apply head_None in Hfirst.
      rewrite Hfirst in Hrow. by apply elem_of_nil in Hrow. }
  (* the read of the new row succeeds *)
  destruct (readOneDecorate_succeeds d' rid (toSession session)
              (selectRaw (root, stat, version))) as [result Hdec].
  { intros s Hs Hid. simpl in Hid. by rewrite (Honly_status s Hs Hid). }
  pose proof Hdec as (_ & _ & _ & _ & _ & _ & _ & Hatt & Hadd)%readOneDecorate_Ok.
  simpl in Hatt.
  assert (∃ opp, rawCWUOpportunityToCWUOpportunity d' result = Ok opp) as [opp Hconv].
  { unfold rawCWUOpportunityToCWUOpportunity.
    destruct (promiseAll_all_Ok
                (λ id, match getValidValue (readOneFileById id) None with
                       | None => Throw "unable to process opportunity"
                       | Some result => Ok result
                       end) (raw_attachments result)) as [attachments ->].
    { rewrite Hatt. intros fid (a & -> & [Hvid Ha]%list_elem_of_filter)%list_elem_of_fmap.
      rewrite Hdb in Ha. simpl in Ha.
      apply elem_of_app in Ha as [Ha|Ha]; [by destruct (Hattachments a Ha)|].
      apply list_elem_of_fmap in Ha as (f & -> & Hf). simpl.
      destruct (Hfiles f Hf) as [record ->]. simpl. eauto. }
    simpl.
    destruct (promiseAll_all_Ok
                (λ id, match getValidValueOrNull (readOneCWUOpportunityAddendum d' id) with
                       | None => Throw "unable to retrieve addenda"
                       | Some result => Ok result
                       end) (raw_addenda result)) as [addenda ->].
    { rewrite Hadd. intros aid (a & -> & [_ Ha]%list_elem_of_filter)%list_elem_of_fmap.
      destruct (readOneCWUOpportunityAddendum_found d' a Ha) as [addendum ->].
      simpl. eauto. }
    simpl. eauto. }
  assert (readOneCWUOpportunity d' rid (toSession session) = valid (Some opp)) as Hread.
  { unfold readOneCWUOpportunity. rewrite Hfirst. cbv beta iota.
    rewrite Hdec. simpl. by rewrite Hconv. }
  exists opp. split; [unfold readBackResult; by rewrite Hread|].
  apply readOneCWUOpportunity_Some in Hread
    as (r & s & v & Hfirst' & E1 & E2 & E3 & E4 & E5 & E6 & E7).
  rewrite Hfirst in Hfirst'. injection Hfirst' as <- <- <-.
  assert (hidesAuthors (toSession session) (Some (root_createdBy root))
                       (Some (version_createdBy version)) = false) as Hkept.
  { unfold hidesAuthors. simpl.
    rewrite (bool_decide_eq_true_2 (Some (user_id (auth_user session))
                                    = Some (user_id (auth_user session)))) by done.
    simpl. by rewrite andb_false_r. }
  rewrite Hkept in E6, E7. by split_and!.
Qed.

Lemma createCWUOpportunity_returns_created_witness :
  ∃ opp,
    (createCWUOpportunity (H := sampleImports) 50 sampleDraft
       (authenticated "gov-2" Government) (worldOf publishedDB [] [])).1 = valid opp
    ∧ opp_id opp = "uuid-0"
    ∧ opp_createdAt opp = 50 ∧ opp_updatedAt opp = 50
    ∧ opp_createdBy opp = Some {| userSlim_id := "gov-2"; userSlim_name := "gov-2" |}
    ∧ opp_updatedBy opp = Some {| userSlim_id := "gov-2"; userSlim_name := "gov-2" |}
    ∧ opp_content opp = sampleContent "Build the importer" 300
    ∧ opp_status opp = Some "DRAFT".
Proof.
  apply (createCWUOpportunity_returns_created (H := sampleImports) 50 sampleDraft
           (authenticated "gov-2" Government) (worldOf publishedDB [] [])).
  - split; reflexivity.
  - split_and!.
    + intros r Hr%list_elem_of_singleton. by subst r.
    + intros v Hv%list_elem_of_singleton. by subst v.
    + intros s Hs%list_elem_of_singleton. by subst s.
    + intros a Ha%list_elem_of_singleton. by subst a.
  - reflexivity.
  - right. simpl. apply list_elem_of_here.
  - intros f Hf%list_elem_of_singleton. subst f. simpl. eauto.
Defined.

(** * The phase form of a Sprint-With-Us opportunity *)

Section PhaseForm.
Import Phase.
Context `{FrontEnd}.

Lemma imap_flip_twice (f : Capability → Capability) (i : Z) (cs : list Capability) :
  (∀ c, f (f c) = c) →
  imap (λ j c, if bool_decide (Z.of_nat j = i) then f c else c)
    (imap (λ j c, if bool_decide (Z.of_nat j = i) then f c else c) cs) = cs.
Proof.
  intros Hf. apply list_eq. intros j.
  rewrite !list_lookup_imap.
  destruct (cs !! j) as [c|]; simpl; [|done].
  case_bool_decide; by rewrite ?Hf.
Qed.

Lemma imap_flip_lookup (f : Capability → Capability) (i : Z) (cs : list Capability) j :
  imap (λ j c, if bool_decide (Z.of_nat j = i) then f c else c) cs !! j =
  (λ c, if bool_decide (Z.of_nat j = i) then f c else c) <$> cs !! j.
Proof. by rewrite list_lookup_imap. Qed.

Lemma capabilitiesAreValid_true (cs : list Capability) :
  capabilitiesAreValid cs = true ↔ ∃ c, c ∈ cs ∧ checked c = true.
Proof.
  induction cs as [|c cs IH]; simpl.
  - split; [done|]. intros (c & Hc & _). by apply elem_of_nil in Hc.
  - destruct (checked c) eqn:Hchecked.
    + split; [|done]. intros _. exists c. split; [apply list_elem_of_here | done].
    + rewrite IH. split.
      * intros (c' & Hc' & Hchecked'). exists c'.
        split; [by apply list_elem_of_further | done].
      * intros (c' & Hc' & Hchecked').
        apply elem_of_cons in Hc' as [-> | Hc']; [congruence|].
        by exists c'.
Qed.

Lemma init_checked random params c :
  c ∈ capabilities (init random params) →
  capability c ∈ CAPABILITIES
  ∧ fullTime c = true
  ∧ (checked c = true ↔
     capability c ∈ req_capability <$>
       default [] (phase_requiredCapabilities <$> params_phase params)).
Proof.
  unfold init. simpl. intros (name & -> & Hname)%list_elem_of_fmap. simpl.
  split; [done|]. split; [apply orb_true_r|].
  destruct (find _ _) as [e|] eqn:Hfind; simpl.
  - apply find_some in Hfind as [He Heq].
    apply bool_decide_eq_true in Heq. split; [|done]. intros _.
    apply list_elem_of_fmap. exists e. split; [done|]. by apply list_elem_of_In.
  - split; [done|]. intros (e & He & Hin)%list_elem_of_fmap.
    apply list_elem_of_In in Hin.
    apply (find_none _ _ Hfind) in Hin.
    apply bool_decide_eq_false in Hin. congruence.
Qed.

(** X19: pressing the accordion, a capability's tick or its full-time switch
    twice gives the state back exactly, with nothing left to run, whatever
    the index is. *)
Theorem toggle_twice_restores (state : State) (i : Z) :
  update (update state toggleAccordion).1 toggleAccordion = (state, None)
  ∧ update (update state (toggleCapabilityChecked i)).1 (toggleCapabilityChecked i)
    = (state, None)
  ∧ update (update state (toggleCapabilityIsFullTime i)).1 (toggleCapabilityIsFullTime i)
    = (state, None).
Proof.
  destruct state as [open validate sd cd mb cs].
  unfold update, update_isAccordianOpen, update_capabilities. simpl.
  split_and!; f_equal; f_equal.
  - apply negb_involutive.
  - apply (imap_flip_twice
      (λ c, {| capability := capability c; fullTime := fullTime c;
               checked := negb (checked c) |})).
    intros [name full tick]. simpl. by rewrite negb_involutive.
  - apply (imap_flip_twice
      (λ c, {| capability := capability c; fullTime := negb (fullTime c);
               checked := checked c |})).
    intros [name full tick]. simpl. by rewrite negb_involutive.
Qed.

(** X20: the form starts with one capability per entry of [CAPABILITIES],
    in that order; each is ticked exactly when the stored phase requires a
    capability of that name, and each is full-time, also when the phase
    requires it part-time ([found?.fullTime || true]). *)
Theorem init_capabilities (random : string) (params : Params) :
  capability <$> capabilities (init random params) = CAPABILITIES
  ∧ ∀ c, c ∈ capabilities (init random params) →
      fullTime c = true
      ∧ (checked c = true ↔
         capability c ∈ req_capability <$>
           default [] (phase_requiredCapabilities <$> params_phase params)).
Proof.
  split.
  - unfold init. simpl. rewrite <- list_fmap_compose.
    rewrite <- (list_fmap_id CAPABILITIES) at 2. by apply list_fmap_ext.
  - intros c Hc. by apply init_checked in Hc as (_ & ? & ?).
Qed.

(** X21: the values the form reports do not depend on the ticks: ticking
    or unticking a capability leaves [getValues] unchanged, and the reported
    required capabilities name every capability of the form, ticked or
    not. *)
Theorem getValues_ignores_checked (state : State) (i : Z) :
  getValues (update state (toggleCapabilityChecked i)).1 = getValues state
  ∧ ∀ v, getValues state = Some v →
      req_capability <$> values_requiredCapabilities v
      = capability <$> capabilities state.
Proof.
  split.
  - unfold getValues, update, update_capabilities. simpl.
    destruct (getValue (maxBudget state)) as [b|]; [|done].
    do 2 f_equal. apply list_eq. intros j.
    rewrite !list_lookup_fmap, imap_flip_lookup.
    destruct (capabilities state !! j) as [c|]; simpl; [|done].
    by case_bool_decide.
  - intros v. unfold getValues.
    destruct (getValue (maxBudget state)) as [b|]; [|done].
    intros [= <-]. simpl. rewrite <- list_fmap_compose. by apply list_fmap_ext.
Qed.

(** X22: the full-time switch of the capability at index [i] flips the
    full-time flag of entry [i] of the reported required capabilities and
    changes nothing else of the reported values; at an index past the end
    nothing changes. *)
Theorem toggleCapabilityIsFullTime_alters_values (state : State) (i : Z) (v : Values) :
  0 ≤ i →
  getValues state = Some v →
  getValues (update state (toggleCapabilityIsFullTime i)).1 =
  Some {| values_startDate := values_startDate v;
          values_completionDate := values_completionDate v;
          values_maxBudget := values_maxBudget v;
          values_requiredCapabilities :=
            alter (λ r, {| req_capability := req_capability r;
                           req_fullTime := negb (req_fullTime r) |})
                  (Z.to_nat i) (values_requiredCapabilities v) |}.
Proof.
  intros Hi. unfold getValues, update, update_capabilities. simpl.
  destruct (getValue (maxBudget state)) as [b|]; [|done].
  intros [= <-]. simpl. do 2 f_equal. apply list_eq. intros j.
  rewrite list_lookup_fmap, imap_flip_lookup.
  destruct (decide (j = Z.to_nat i)) as [-> | Hne].
  - rewrite list_lookup_alter_eq, list_lookup_fmap.
    destruct (capabilities state !! Z.to_nat i) as [c|]; simpl; [|done].
    rewrite bool_decide_eq_true_2 by lia. done.
  - rewrite list_lookup_alter_ne by done. rewrite list_lookup_fmap.
    destruct (capabilities state !! j) as [c|]; simpl; [|done].
    rewrite bool_decide_eq_false_2 by lia. done.
Qed.

(** X23: a form as [init] builds it is valid only if the stored phase
    requires a capability whose name is in [CAPABILITIES]; in particular
    the form of a new phase is never valid as initialised. *)
Theorem init_valid_needs_capability (random : string) (params : Params) :
  isValid (init random params) = true →
  ∃ phase e,
    params_phase params = Some phase
    ∧ e ∈ phase_requiredCapabilities phase
    ∧ req_capability e ∈ CAPABILITIES.
Proof.
  unfold isValid. intros Hvalid.
  apply andb_true_iff in Hvalid as [_ Hvalid].
  apply capabilitiesAreValid_true in Hvalid as (c & Hc & Hchecked).
  apply init_checked in Hc as (Hname & _ & Hiff).
  apply Hiff in Hchecked.
  apply list_elem_of_fmap in Hchecked as (e & Heq & He).
  destruct (params_phase params) as [phase|]; simpl in He.
  - exists phase, e. rewrite <- Heq. done.
  - by apply elem_of_nil in He.
Qed.

(** X24: ticking an unticked capability of the form makes the capabilities
    valid, whatever the other ticks are; so a form whose three fields are
    valid becomes valid with one tick. *)
Theorem ticking_validates (state : State) (i : Z) (c : Capability) :
  0 ≤ i →
  capabilities state !! Z.to_nat i = Some c →
  checked c = false →
  let state' := (update state (toggleCapabilityChecked i)).1 in
  capabilitiesAreValid (capabilities state') = true
  ∧ isValid state' =
      fieldIsValid (startDate state) && fieldIsValid (completionDate state)
      && fieldIsValid (maxBudget state).
Proof.
  intros Hi Hc Hchecked state'.
  assert (capabilitiesAreValid (capabilities state') = true) as Hvalid.
  { apply capabilitiesAreValid_true.
    exists {| capability := capability c; fullTime := fullTime c; checked := true |}.
    split; [|done].
    apply list_elem_of_lookup. exists (Z.to_nat i).
    unfold state', update, update_capabilities. simpl.
    rewrite imap_flip_lookup, Hc. simpl.
    rewrite bool_decide_eq_true_2 by lia. by rewrite Hchecked. }
  split; [done|].
  unfold isValid. rewrite Hvalid. by rewrite andb_true_r.
Qed.

End PhaseForm.

Lemma toggleCapabilityIsFullTime_alters_values_witness :
  ∃ v v',
    Phase.getValues (Phase.sampleForm (Some Phase.samplePhase)) = Some v
    ∧ Phase.getValues
        (Phase.update (Phase.sampleForm (Some Phase.samplePhase))
           (Phase.toggleCapabilityIsFullTime 2)).1 = Some v'
    ∧ Phase.req_fullTime <$> Phase.values_requiredCapabilities v = [true; true; true]
    ∧ Phase.req_fullTime <$> Phase.values_requiredCapabilities v' = [true; true; false].
Proof.
  eexists _, _. split; [reflexivity|]. split.
  - apply toggleCapabilityIsFullTime_alters_values; [lia | reflexivity].
  - split; reflexivity.
Defined.

Lemma init_valid_needs_capability_witness :
  Phase.isValid (Phase.sampleForm (Some Phase.samplePhase)) = true
  ∧ ∃ phase e,
      Phase.params_phase (Phase.sampleParams (Some Phase.samplePhase)) = Some phase
      ∧ e ∈ Phase.phase_requiredCapabilities phase
      ∧ Phase.req_capability e ∈ Phase.CAPABILITIES (FrontEnd := Phase.sampleFrontEnd).
Proof.
  split; [reflexivity|].
  apply (init_valid_needs_capability (H := Phase.sampleFrontEnd) "0.42").
  reflexivity.
Defined.

Lemma ticking_validates_witness :
  let state := Phase.sampleForm None in
  let state' := (Phase.update state (Phase.toggleCapabilityChecked 1)).1 in
  Phase.isValid state = false
  ∧ Phase.capabilitiesAreValid (Phase.capabilities state') = true
  ∧ Phase.isValid state' =
      Phase.fieldIsValid (Phase.startDate state)
      && Phase.fieldIsValid (Phase.completionDate state)
      && Phase.fieldIsValid (Phase.maxBudget state).
Proof.
  intros state state'. split; [reflexivity|].
  apply (ticking_validates state 1
           {| Phase.capability := "Backend Development";
              Phase.fullTime := true; Phase.checked := false |});
    [lia | reflexivity | reflexivity].
Defined.
